(** * GAIL discriminator (mlagents/trainers/components/reward_signals/gail/model.py)

    A shallow embedding of [GAILModel] and of the TensorFlow-1 operations it
    calls.  The Python code builds a computation graph once; a session then
    evaluates nodes of that graph against the current variable values, the
    fed placeholders and the draws of the random operations.  Accordingly

    - graph construction is a state-and-error monad [build] over the graph's
      variable registry (what [tf.get_variable] and [tf.layers.dense] consult
      when [reuse] is set) and its counter of random operations;
    - a tensor is a function from a [run] (variable store, feeds, draws) to
      its value, [None] standing for every outcome that is not a finite real
      tensor (shape error, missing variable, log of a non-positive number,
      mean of an empty batch);
    - [float32] arithmetic is idealised as arithmetic on [R]: rounding,
      overflow and NaN propagation are outside the model. *)

From Stdlib Require Import Reals Lra Lia ZArith List.
From stdpp Require Import base option list strings pretty gmap.

(** ** TensorFlow operations used by the model *)

Module Tf.

Local Open Scope R_scope.

Abbreviation vec := (list R) (only parsing).
Abbreviation mat := (list (list R)) (only parsing).

(** Variable values: rank 0, 1 and 2. *)
Inductive value :=
| Scalar (x : R)
| Vector (v : vec)
| Matrix (m : mat).

Inductive initializer :=
| ones_initializer
| zeros_initializer
| glorot_uniform_initializer
| variance_scaling_initializer (scale : R).

Record variable := MkVariable {
  v_shape : list nat;
  v_trainable : bool;
  v_initializer : initializer;
}.

(** Values fed to the action placeholder: float32 rows for a continuous
    action space, int32 rows of branch indices for a discrete one. *)
Inductive action_feed :=
| FloatActions (m : mat)
| IntActions (m : list (list Z)).

Definition image := list (list (list R)).

(** Values fed to the placeholders; [feed_policy] and [feed_visual] hold
    what is fed to the placeholders of the policy model and to the visual
    placeholders, by name. *)
Record feed := Feed {
  feed_kl_div_input : R;
  feed_done_expert : mat;
  feed_done_policy : mat;
  feed_action_in_expert : action_feed;
  feed_obs_in_expert : mat;
  feed_use_noise : vec;
  feed_policy : gmap string (list (list R));
  feed_visual : gmap string (list image);
}.

Record run := Run {
  r_vars : gmap string value;
  r_feed : feed;
  r_normal : nat -> nat -> nat -> R;
  r_uniform : nat -> nat -> nat -> R;
}.

(** A rank-2 tensor [batch, t_dim]; the batch size is only known in a run. *)
Record tensor := Tensor {
  t_dim : nat;
  t_run : run -> option mat;
}.

(** An int32 rank-2 tensor. *)
Record itensor := ITensor {
  it_dim : nat;
  it_run : run -> option (list (list Z));
}.

(** A batch of images (rank 4). *)
Definition vtensor := run -> option (list image).

(** An operation with an effect on the variable store. *)
Definition op := run -> option (gmap string value).

(** *** Graph construction *)

Record graph := Graph {
  g_variables : gmap string variable;
  g_random_ops : nat;
}.

Definition empty_graph : graph := Graph ∅ 0.

Definition build (A : Type) := graph -> option (A * graph).

Definition ret {A} (a : A) : build A := fun g => Some (a, g).

Definition bind {A B} (m : build A) (f : A -> build B) : build B :=
  fun g => match m g with
           | Some (a, g') => f a g'
           | None => None
           end.

Definition raise {A} : build A := fun _ => None.

Declare Scope build_scope.
Delimit Scope build_scope with build.
Notation "'let*' x ':=' m 'in' k" := (bind m (fun x => k))
  (at level 10, x pattern, m at level 100, k at level 200) : build_scope.

Local Open Scope build_scope.

Definition shape_eqb (s1 s2 : list nat) : bool :=
  bool_decide (s1 = s2).

(** [tf.get_variable] under a variable scope whose reuse flag is [reuse]:
    reusing requires the variable to exist (with the requested shape), not
    reusing requires it to be new.  The result is the variable's name. *)
Definition get_variable (name : string) (shape : list nat) (trainable : bool)
    (init : initializer) (reuse : bool) : build string :=
  fun g =>
    match g_variables g !! name with
    | Some v =>
        if reuse && shape_eqb (v_shape v) shape then Some (name, g) else None
    | None =>
        if reuse then None
        else Some (name,
                   Graph (<[name := MkVariable shape trainable init]> (g_variables g))
                         (g_random_ops g))
    end.

(** A random operation gets its own identity in the graph: two calls of
    [tf.random_normal] are two operations and draw separately. *)
Definition fresh_random_op : build nat :=
  fun g => Some (g_random_ops g, Graph (g_variables g) (S (g_random_ops g))).

(** [GraphKeys.TRAINABLE_VARIABLES]. *)
Definition trainable_variables (g : graph) : gmap string variable :=
  filter (fun kv => v_trainable kv.2 = true) (g_variables g).

(** *** Reading the store *)

Definition read_scalar (name : string) (r : run) : option R :=
  match r_vars r !! name with Some (Scalar x) => Some x | _ => None end.

Definition read_vector (name : string) (r : run) : option vec :=
  match r_vars r !! name with Some (Vector v) => Some v | _ => None end.

Definition read_matrix (name : string) (r : run) : option mat :=
  match r_vars r !! name with Some (Matrix m) => Some m | _ => None end.

(** *** Elementwise and reduction kernels *)

Definition sigmoid (x : R) : R := 1 / (1 + exp (- x)).

Definition maximum (x y : R) : R := Rmax x y.

(** [tf.log]: finite only on positive arguments. *)
Definition log (x : R) : option R :=
  if Rlt_dec 0 x then Some (ln x) else None.

Definition square (x : R) : R := x * x.

Definition sum (v : vec) : R := fold_right Rplus 0 v.

(** [tf.reduce_mean] of a flat list of entries; 0/0 on no entries. *)
Definition mean (v : vec) : option R :=
  match v with
  | [] => None
  | _ => Some (sum v / INR (length v))
  end.

Definition has_dim (d : nat) (m : mat) : bool :=
  forallb (fun row => Nat.eqb (length row) d) m.

Definition flatten (m : mat) : vec := List.concat m.

(** Elementwise binary operations broadcast NumPy-style: along an axis the
    two sizes are equal, or one of them is 1 and is repeated. *)
Definition bcast {A} (f : A -> A -> option A) (a b : list A) : option (list A) :=
  if Nat.eqb (length a) (length b) then mapM (fun ab => f ab.1 ab.2) (zip a b)
  else match a, b with
       | [x], _ => mapM (f x) b
       | _, [y] => mapM (fun x => f x y) a
       | _, _ => None
       end.

Definition bcast_row (f : R -> R -> R) (a b : vec) : option vec :=
  bcast (fun x y => Some (f x y)) a b.

Definition bcast_mat (f : R -> R -> R) (a b : mat) : option mat :=
  bcast (bcast_row f) a b.

(** [tf.concat(..., axis=1)] on values: all batches have the same size. *)
Definition hcat (a b : mat) : option mat :=
  if Nat.eqb (length a) (length b) then Some (zip_with app a b) else None.

Fixpoint concat_rows (ms : list mat) : option mat :=
  match ms with
  | [] => None
  | m :: rest =>
      match rest with
      | [] => Some m
      | _ => tl ← concat_rows rest; hcat m tl
      end
  end.

(** [x · K] for a kernel [K] with one row per input feature. *)
Definition vecmat (units : nat) (x : vec) (K : mat) : vec :=
  fold_right (zip_with Rplus) (repeat 0 units)
             (zip_with (fun xi Ki => map (Rmult xi) Ki) x K).

Definition dense_apply (activation : R -> R) (in_dim units : nat)
    (K : mat) (b : vec) (x : mat) : option mat :=
  if Nat.eqb (length K) in_dim && has_dim units K
     && Nat.eqb (length b) units && has_dim in_dim x
  then Some (map (fun xi => map activation (zip_with Rplus (vecmat units xi K) b)) x)
  else None.

(** *** Tensor-level operations *)

Definition scalar := run -> option R.
Definition tensor1 := run -> option vec.

Definition constant (c : R) : tensor := Tensor 1 (fun _ => Some [[c]]).

Definition binop (f : R -> R -> R) (a b : tensor) : tensor :=
  Tensor (Nat.max (t_dim a) (t_dim b))
         (fun r => x ← t_run a r; y ← t_run b r; bcast_mat f x y).

Definition add := binop Rplus.
Definition sub := binop Rminus.
Definition mul := binop Rmult.

Definition unop (f : R -> R) (a : tensor) : tensor :=
  Tensor (t_dim a) (fun r => x ← t_run a r; Some (map (map f) x)).

Definition tlog (a : tensor) : tensor :=
  Tensor (t_dim a) (fun r => x ← t_run a r; mapM (mapM log) x).

Definition identity (a : tensor) : tensor := a.

(** A float32 placeholder of shape [[None, dim]]. *)
Definition placeholder (dim : nat) (fed : feed -> option mat) : tensor :=
  Tensor dim (fun r => m ← fed (r_feed r);
                       if has_dim dim m then Some m else None).

(** An int32 placeholder of shape [[None, dim]]. *)
Definition iplaceholder (dim : nat) (fed : feed -> option (list (list Z))) : itensor :=
  ITensor dim (fun r => m ← fed (r_feed r);
                        if forallb (fun row => Nat.eqb (length row) dim) m
                        then Some m else None).

(** A float32 placeholder of shape [[1]], read as [[1, 1]] for broadcasting. *)
Definition placeholder_1 (fed : feed -> vec) : tensor :=
  Tensor 1 (fun r => match fed (r_feed r) with
                     | [u] => Some [[u]]
                     | _ => None
                     end).

(** A variable of rank 1 read as a tensor of shape [[1, n]] for broadcasting. *)
Definition vector_variable (name : string) (n : nat) : tensor :=
  Tensor n (fun r => v ← read_vector name r;
                     if Nat.eqb (length v) n then Some [v] else None).

(** [t[:, i]] on an int32 tensor. *)
Definition column (t : itensor) (i : nat) : run -> option (list Z) :=
  fun r => rows ← it_run t r; mapM (fun row : list Z => row !! i) rows.

Definition one_hot_row (depth : nat) (i : Z) : vec :=
  map (fun k => if Z.eqb i (Z.of_nat k) then 1 else 0) (seq 0 depth).

Definition one_hot (indices : run -> option (list Z)) (depth : nat) : tensor :=
  Tensor depth (fun r => idx ← indices r; Some (map (one_hot_row depth) idx)).

(** [tf.concat(ts, axis=1)]; an empty list is refused at construction. *)
Definition concat_output (ts : list tensor) : tensor :=
  Tensor (foldr Nat.add 0%nat (map t_dim ts))
         (fun r => ms ← mapM (fun t => t_run t r) ts; concat_rows ms).

Definition concat (ts : list tensor) : build tensor :=
  match ts with
  | [] => raise
  | _ => ret (concat_output ts)
  end.

(** A random operation of the shape of [like], reading the draws of
    operation [id]. *)
Definition random_like (draws : run -> nat -> nat -> nat -> R) (id : nat)
    (like : tensor) : tensor :=
  Tensor (t_dim like)
         (fun r => m ← t_run like r;
                   Some (imap (fun i row => imap (fun j _ => draws r id i j) row) m)).

(** [tf.random_normal(tf.shape(like))]. *)
Definition random_normal (like : tensor) : build tensor :=
  let* id := fresh_random_op in ret (random_like r_normal id like).

(** [tf.random_uniform(tf.shape(like))]. *)
Definition random_uniform (like : tensor) : build tensor :=
  let* id := fresh_random_op in ret (random_like r_uniform id like).

(** [tf.layers.dense(inputs, units, activation, name, reuse)] inside the
    variable scope [scope]: the layer's kernel and bias are variables
    [scope/name/kernel] and [scope/name/bias]. *)
Definition dense_output (kernel bias : string) (inputs : tensor) (units : nat)
    (activation : R -> R) : tensor :=
  Tensor units
         (fun r => x ← t_run inputs r;
                   K ← read_matrix kernel r;
                   b ← read_vector bias r;
                   dense_apply activation (t_dim inputs) units K b x).

Definition dense (scope : string) (inputs : tensor) (units : nat)
    (activation : R -> R) (name : string) (reuse : bool)
    (kernel_initializer : initializer) : build tensor :=
  let* kernel := get_variable (scope +:+ "/" +:+ name +:+ "/kernel")
                              [t_dim inputs; units] true kernel_initializer reuse in
  let* bias := get_variable (scope +:+ "/" +:+ name +:+ "/bias")
                            [units] true zeros_initializer reuse in
  ret (dense_output kernel bias inputs units activation).

(** [tf.reduce_mean(t)] over every entry. *)
Definition reduce_mean (t : tensor) : scalar :=
  fun r => x ← t_run t r; mean (flatten x).

(** [tf.reduce_sum(t, 1)]. *)
Definition reduce_sum_1 (t : tensor) : tensor1 :=
  fun r => x ← t_run t r; Some (map sum x).

Definition reduce_mean_1 (t : tensor1) : scalar :=
  fun r => x ← t r; mean x.

(** [tf.reshape(t, [-1])]. *)
Definition reshape_flat (t : tensor) : tensor1 :=
  fun r => x ← t_run t r; Some (flatten x).

(** [tf.assign(var, value)] for a scalar variable. *)
Definition assign (name : string) (new_value : scalar) : op :=
  fun r => x ← new_value r;
           match r_vars r !! name with
           | Some (Scalar _) => Some (<[name := Scalar x]> (r_vars r))
           | _ => None
           end.

(** Arithmetic on rank-0 and rank-1 nodes. *)
Definition s_const (c : R) : scalar := fun _ => Some c.

Definition s_lift2 (f : R -> R -> R) (a b : scalar) : scalar :=
  fun r => x ← a r; y ← b r; Some (f x y).

Definition s_neg (a : scalar) : scalar := fun r => x ← a r; Some (- x).

Definition map1 (f : R -> R) (t : tensor1) : tensor1 :=
  fun r => x ← t r; Some (map f x).

Definition log1 (t : tensor1) : tensor1 :=
  fun r => x ← t r; mapM log x.

(** What the model uses of the framework without looking inside:
    reverse-mode differentiation of one node with respect to another
    ([tf.gradients(ys, [xs])[0]]) and the new value that one step of the Adam
    optimizer (learning rate, loss) gives a variable in a run. *)
Record framework := Framework {
  gradients : tensor -> tensor -> tensor;
  adam_apply : R -> scalar -> run -> string -> value -> value;
}.

(** [tf.train.AdamOptimizer(learning_rate).minimize(loss)]: with no
    [var_list], the variables of the trainable collection at the time of
    the call are the ones the step assigns. *)
Definition minimize (fw : framework) (learning_rate : R) (loss : scalar) : build op :=
  fun g =>
    let var_list := trainable_variables g in
    Some ((fun r =>
             _ ← loss r;
             Some (map_imap (fun name v =>
                               Some (match var_list !! name with
                                     | Some _ => adam_apply fw learning_rate loss r name v
                                     | None => v
                                     end)) (r_vars r))), g).

End Tf.

(** ** The policy model the discriminator is attached to

    [mlagents.trainers.models.LearningModel] is an external collaborator:
    only the attributes and methods that [GAILModel] touches appear, and
    their results are left to the instance. *)

Module Policy.
Import Tf.

Record resolution := Resolution {
  height : nat;
  width : nat;
  blackAndWhite : bool;
}.

Record LearningModel := {
  vector_action_space_type : string;
  camera_resolutions : list resolution;
  act_size : list nat;
  vec_obs_size : nat;
  vis_obs_size : nat;
  normalize : bool;
  vector_in : tensor;
  visual_in : list vtensor;
  selected_actions : tensor;
  normalize_vector_obs : tensor -> tensor;
  create_visual_input : resolution -> string -> build vtensor;
  create_visual_observation_encoder :
    vtensor -> nat -> (R -> R) -> nat -> string -> bool -> build tensor;
  swish : R -> R;
  scaled_init : R -> initializer;
}.

End Policy.

(** ** The discriminator *)

Module GAILModel.
Import Tf Policy.

Local Open Scope R_scope.
Local Open Scope build_scope.

Definition EPSILON : R := 1e-7.

(** The arguments of [__init__]. *)
Record hyperparameters := Hyper {
  policy_model : LearningModel;
  h_size : nat;
  learning_rate : R;
  encoding_size : nat;
  use_actions : bool;
  use_vail : bool;
  gradient_penalty_weight : R;
}.

(** Attributes that [__init__] sets to constants. *)
Definition z_size : nat := 128.
Definition alpha : R := 0.0005.
Definition mutual_information : R := 0.5.

(** *** make_beta *)

Record beta_attrs := BetaAttrs {
  beta : string;
  kl_div_input : scalar;
  update_beta : op;
}.

Definition make_beta : build beta_attrs :=
  let* beta := get_variable "gail_beta" [] false ones_initializer false in
  let kl_div_input : scalar := fun r => Some (feed_kl_div_input (r_feed r)) in
  let new_beta :=
    s_lift2 maximum
      (s_lift2 Rplus (read_scalar beta)
         (s_lift2 Rmult (s_const alpha)
            (s_lift2 Rminus kl_div_input (s_const mutual_information))))
      (s_const EPSILON) in
  ret (BetaAttrs beta kl_div_input (assign beta new_beta)).

(** *** make_inputs *)

Record input_attrs := InputAttrs {
  done_expert : tensor;
  done_policy : tensor;
  action_in_expert : tensor + itensor;
  expert_action : tensor;
  obs_in_expert : option tensor;
  expert_visual_in : list vtensor;
  encoded_expert : tensor;
  encoded_policy : tensor;
}.

(** Lines 70-87: the expert action placeholder and its encoding. *)
Definition make_action_inputs (pm : LearningModel)
  : build ((tensor + itensor) * tensor) :=
  if String.eqb (vector_action_space_type pm) "continuous" then
    match act_size pm !! 0%nat with
    | Some action_length =>
        let action_in_expert :=
          placeholder action_length
            (fun f => match feed_action_in_expert f with
                      | FloatActions m => Some m
                      | IntActions _ => None
                      end) in
        ret (inl action_in_expert, identity action_in_expert)
    | None => raise
    end
  else
    let action_length := length (act_size pm) in
    let action_in_expert :=
      iplaceholder action_length
        (fun f => match feed_action_in_expert f with
                  | IntActions m => Some m
                  | FloatActions _ => None
                  end) in
    let* expert_action :=
      concat (imap (fun i act_size => one_hot (column action_in_expert i) act_size)
                   (act_size pm)) in
    ret (inr action_in_expert, expert_action).

(** Lines 111-137: the loop over the visual observations. *)
Fixpoint visual_encoders (pm : LearningModel) (encoding_size : nat)
    (indices : list nat) : build (list vtensor * list tensor * list tensor) :=
  match indices with
  | [] => ret ([], [], [])
  | i :: rest =>
      match camera_resolutions pm !! i, visual_in pm !! i with
      | Some res, Some policy_visual =>
          let* visual_input :=
            create_visual_input pm res ("gail_visual_observation_" +:+ pretty i) in
          let* encoded_policy_visual :=
            create_visual_observation_encoder pm policy_visual encoding_size
              (swish pm) 1 ("gail_stream_" +:+ pretty i +:+ "_visual_obs_encoder")
              false in
          let* encoded_expert_visual :=
            create_visual_observation_encoder pm visual_input encoding_size
              (swish pm) 1 ("gail_stream_" +:+ pretty i +:+ "_visual_obs_encoder")
              true in
          let* more := visual_encoders pm encoding_size rest in
          ret (visual_input :: more.1.1,
               encoded_policy_visual :: more.1.2,
               encoded_expert_visual :: more.2)
      | _, _ => raise
      end
  end.

(** Lines 89-144: the observation streams. *)
Definition make_observation_inputs (pm : LearningModel) (encoding_size : nat)
  : build (option tensor * list vtensor * tensor * tensor) :=
  let vector_part :=
    if (0 <? vec_obs_size pm)%nat then
      let obs_in_expert :=
        placeholder (vec_obs_size pm) (fun f => Some (feed_obs_in_expert f)) in
      if normalize pm then
        (Some obs_in_expert,
         [normalize_vector_obs pm obs_in_expert],
         [normalize_vector_obs pm (vector_in pm)])
      else (Some obs_in_expert, [obs_in_expert], [vector_in pm])
    else (None, [], []) in
  let obs_in_expert := vector_part.1.1 in
  let encoded_expert_list := vector_part.1.2 in
  let encoded_policy_list := vector_part.2 in
  let* visual_part :=
    if (0 <? vis_obs_size pm)%nat then
      let* encoders := visual_encoders pm encoding_size (seq 0 (vis_obs_size pm)) in
      let* hidden_policy_visual := concat encoders.1.2 in
      let* hidden_expert_visual := concat encoders.2 in
      ret (encoders.1.1,
           encoded_expert_list ++ [hidden_expert_visual],
           encoded_policy_list ++ [hidden_policy_visual])
    else ret ([], encoded_expert_list, encoded_policy_list) in
  let* encoded_expert := concat visual_part.1.2 in
  let* encoded_policy := concat visual_part.2 in
  ret (obs_in_expert, visual_part.1.1, encoded_expert, encoded_policy).

Definition make_inputs (hp : hyperparameters) : build input_attrs :=
  let pm := policy_model hp in
  let done_expert := placeholder 1 (fun f => Some (feed_done_expert f)) in
  let done_policy := placeholder 1 (fun f => Some (feed_done_policy f)) in
  let* actions := make_action_inputs pm in
  let* obs := make_observation_inputs pm (encoding_size hp) in
  ret (InputAttrs done_expert done_policy actions.1 actions.2
                  obs.1.1.1 obs.1.1.2 obs.1.2 obs.2).

(** *** create_encoder *)

(** The returned triple, and the attributes [self.noise] and [self.z] that
    the call binds when the bottleneck is on. *)
Record encoder := Encoder {
  estimate : tensor;
  z_mean : option tensor;
  concat_input : tensor;
  noise : option tensor;
  z : option tensor;
}.

(** [z_sigma] and [use_noise] are the attributes of [self] that
    [create_network] sets before the first call when the bottleneck is on. *)
Definition create_encoder (hp : hyperparameters)
    (z_sigma use_noise : option tensor)
    (state_in action_in done_in : tensor) (reuse : bool) : build encoder :=
  let scope := "GAIL_model" in
  let* concat_input :=
    if use_actions hp then concat [state_in; action_in; done_in]
    else ret state_in in
  let* hidden_1 :=
    dense scope concat_input (h_size hp) (swish (policy_model hp))
          "gail_d_hidden_1" reuse glorot_uniform_initializer in
  let* hidden_2 :=
    dense scope hidden_1 (h_size hp) (swish (policy_model hp))
          "gail_d_hidden_2" reuse glorot_uniform_initializer in
  let* latent :=
    if use_vail hp then
      let* z_mean :=
        dense scope hidden_2 z_size (fun x => x) "gail_z_mean" reuse
              (scaled_init (policy_model hp) 0.01) in
      let* noise := random_normal z_mean in
      match z_sigma, use_noise with
      | Some z_sigma, Some use_noise =>
          let z := add z_mean (mul (mul z_sigma noise) use_noise) in
          ret (Some z_mean, Some noise, Some z, z)
      | _, _ => raise
      end
    else ret (None, None, None, hidden_2) in
  let estimate_input := latent.2 in
  let* estimate :=
    dense scope estimate_input 1 sigmoid "gail_d_estimate" reuse
          glorot_uniform_initializer in
  ret (Encoder estimate latent.1.1.1 concat_input latent.1.1.2 latent.1.2).

(** *** create_network *)

Record network_attrs := NetworkAttrs {
  z_sigma : option tensor;
  z_sigma_sq : option tensor;
  z_log_sigma_sq : option tensor;
  use_noise : option tensor;
  expert : encoder;
  policy : encoder;
  discriminator_score : tensor1;
  intrinsic_reward : tensor1;
}.

Definition expert_estimate (n : network_attrs) := estimate (expert n).
Definition z_mean_expert (n : network_attrs) := z_mean (expert n).
Definition policy_estimate (n : network_attrs) := estimate (policy n).
Definition z_mean_policy (n : network_attrs) := z_mean (policy n).

Definition create_network (hp : hyperparameters) (i : input_attrs)
  : build network_attrs :=
  let* vail :=
    if use_vail hp then
      let* sigma := get_variable "gail_sigma_vail" [z_size] true
                                 ones_initializer false in
      let z_sigma := vector_variable sigma z_size in
      let z_sigma_sq := mul z_sigma z_sigma in
      let z_log_sigma_sq := tlog (add z_sigma_sq (constant EPSILON)) in
      let use_noise := placeholder_1 feed_use_noise in
      ret (Some z_sigma, Some z_sigma_sq, Some z_log_sigma_sq, Some use_noise)
    else ret (None, None, None, None) in
  let z_sigma := vail.1.1.1 in
  let use_noise := vail.2 in
  let* expert :=
    create_encoder hp z_sigma use_noise
      (encoded_expert i) (expert_action i) (done_expert i) false in
  let* policy :=
    create_encoder hp z_sigma use_noise
      (encoded_policy i) (selected_actions (policy_model hp)) (done_policy i)
      true in
  let discriminator_score := reshape_flat (estimate policy) in
  let intrinsic_reward :=
    map1 Ropp (log1 (map1 (fun s => 1 - s + EPSILON) discriminator_score)) in
  ret (NetworkAttrs z_sigma vail.1.1.2 vail.1.2 use_noise expert policy
                    discriminator_score intrinsic_reward).

(** *** create_gradient_magnitude *)

(** Lines 259-260: the penalty on a gradient tensor. *)
Definition gradient_penalty (grad : tensor) : scalar :=
  let safe_norm :=
    map1 sqrt (map1 (fun s => s + EPSILON)
                    (reduce_sum_1 (unop (fun x => x ^ 2) grad))) in
  reduce_mean_1 (map1 (fun s => (s - 1) ^ 2) safe_norm).

(** Lines 247-250: one uniform draw of the shape of each expert input. *)
Fixpoint interpolate (pairs : list (tensor * tensor)) : build (list tensor) :=
  match pairs with
  | [] => ret []
  | (expert_in, policy_in) :: rest =>
      let* alpha := random_uniform expert_in in
      let* interp := interpolate rest in
      ret (add (mul alpha expert_in) (mul (sub (constant 1) alpha) policy_in)
           :: interp)
  end.

Definition create_gradient_magnitude (fw : framework) (hp : hyperparameters)
    (i : input_attrs) (n : network_attrs) : build scalar :=
  let expert := [encoded_expert i; expert_action i; done_expert i] in
  let policy := [encoded_policy i; selected_actions (policy_model hp);
                 done_policy i] in
  let* interp := interpolate (zip expert policy) in
  match interp with
  | [interp_0; interp_1; interp_2] =>
      let* enc := create_encoder hp (z_sigma n) (use_noise n)
                                 interp_0 interp_1 interp_2 true in
      let grad_estimate := estimate enc in
      let grad_input := concat_input enc in
      let grad := gradients fw grad_estimate grad_input in
      let gradient_mag := gradient_penalty grad in
      ret gradient_mag
  | _ => raise
  end.

(** *** create_loss *)

Record loss_attrs := LossAttrs {
  mean_expert_estimate : scalar;
  mean_policy_estimate : scalar;
  discriminator_loss : scalar;
  kl_loss : option scalar;
  loss : scalar;
  update_batch : op;
}.

(** Lines 272-275. *)
Definition adversarial_loss (expert_estimate policy_estimate : tensor) : scalar :=
  s_neg (reduce_mean
           (add (tlog (add expert_estimate (constant EPSILON)))
                (tlog (add (sub (constant 1) policy_estimate)
                           (constant EPSILON))))).

(** Lines 279-288. *)
Definition kl_divergence (z_log_sigma_sq z_mean_expert z_mean_policy : tensor)
  : scalar :=
  reduce_mean_1
    (map1 Ropp
       (reduce_sum_1
          (sub (sub (sub (add (constant 1) z_log_sigma_sq)
                         (mul (constant 0.5) (unop square z_mean_expert)))
                    (mul (constant 0.5) (unop square z_mean_policy)))
               (unop exp z_log_sigma_sq)))).

Definition create_loss (fw : framework) (hp : hyperparameters)
    (b : beta_attrs) (i : input_attrs) (n : network_attrs)
  : build loss_attrs :=
  let mean_expert_estimate := reduce_mean (expert_estimate n) in
  let mean_policy_estimate := reduce_mean (policy_estimate n) in
  let discriminator_loss :=
    adversarial_loss (expert_estimate n) (policy_estimate n) in
  let* vail :=
    if use_vail hp then
      match z_log_sigma_sq n, z_mean_expert n, z_mean_policy n with
      | Some z_log_sigma_sq, Some z_mean_expert, Some z_mean_policy =>
          let kl_loss :=
            kl_divergence z_log_sigma_sq z_mean_expert z_mean_policy in
          ret (Some kl_loss,
               s_lift2 Rplus
                 (s_lift2 Rmult (read_scalar (beta b))
                    (s_lift2 Rminus kl_loss (s_const mutual_information)))
                 discriminator_loss)
      | _, _, _ => raise
      end
    else ret (None, discriminator_loss) in
  let* loss :=
    if Rlt_dec 0 (gradient_penalty_weight hp) then
      let* gradient_mag := create_gradient_magnitude fw hp i n in
      ret (s_lift2 Rplus vail.2
             (s_lift2 Rmult (s_const (gradient_penalty_weight hp)) gradient_mag))
    else ret vail.2 in
  let* update_batch := minimize fw (learning_rate hp) loss in
  ret (LossAttrs mean_expert_estimate mean_policy_estimate discriminator_loss
                 vail.1 loss update_batch).

(** *** __init__ *)

Record model := Model {
  hyper : hyperparameters;
  beta_part : beta_attrs;
  inputs : input_attrs;
  network : network_attrs;
  losses : loss_attrs;
}.

Definition init (fw : framework) (hp : hyperparameters) : build model :=
  let* b := make_beta in
  let* i := make_inputs hp in
  let* n := create_network hp i in
  let* l := create_loss fw hp b i n in
  ret (Model hp b i n l).

End GAILModel.

(** ** Per-sample readings of the nodes and statements to settle *)

Module Spec.
Import Tf Policy GAILModel.

Local Open Scope R_scope.

(** What [intrinsic_reward] computes for one entry of [discriminator_score]. *)
Definition reward_of_score (s : R) : option R :=
  x ← log (1 - s + EPSILON); Some (- x).



(** The KL term in the words of the specification: for one sample, the
    negated sum over the latent dimensions of
    [1 + log_sigma_sq - 0.5 * mean_expert^2 - 0.5 * mean_policy^2
     - exp(log_sigma_sq)]; then the mean over the batch. *)
Definition kl_sample (log_sigma_sq mean_expert mean_policy : vec) : R :=
  - sum (zip_with (fun s ep => 1 + s - 0.5 * ep.1 ^ 2 - 0.5 * ep.2 ^ 2 - exp s)
                  log_sigma_sq (zip mean_expert mean_policy)).

Definition kl_batch (log_sigma_sq : vec) (mean_expert mean_policy : mat)
  : option R :=
  mean (zip_with (kl_sample log_sigma_sq) mean_expert mean_policy).

(** The loss composition in the words of the specification: the base
    adversarial loss; plus [beta * (KL - 0.5)] when the bottleneck is on;
    plus [weight * gradient_penalty] when the weight is positive. *)
Definition total_loss (vail : bool) (weight : R)
    (base beta kl penalty : option R) : option R :=
  l1 ← base;
  l2 ← (if vail then b ← beta; k ← kl; Some (l1 + b * (k - 0.5))
        else Some l1);
  if Rlt_dec 0 weight then p ← penalty; Some (l2 + weight * p) else Some l2.

(** The base adversarial loss on the estimates of a batch. *)
Definition base_loss (expert_estimates policy_estimates : vec) : option R :=
  m ← mean (zip_with (fun e p => ln (e + 1e-7) + ln (1 - p + 1e-7))
                     expert_estimates policy_estimates);
  Some (- m).

Definition as_column (v : vec) : mat := map (fun x => [x]) v.

(** The attributes that [make_beta] sets. *)
Definition beta_nodes : beta_attrs :=
  BetaAttrs "gail_beta"
    (fun r => Some (feed_kl_div_input (r_feed r)))
    (assign "gail_beta"
       (s_lift2 maximum
          (s_lift2 Rplus (read_scalar "gail_beta")
             (s_lift2 Rmult (s_const alpha)
                (s_lift2 Rminus (fun r => Some (feed_kl_div_input (r_feed r)))
                         (s_const mutual_information))))
          (s_const EPSILON))).

(** The nodes that [create_encoder] returns when its constructions
    succeed, as a function of the identity [noise_op] of the random
    operation it creates. *)
Definition encoder_input (hp : hyperparameters) (state_in action_in done_in : tensor)
  : tensor :=
  if use_actions hp then concat_output [state_in; action_in; done_in]
  else state_in.

Definition hidden_layers (hp : hyperparameters) (concat_input : tensor)
  : tensor :=
  let hidden_1 :=
    dense_output "GAIL_model/gail_d_hidden_1/kernel"
                 "GAIL_model/gail_d_hidden_1/bias"
                 concat_input (h_size hp) (swish (policy_model hp)) in
  dense_output "GAIL_model/gail_d_hidden_2/kernel"
               "GAIL_model/gail_d_hidden_2/bias"
               hidden_1 (h_size hp) (swish (policy_model hp)).

Definition latent_mean (hp : hyperparameters) (concat_input : tensor) : tensor :=
  dense_output "GAIL_model/gail_z_mean/kernel" "GAIL_model/gail_z_mean/bias"
               (hidden_layers hp concat_input) z_size (fun x => x).

Definition estimate_layer (estimate_input : tensor) : tensor :=
  dense_output "GAIL_model/gail_d_estimate/kernel"
               "GAIL_model/gail_d_estimate/bias" estimate_input 1 sigmoid.

Definition encoder_nodes (hp : hyperparameters) (z_sigma use_noise : tensor)
    (state_in action_in done_in : tensor) (noise_op : nat) : encoder :=
  let concat_input := encoder_input hp state_in action_in done_in in
  if use_vail hp then
    let z_mean := latent_mean hp concat_input in
    let noise := random_like r_normal noise_op z_mean in
    let z := add z_mean (mul (mul z_sigma noise) use_noise) in
    Encoder (estimate_layer z) (Some z_mean) concat_input (Some noise) (Some z)
  else
    Encoder (estimate_layer (hidden_layers hp concat_input))
            None concat_input None None.

(** The attributes that [create_network] sets when its constructions
    succeed, [op] being the number of random operations created before. *)
Definition network_nodes (hp : hyperparameters) (i : input_attrs) (op : nat)
  : network_attrs :=
  let zs := vector_variable "gail_sigma_vail" z_size in
  let un := placeholder_1 feed_use_noise in
  let expert :=
    encoder_nodes hp zs un (encoded_expert i) (expert_action i) (done_expert i)
                  op in
  let policy :=
    encoder_nodes hp zs un (encoded_policy i)
                  (selected_actions (policy_model hp)) (done_policy i)
                  (if use_vail hp then S op else op) in
  let score := reshape_flat (estimate policy) in
  NetworkAttrs
    (if use_vail hp then Some zs else None)
    (if use_vail hp then Some (mul zs zs) else None)
    (if use_vail hp then Some (tlog (add (mul zs zs) (constant EPSILON)))
     else None)
    (if use_vail hp then Some un else None)
    expert policy score
    (map1 Ropp (log1 (map1 (fun s => 1 - s + EPSILON) score))).

(** One interpolated input of the gradient penalty, [op] being the
    identity of its uniform operation. *)
Definition interp_node (op : nat) (expert_in policy_in : tensor) : tensor :=
  let alpha := random_like r_uniform op expert_in in
  add (mul alpha expert_in) (mul (sub (constant 1) alpha) policy_in).

(** The value of an interpolated input: every entry has a weight of its
    own, [u i j] for the entry of sample [i] and feature [j]. *)
Definition interpolation (u : nat -> nat -> R) (E P : list (list R))
  : list (list R) :=
  imap (fun i ep =>
          imap (fun j xy => u i j * xy.1 + (1 - u i j) * xy.2) (zip ep.1 ep.2))
       (zip E P).

(** The interpolation in the words of the specification: one weight per
    sample, [a i] for sample [i], broadcast over its features. *)
Definition per_sample_interpolation (a : list R) (E P : list (list R))
  : list (list R) :=
  zip_with (fun ai ep => zip_with (fun x y => ai * x + (1 - ai) * y) ep.1 ep.2)
           a (zip E P).

(** The penalty on the value of a gradient tensor. *)
Definition penalty_value (G : list (list R)) : option R :=
  mean (map (fun row => (sqrt (sum (map (fun x => x ^ 2) row) + 1e-7) - 1) ^ 2)
            G).

(** The variables of the encoder, as its layers declare them on an input
    of [in_dim] features, in the order of their creation. *)
Definition layer_variables (name : string) (in_dim units : nat)
    (kernel_initializer : initializer) : list (string * variable) :=
  [("GAIL_model/" +:+ name +:+ "/kernel",
    MkVariable [in_dim; units] true kernel_initializer);
   ("GAIL_model/" +:+ name +:+ "/bias",
    MkVariable [units] true zeros_initializer)].

Definition estimate_input_dim (hp : hyperparameters)
    (z_sigma use_noise : tensor) : nat :=
  if use_vail hp
  then Nat.max z_size (Nat.max (Nat.max (t_dim z_sigma) z_size) (t_dim use_noise))
  else h_size hp.

Definition encoder_variables (hp : hyperparameters) (in_dim est_dim : nat)
  : list (string * variable) :=
  layer_variables "gail_d_hidden_1" in_dim (h_size hp) glorot_uniform_initializer
  ++ layer_variables "gail_d_hidden_2" (h_size hp) (h_size hp)
                     glorot_uniform_initializer
  ++ (if use_vail hp
      then layer_variables "gail_z_mean" (h_size hp) z_size
                           (scaled_init (policy_model hp) 0.01)
      else [])
  ++ layer_variables "gail_d_estimate" est_dim 1 glorot_uniform_initializer.

Definition declare (vars : list (string * variable))
    (m : gmap string variable) : gmap string variable :=
  foldl (fun m nv => <[nv.1 := nv.2]> m) m vars.

Definition declared (g : graph) (vars : list (string * variable)) : Prop :=
  Forall (fun nv => exists v, g_variables g !! nv.1 = Some v
                              /\ v_shape v = v_shape nv.2)
         vars.

Definition undeclared (g : graph) (vars : list (string * variable)) : Prop :=
  Forall (fun nv => g_variables g !! nv.1 = None) vars.

(** Two values of one shape. *)
Definition same_shape (A B : list (list R)) : Prop :=
  Forall2 (fun a b => length a = length b) A B.

(** Construction only adds variables. *)
Definition monotone {A} (m : build A) : Prop :=
  forall g a g', m g = Some (a, g') -> g_variables g ⊆ g_variables g'.

Definition policy_monotone (pm : LearningModel) : Prop :=
  (forall res name, monotone (create_visual_input pm res name))
  /\ (forall input size act layers scope reuse,
        monotone (create_visual_observation_encoder pm input size act layers
                                                    scope reuse)).



(** The names of the variables of the discriminator that the optimizer
    trains. *)
Definition discriminator_weights (hp : hyperparameters) : list string :=
  ["GAIL_model/gail_d_hidden_1/kernel"; "GAIL_model/gail_d_hidden_1/bias";
   "GAIL_model/gail_d_hidden_2/kernel"; "GAIL_model/gail_d_hidden_2/bias";
   "GAIL_model/gail_d_estimate/kernel"; "GAIL_model/gail_d_estimate/bias"]
  ++ (if use_vail hp
      then ["GAIL_model/gail_z_mean/kernel"; "GAIL_model/gail_z_mean/bias";
            "gail_sigma_vail"]
      else []).

End Spec.

(** ** Concrete instances *)

Module Examples.
Import Tf Policy GAILModel.

Local Open Scope R_scope.

Definition no_draws : nat -> nat -> nat -> R := fun _ _ _ => 0.

(** A policy with one vector observation, no camera, and two discrete
    action branches of sizes 3 and 2. *)
Definition demo_policy : LearningModel := {|
  vector_action_space_type := "discrete";
  camera_resolutions := [];
  act_size := [3; 2]%nat;
  vec_obs_size := 1;
  vis_obs_size := 0;
  normalize := false;
  vector_in := Tensor 1 (fun r => feed_policy (r_feed r) !! "vector_observation");
  visual_in := [];
  selected_actions := Tensor 5 (fun r => feed_policy (r_feed r) !! "action");
  normalize_vector_obs := fun t => t;
  create_visual_input := fun _ _ => raise;
  create_visual_observation_encoder := fun _ _ _ _ _ _ => raise;
  swish := fun x => x * sigmoid x;
  scaled_init := variance_scaling_initializer;
|}.

(** Hidden size 1; [vail] switches the bottleneck, [weight] is the
    gradient-penalty weight. *)
Definition demo_hp (vail : bool) (weight : R) : hyperparameters :=
  Hyper demo_policy 1 3e-4 64 false vail weight.

(** The graph in which [create_network] calls the encoder when the
    bottleneck is on, the variables of the demonstration network, and a run
    whose first noise operation draws 0 and whose others draw 1. *)
Definition sigma_graph : graph :=
  Graph {["gail_sigma_vail" := MkVariable [z_size] true ones_initializer]} 0.

Definition demo_vars : gmap string value :=
  <["gail_beta" := Scalar 1]>
  (<["gail_sigma_vail" := Vector (repeat 1 z_size)]>
  (<["GAIL_model/gail_d_hidden_1/kernel" := Matrix [[0]]]>
  (<["GAIL_model/gail_d_hidden_1/bias" := Vector [0]]>
  (<["GAIL_model/gail_d_hidden_2/kernel" := Matrix [[0]]]>
  (<["GAIL_model/gail_d_hidden_2/bias" := Vector [0]]>
  (<["GAIL_model/gail_z_mean/kernel" := Matrix [repeat 0 z_size]]>
  (<["GAIL_model/gail_z_mean/bias" := Vector (repeat 0 z_size)]>
  (<["GAIL_model/gail_d_estimate/kernel" := Matrix ([1] :: repeat [0] 127)]>
  (<["GAIL_model/gail_d_estimate/bias" := Vector [0]]> ∅))))))))).

Definition demo_feed (gate : R) : feed :=
  Feed 1 [[0]] [[0]] (IntActions [[1; 0]%Z]) [[0]] [gate]
       (<["vector_observation" := [[0]]]>
          (<["action" := [[1; 0; 0; 0; 1]]]> ∅))
       ∅.

Definition second_op_draws : nat -> nat -> nat -> R :=
  fun id _ _ => if Nat.eqb id 0 then 0 else 1.

Definition noisy_run : run :=
  Run demo_vars (demo_feed 1) second_op_draws no_draws.

(** The variables of the demonstration network without the bottleneck:
    its estimate layer reads the one hidden unit. *)
Definition plain_vars : gmap string value :=
  <["GAIL_model/gail_d_estimate/kernel" := Matrix [[1]]]> demo_vars.

Definition plain_run : run :=
  Run plain_vars (demo_feed 0) no_draws no_draws.

(** A run whose uniform operations draw 1/4 for the first feature of a
    sample and 3/4 for the others. *)
Definition mixed_draws : nat -> nat -> nat -> R :=
  fun _ _ j => if Nat.eqb j 0 then 1 / 4 else 3 / 4.

Definition mixed_run : run :=
  Run demo_vars (demo_feed 1) no_draws mixed_draws.

(** A framework whose gradients are zero and whose optimizer step moves
    every entry of a variable by the learning rate. *)
Definition demo_framework : framework :=
  Framework
    (fun ys xs => unop (fun _ => 0) xs)
    (fun learning_rate _ _ _ v =>
       match v with
       | Scalar x => Scalar (x - learning_rate)
       | Vector v => Vector (map (fun x => x - learning_rate) v)
       | Matrix m => Matrix (map (map (fun x => x - learning_rate)) m)
       end).

(** The graph after [make_beta] on the empty graph. *)
Definition beta_graph : graph :=
  Graph {["gail_beta" := MkVariable [] false ones_initializer]} 0.

Definition demo_inputs : input_attrs :=
  let action_in_expert :=
    iplaceholder 2 (fun f => match feed_action_in_expert f with
                             | IntActions m => Some m
                             | FloatActions _ => None
                             end) in
  let obs_in_expert := placeholder 1 (fun f => Some (feed_obs_in_expert f)) in
  InputAttrs
    (placeholder 1 (fun f => Some (feed_done_expert f)))
    (placeholder 1 (fun f => Some (feed_done_policy f)))
    (inr action_in_expert)
    (concat_output [one_hot (Tf.column action_in_expert 0) 3;
                    one_hot (Tf.column action_in_expert 1) 2])
    (Some obs_in_expert)
    []
    (concat_output [obs_in_expert])
    (concat_output [vector_in demo_policy]).

Definition beta_demo_run : run :=
  Run {["gail_beta" := Scalar 1]}
      (Feed 1 [] [] (FloatActions []) [] [0] ∅ ∅) no_draws no_draws.

(** A run in which no variable has a value. *)
Definition uninitialised_run : run :=
  Run ∅ (demo_feed 0) no_draws no_draws.

(** A policy without camera, with the given action space and sizes, whose
    vector input has [width] features for [observations] declared ones. *)
Definition vector_policy (space : string) (sizes : list nat)
    (observations width : nat) : LearningModel := {|
  vector_action_space_type := space;
  camera_resolutions := [];
  act_size := sizes;
  vec_obs_size := observations;
  vis_obs_size := 0;
  normalize := false;
  vector_in :=
    Tensor width (fun r => feed_policy (r_feed r) !! "vector_observation");
  visual_in := [];
  selected_actions :=
    Tensor (foldr Nat.add 0%nat sizes)
           (fun r => feed_policy (r_feed r) !! "action");
  normalize_vector_obs := fun t => t;
  create_visual_input := fun _ _ => raise;
  create_visual_observation_encoder := fun _ _ _ _ _ _ => raise;
  swish := fun x => x * sigmoid x;
  scaled_init := variance_scaling_initializer;
|}.

(** One declared observation, a vector input of two features. *)
Definition stacked_policy : LearningModel :=
  vector_policy "discrete" [3; 2]%nat 1 2.

(** Hidden size 1, no actions, no bottleneck and no gradient penalty, for
    a given policy. *)
Definition plain_hp (pm : LearningModel) : hyperparameters :=
  Hyper pm 1 3e-4 64 false false 0.

(** A policy with neither vector nor visual observations, and a policy
    with no action size. *)
Definition blind_policy : LearningModel :=
  vector_policy "discrete" [3; 2]%nat 0 0.

Definition actionless_policy (space : string) : LearningModel :=
  vector_policy space [] 1 1.

(** A policy with [cameras] visual observations and as many camera
    resolutions and visual inputs as [known]: a visual input is a
    placeholder fed by name, and a visual encoder has one bias variable in
    its scope and gives every image the vector of that bias. *)
Definition camera_policy (cameras known : nat) : LearningModel := {|
  vector_action_space_type := "discrete";
  camera_resolutions := repeat (Resolution 84 84 false) known;
  act_size := [3; 2]%nat;
  vec_obs_size := 0;
  vis_obs_size := cameras;
  normalize := false;
  vector_in := Tensor 0 (fun r => feed_policy (r_feed r) !! "vector_observation");
  visual_in :=
    map (fun k r => feed_visual (r_feed r) !! ("visual_observation_" +:+ pretty k))
        (seq 0 known);
  selected_actions := Tensor 5 (fun r => feed_policy (r_feed r) !! "action");
  normalize_vector_obs := fun t => t;
  create_visual_input := fun _ name => ret (fun r => feed_visual (r_feed r) !! name);
  create_visual_observation_encoder := fun input size _ _ scope reuse =>
    bind (get_variable (scope +:+ "/bias") [size] true zeros_initializer reuse)
         (fun bias =>
            ret (Tensor size
                   (fun r => images ← input r;
                             b ← read_vector bias r;
                             Some (map (fun _ => b) images))));
  swish := fun x => x * sigmoid x;
  scaled_init := variance_scaling_initializer;
|}.

(** A run whose expert action has the second branch index out of range. *)
Definition out_of_range_run : run :=
  Run demo_vars (Feed 1 [[0]] [[0]] (IntActions [[2; 5]%Z]) [[0]] [0] ∅ ∅)
      no_draws no_draws.

(** A graph that holds a variable of the policy. *)
Definition policy_graph : graph :=
  Graph {["policy/value" := MkVariable [1%nat] true zeros_initializer]} 0.

(** A run that differs from [plain_run] in the actions and the done flags
    only. *)
Definition other_actions_run : run :=
  Run plain_vars
      (Feed 1 [[1]] [[1]] (IntActions [[0; 1]%Z]) [[0]] [0]
            (<["vector_observation" := [[0]]]>
               (<["action" := [[0; 1; 0; 1; 0]]]> ∅))
            ∅)
      no_draws no_draws.

(** The demonstration hyperparameters with [use_actions] set. *)
Definition action_hp : hyperparameters :=
  Hyper demo_policy 1 3e-4 64 true false 0.

(** A run on an empty batch, and a run that feeds no noise level. *)
Definition empty_batch_run : run :=
  Run plain_vars
      (Feed 1 [] [] (IntActions []) [] [0]
            (<["vector_observation" := []]> (<["action" := []]> ∅)) ∅)
      no_draws no_draws.

Definition ungated_run : run :=
  Run demo_vars
      (Feed 1 [[0]] [[0]] (IntActions [[1; 0]%Z]) [[0]] []
            (<["vector_observation" := [[0]]]>
               (<["action" := [[1; 0; 0; 0; 1]]]> ∅))
            ∅)
      no_draws no_draws.

End Examples.

(** ** Properties *)

Module Facts.
Import Tf Policy GAILModel Spec Examples.

Local Open Scope R_scope.

(** *** The construction monad *)

Lemma bind_Some {A B} (m : build A) (f : A -> build B) g b g' :
  bind m f g = Some (b, g') ->
  exists a g1, m g = Some (a, g1) /\ f a g1 = Some (b, g').
Proof.
  unfold bind. destruct (m g) as [[a g1]|]; [|discriminate].
  intros H. exists a, g1. split; [reflexivity|exact H].
Qed.

Lemma ret_Some {A} (a b : A) g g' : ret a g = Some (b, g') -> a = b /\ g = g'.
Proof. unfold ret. intros H. injection H as -> ->. split; reflexivity. Qed.

Tactic Notation "bind_inv" hyp(H) "as" ident(a) ident(g) ident(H1) ident(H2) :=
  apply bind_Some in H; destruct H as (a & g & H1 & H2); cbv beta in H2.

Ltac ret_inv H :=
  apply ret_Some in H;
  let E1 := fresh "E" in
  let E2 := fresh "E" in
  destruct H as [E1 E2]; simplify_eq.

Lemma get_variable_Some name shape trainable init reuse g x g' :
  get_variable name shape trainable init reuse g = Some (x, g') ->
  x = name /\ g_random_ops g' = g_random_ops g /\
  if reuse
  then g' = g /\ exists v, g_variables g !! name = Some v /\ v_shape v = shape
  else g_variables g !! name = None /\
       g_variables g' = <[name := MkVariable shape trainable init]> (g_variables g).
Proof.
  unfold get_variable.
  destruct (g_variables g !! name) as [v|] eqn:E.
  - destruct reuse; simpl; [|discriminate].
    unfold shape_eqb. case_bool_decide as Hs; [|discriminate].
    intros Hr. injection Hr as <- <-. eauto 10.
  - destruct reuse; [discriminate|].
    intros Hr. injection Hr as <- <-. simpl. auto.
Qed.

(** *** The beta controller *)

Lemma make_beta_Some g b g' :
  make_beta g = Some (b, g') ->
  b = beta_nodes
  /\ g_variables g' !! "gail_beta" = Some (MkVariable [] false ones_initializer).
Proof.
  unfold make_beta. intros H. bind_inv H as name g1 Hv Hk.
  apply get_variable_Some in Hv as (-> & _ & _ & Hg).
  ret_inv Hk. simpl. rewrite Hg, lookup_insert_eq. auto.
Qed.

Lemma make_beta_run g :
  g_variables g !! "gail_beta" = None ->
  make_beta g
  = Some (beta_nodes,
          Graph (<["gail_beta" := MkVariable [] false ones_initializer]>
                   (g_variables g))
                (g_random_ops g)).
Proof.
  intros H. unfold make_beta, bind, get_variable. rewrite H. reflexivity.
Qed.

(** C1. Running [update_beta] with the fed KL value [kl] stores
    [max (beta + 0.0005 * (kl - 0.5)) 1e-7] in the coefficient; the stored
    value is at least [1e-7] whatever the previous value and [kl] are, and it
    is [1.00025] from [beta = 1] and [kl = 1]. *)
Theorem update_beta_spec (g g' : graph) (b : beta_attrs) (r : run) (x : R) :
  make_beta g = Some (b, g') ->
  r_vars r !! "gail_beta" = Some (Scalar x) ->
  let kl := feed_kl_div_input (r_feed r) in
  let new_beta := Rmax (x + 0.0005 * (kl - 0.5)) 1e-7 in
  update_beta b r = Some (<["gail_beta" := Scalar new_beta]> (r_vars r))
  /\ 1e-7 <= new_beta
  /\ (x = 1 -> kl = 1 -> new_beta = 1.00025).
Proof.
  intros Hb Hx kl new_beta.
  apply make_beta_Some in Hb as (-> & _).
  split; [|split].
  - unfold beta_nodes, update_beta, assign, s_lift2, s_const, read_scalar,
      maximum. rewrite Hx. simpl. reflexivity.
  - apply Rmax_r.
  - intros -> Hkl. subst new_beta. rewrite Hkl.
    rewrite Rmax_left; lra.
Qed.

Lemma update_beta_spec_witness :
  make_beta empty_graph
  = Some (beta_nodes,
          Graph {["gail_beta" := MkVariable [] false ones_initializer]} 0)
  /\ r_vars beta_demo_run !! "gail_beta" = Some (Scalar 1)
  /\ update_beta beta_nodes beta_demo_run
     = Some (<["gail_beta" := Scalar (Rmax (1 + 0.0005 * (1 - 0.5)) 1e-7)]>
               (r_vars beta_demo_run))
  /\ Rmax (1 + 0.0005 * (1 - 0.5)) 1e-7 = 1.00025.
Proof.
  assert (Hb : make_beta empty_graph
               = Some (beta_nodes,
                       Graph {["gail_beta" := MkVariable [] false ones_initializer]}
                             0))
    by (apply make_beta_run; reflexivity).
  assert (Hx : r_vars beta_demo_run !! "gail_beta" = Some (Scalar 1))
    by reflexivity.
  destruct (update_beta_spec _ _ _ _ _ Hb Hx) as (H1 & _ & H3).
  split; [exact Hb|]. split; [exact Hx|]. split; [exact H1|].
  apply H3; reflexivity.
Defined.

(** *** Logarithm bounds *)

Lemma EPSILON_pos : 0 < EPSILON.
Proof. unfold EPSILON. lra. Qed.




Lemma log_pos x : 0 < x -> log x = Some (ln x).
Proof. intros Hx. unfold log. destruct (Rlt_dec 0 x); [reflexivity|contradiction]. Qed.



(** *** The network and the intrinsic reward *)

Lemma create_network_Some hp i g n g' :
  create_network hp i g = Some (n, g') ->
  exists g0 g1,
    (if use_vail hp
     then z_sigma n = Some (vector_variable "gail_sigma_vail" z_size)
          /\ use_noise n = Some (placeholder_1 feed_use_noise)
          /\ z_log_sigma_sq n =
               Some (tlog (add (mul (vector_variable "gail_sigma_vail" z_size)
                                    (vector_variable "gail_sigma_vail" z_size))
                               (constant EPSILON)))
          /\ g_variables g !! "gail_sigma_vail" = None
          /\ g_variables g0 =
               <["gail_sigma_vail" := MkVariable [z_size] true ones_initializer]>
                 (g_variables g)
     else z_sigma n = None /\ use_noise n = None /\ z_log_sigma_sq n = None
          /\ g0 = g)
    /\ g_random_ops g0 = g_random_ops g
    /\ create_encoder hp (z_sigma n) (use_noise n)
         (encoded_expert i) (expert_action i) (done_expert i) false g0
       = Some (expert n, g1)
    /\ create_encoder hp (z_sigma n) (use_noise n)
         (encoded_policy i) (selected_actions (policy_model hp)) (done_policy i)
         true g1
       = Some (policy n, g')
    /\ discriminator_score n = reshape_flat (policy_estimate n)
    /\ intrinsic_reward n =
         map1 Ropp (log1 (map1 (fun s => 1 - s + EPSILON) (discriminator_score n))).
Proof.
  unfold create_network. intros H.
  bind_inv H as vail g0 Hvail H.
  bind_inv H as e g1 He H.
  bind_inv H as p g2 Hp H.
  ret_inv H. simpl.
  exists g0, g1.
  destruct (use_vail hp).
  - bind_inv Hvail as sigma g3 Hv Hk.
    apply get_variable_Some in Hv as (-> & Hr & Hn & Hg).
    ret_inv Hk. simpl in *.
    repeat split; try assumption; reflexivity.
  - ret_inv Hvail. simpl in *.
    repeat split; try assumption; reflexivity.
Qed.

Lemma mapM_reward (scores : vec) :
  (x ← mapM log (map (fun s => 1 - s + EPSILON) scores); Some (map Ropp x))
  = mapM reward_of_score scores.
Proof.
  induction scores as [|s scores IH]; [reflexivity|].
  cbn [map mapM]. rewrite <- IH. unfold reward_of_score.
  destruct (log (1 - s + EPSILON)) as [x|]; [|reflexivity].
  destruct (mapM log (map (fun s0 => 1 - s0 + EPSILON) scores)); reflexivity.
Qed.

Lemma intrinsic_reward_run hp i g n g' r :
  create_network hp i g = Some (n, g') ->
  intrinsic_reward n r = discriminator_score n r ≫= mapM reward_of_score.
Proof.
  intros H. apply create_network_Some in H as (g0 & g1 & _ & _ & _ & _ & _ & ->).
  unfold map1, log1.
  destruct (discriminator_score n r) as [scores|]; [|reflexivity].
  cbn. apply mapM_reward.
Qed.






(** *** Expert actions *)

Lemma mapM_imap_Some {A B C} (f : B -> option C) (F : nat -> A -> B)
    (G : nat -> A -> C) (l : list A) :
  (forall k a, l !! k = Some a -> f (F k a) = Some (G k a)) ->
  mapM f (imap F l) = Some (imap G l).
Proof.
  revert F G. induction l as [|a l IH]; intros F G H; [reflexivity|].
  cbn [imap mapM]. rewrite (H 0%nat a eq_refl). cbn.
  rewrite (IH (F ∘ S) (G ∘ S)); [reflexivity|].
  intros k b Hk. apply (H (S k)). exact Hk.
Qed.

Lemma mapM_total {A B} (f : A -> B) (l : list A) :
  mapM (fun x => Some (f x)) l = Some (map f l).
Proof.
  induction l as [|a l IH]; [reflexivity|].
  cbn [mapM map]. rewrite IH. reflexivity.
Qed.

Lemma mapM_ext_Forall {A B} (f g : A -> option B) (l : list A) :
  Forall (fun x => f x = g x) l -> mapM f l = mapM g l.
Proof.
  induction 1 as [|a l Ha _ IH]; [reflexivity|].
  cbn [mapM]. rewrite Ha, IH. reflexivity.
Qed.

Lemma column_rows (rows : list (list Z)) (n k : nat) :
  Forall (fun row => length row = n) rows -> (k < n)%nat ->
  mapM (fun row : list Z => row !! k) rows
  = Some (map (fun row => nth k row 0%Z) rows).
Proof.
  intros Hrows Hk. rewrite <- mapM_total. apply mapM_ext_Forall.
  eapply Forall_impl; [exact Hrows|].
  intros row Hrow. simpl in *.
  destruct (lookup_lt_is_Some_2 row k) as [z Hz]; [lia|].
  rewrite Hz. f_equal. symmetry. apply nth_lookup_Some. exact Hz.
Qed.

Lemma zip_with_map_same {A B C D} (h : B -> C -> D) (f : A -> B) (g : A -> C)
    (l : list A) :
  zip_with h (map f l) (map g l) = map (fun x => h (f x) (g x)) l.
Proof. induction l as [|a l IH]; [reflexivity|]. cbn. rewrite IH. reflexivity. Qed.

(** Concatenating per-branch blocks along the feature axis concatenates
    them row by row. *)
Lemma concat_rows_blocks {A} (fs : list (A -> vec)) (rows : list A) :
  fs <> [] ->
  concat_rows (map (fun f => map f rows) fs)
  = Some (map (fun row => List.concat (map (fun f => f row) fs)) rows).
Proof.
  induction fs as [|f fs IH]; [congruence|]. intros _.
  destruct fs as [|f' fs].
  - cbn. f_equal. apply map_ext. intros row. rewrite app_nil_r. reflexivity.
  - change (concat_rows (map (fun f0 => map f0 rows) (f :: f' :: fs)))
      with (tl ← concat_rows (map (fun f0 => map f0 rows) (f' :: fs));
            hcat (map f rows) tl).
    rewrite IH by congruence. cbn [mbind option_bind].
    unfold hcat. rewrite !length_map, Nat.eqb_refl.
    rewrite zip_with_map_same. reflexivity.
Qed.

Lemma imap_zip_with {A} (h : Z -> nat -> A) (row : list Z) (sizes : list nat) :
  length row = length sizes ->
  imap (fun k d => h (nth k row 0%Z) d) sizes = zip_with h row sizes.
Proof.
  revert row. induction sizes as [|d sizes IH]; intros [|a row] Hlen;
    try discriminate; [reflexivity|].
  cbn [imap zip_with nth]. f_equal.
  rewrite <- IH by (simpl in Hlen; lia).
  apply imap_ext. intros k x _. reflexivity.
Qed.

Lemma concat_Some ts g t g' :
  concat ts g = Some (t, g') ->
  ts <> [] /\ g' = g /\ t = concat_output ts.
Proof.
  destruct ts as [|t0 ts]; [discriminate|].
  cbn. intros H. injection H as <- <-. repeat split. congruence.
Qed.

Lemma make_inputs_Some hp g i g' :
  make_inputs hp g = Some (i, g') ->
  exists g1,
    make_action_inputs (policy_model hp) g
      = Some ((action_in_expert i, expert_action i), g1)
    /\ make_observation_inputs (policy_model hp) (encoding_size hp) g1
       = Some ((obs_in_expert i, expert_visual_in i, encoded_expert i,
                encoded_policy i), g')
    /\ done_expert i = placeholder 1 (fun f => Some (feed_done_expert f))
    /\ done_policy i = placeholder 1 (fun f => Some (feed_done_policy f)).
Proof.
  unfold make_inputs. intros H.
  bind_inv H as actions g1 Ha H.
  bind_inv H as obs g2 Ho H.
  ret_inv H. simpl. exists g1.
  destruct actions as [a e], obs as [[[o v] ee] ep]. auto.
Qed.

Lemma discrete_action_inputs pm g a e g' :
  make_action_inputs pm g = Some ((a, e), g') ->
  vector_action_space_type pm <> "continuous" ->
  forall r rows,
    feed_action_in_expert (r_feed r) = IntActions rows ->
    Forall (fun row => length row = length (act_size pm)) rows ->
    t_run e r
    = Some (map (fun row =>
                   List.concat (zip_with (fun index depth => one_hot_row depth index)
                                         row (act_size pm)))
                rows).
Proof.
  unfold make_action_inputs. intros H Hd r rows Hfeed Hrows.
  apply String.eqb_neq in Hd. rewrite Hd in H.
  bind_inv H as t g1 Hc H. ret_inv H.
  apply concat_Some in Hc as (Hne & _ & ->).
  assert (Hsizes : act_size pm <> []).
  { intros E0. rewrite E0 in Hne. apply Hne. reflexivity. }
  unfold concat_output. cbn [t_run].
  rewrite (mapM_imap_Some _ _
             (fun k d => map (fun row => one_hot_row d (nth k row 0%Z)) rows)).
  - cbn [mbind option_bind].
    rewrite <- (fmap_imap (fun k d row => one_hot_row d (nth k row 0%Z))
                          (fun f => map f rows)).
    rewrite concat_rows_blocks.
    + f_equal. apply map_ext_Forall.
      eapply Forall_impl; [exact Hrows|]. intros row Hrow. cbn beta in *.
      f_equal. change map with (@fmap list _) at 1. rewrite fmap_imap.
      rewrite <- imap_zip_with by exact Hrow.
      apply imap_ext. reflexivity.
    + intros E0. apply (f_equal length) in E0.
      rewrite length_imap in E0. destruct (act_size pm); [congruence|discriminate].
  - intros k d Hk. unfold one_hot, column, iplaceholder. cbn [t_run it_run].
    rewrite Hfeed. cbn [mbind option_bind].
    replace (forallb _ rows) with true.
    2:{ symmetry. apply forallb_forall. intros row Hin.
        rewrite Forall_forall in Hrows. apply Nat.eqb_eq, Hrows.
        apply list_elem_of_In. exact Hin. }
    cbn [mbind option_bind].
    rewrite (column_rows rows (length (act_size pm))); [|exact Hrows|].
    + cbn. rewrite map_map. reflexivity.
    + eapply lookup_lt_Some. exact Hk.
Qed.

Lemma continuous_action_inputs pm g a e g' :
  make_action_inputs pm g = Some ((a, e), g') ->
  vector_action_space_type pm = "continuous" ->
  a = inl e /\
  forall r m d,
    act_size pm !! 0%nat = Some d ->
    feed_action_in_expert (r_feed r) = FloatActions m ->
    has_dim d m = true ->
    t_run e r = Some m.
Proof.
  unfold make_action_inputs. intros H Hc.
  apply String.eqb_eq in Hc. rewrite Hc in H.
  destruct (act_size pm !! 0%nat) as [d0|]; [|discriminate].
  ret_inv H. split; [reflexivity|].
  intros r m d Hd Hfeed Hdim. injection Hd as ->.
  unfold identity, placeholder. cbn [t_run]. rewrite Hfeed.
  cbn [mbind option_bind]. rewrite Hdim. reflexivity.
Qed.

(** C8. For a discrete action space the expert action is, row by row, the
    concatenation in branch order of the one-hot encodings of the fed branch
    indices, each of the depth of its branch: sizes [[3, 2]] and indices
    [[1, 0]] give [[0,1,0, 1,0]].  For a continuous action space the expert
    action is the fed matrix itself. *)
Theorem expert_action_encoding hp g i g' :
  make_inputs hp g = Some (i, g') ->
  let pm := policy_model hp in
  (vector_action_space_type pm <> "continuous" ->
   forall r rows,
     feed_action_in_expert (r_feed r) = IntActions rows ->
     Forall (fun row => length row = length (act_size pm)) rows ->
     t_run (expert_action i) r
     = Some (map (fun row =>
                    List.concat (zip_with (fun index depth => one_hot_row depth index)
                                          row (act_size pm)))
                 rows))
  /\ (vector_action_space_type pm <> "continuous" ->
      act_size pm = [3; 2]%nat ->
      forall r,
        feed_action_in_expert (r_feed r) = IntActions [[1; 0]%Z] ->
        t_run (expert_action i) r = Some [[0; 1; 0; 1; 0]])
  /\ (vector_action_space_type pm = "continuous" ->
      action_in_expert i = inl (expert_action i)
      /\ forall r m d,
           act_size pm !! 0%nat = Some d ->
           feed_action_in_expert (r_feed r) = FloatActions m ->
           has_dim d m = true ->
           t_run (expert_action i) r = Some m).
Proof.
  intros H pm. apply make_inputs_Some in H as (g1 & Ha & _).
  fold pm in Ha. split; [|split].
  - intros Hd. eapply discrete_action_inputs; eassumption.
  - intros Hd Hsizes r Hfeed.
    rewrite (discrete_action_inputs _ _ _ _ _ Ha Hd r [[1; 0]%Z] Hfeed).
    + rewrite Hsizes. reflexivity.
    + rewrite Hsizes. repeat constructor.
  - intros Hc. eapply continuous_action_inputs; eassumption.
Qed.

(** *** Broadcasting *)

Lemma map_zip_with {A B C} (f : A -> B -> C) (a : list A) (b : list B) :
  map (fun ab => f ab.1 ab.2) (zip a b) = zip_with f a b.
Proof.
  revert b. induction a as [|x a IH]; intros [|y b]; try reflexivity.
  cbn. rewrite IH. reflexivity.
Qed.

Lemma bcast_row_same f (a b : vec) :
  length a = length b -> bcast_row f a b = Some (zip_with f a b).
Proof.
  intros Hlen. unfold bcast_row, bcast.
  rewrite Hlen, Nat.eqb_refl, mapM_total, map_zip_with. reflexivity.
Qed.

Lemma bcast_row_const_l f c (b : vec) :
  bcast_row f [c] b = Some (map (f c) b).
Proof.
  unfold bcast_row, bcast.
  destruct (Nat.eqb_spec (length [c]) (length b)) as [Hlen|Hlen].
  - destruct b as [|y [|? ?]]; try discriminate. reflexivity.
  - apply mapM_total.
Qed.

Lemma bcast_row_const_r f c (a : vec) :
  bcast_row f a [c] = Some (map (fun x => f x c) a).
Proof.
  unfold bcast_row, bcast.
  destruct (Nat.eqb_spec (length a) (length [c])) as [Hlen|Hlen].
  - destruct a as [|x [|? ?]]; try discriminate. reflexivity.
  - destruct a as [|x [|x' a]]; [reflexivity|simpl in Hlen; congruence|].
    apply mapM_total.
Qed.

Lemma bcast_mat_same f (A B : mat) :
  Forall2 (fun a b => length a = length b) A B ->
  bcast_mat f A B = Some (zip_with (zip_with f) A B).
Proof.
  intros H. unfold bcast_mat, bcast.
  assert (Hlen : length A = length B) by (eapply Forall2_length; exact H).
  rewrite Hlen, Nat.eqb_refl. clear Hlen.
  induction H as [|a b A B Hab _ IH]; [reflexivity|].
  cbn [zip zip_with mapM]. cbn [fst snd].
  rewrite bcast_row_same by exact Hab. cbn. rewrite IH. reflexivity.
Qed.

Lemma bcast_mat_row_l f (v : vec) (B : mat) :
  Forall (fun b => length b = length v) B ->
  bcast_mat f [v] B = Some (map (zip_with f v) B).
Proof.
  intros H. unfold bcast_mat, bcast.
  assert (Hall : mapM (bcast_row f v) B = Some (map (zip_with f v) B)).
  { rewrite <- mapM_total. apply mapM_ext_Forall.
    eapply Forall_impl; [exact H|]. intros b Hb. simpl in Hb.
    apply bcast_row_same. congruence. }
  destruct (Nat.eqb_spec (length [v]) (length B)) as [Hlen|Hlen].
  - destruct B as [|b [|? ?]]; try discriminate. exact Hall.
  - exact Hall.
Qed.

Lemma bcast_mat_row_r f (v : vec) (A : mat) :
  Forall (fun a => length a = length v) A ->
  bcast_mat f A [v] = Some (map (fun a => zip_with f a v) A).
Proof.
  intros H. unfold bcast_mat, bcast.
  assert (Hall : mapM (fun a => bcast_row f a v) A
                 = Some (map (fun a => zip_with f a v) A)).
  { rewrite <- mapM_total. apply mapM_ext_Forall.
    eapply Forall_impl; [exact H|]. intros a Ha. simpl in Ha.
    apply bcast_row_same. exact Ha. }
  destruct (Nat.eqb_spec (length A) (length [v])) as [Hlen|Hlen].
  - destruct A as [|a [|? ?]]; try discriminate. exact Hall.
  - destruct A as [|a [|a' A]]; [reflexivity|simpl in Hlen; congruence|].
    exact Hall.
Qed.

Lemma bcast_mat_const_l f c (B : mat) :
  bcast_mat f [[c]] B = Some (map (map (f c)) B).
Proof.
  unfold bcast_mat, bcast.
  assert (Hall : mapM (bcast_row f [c]) B = Some (map (map (f c)) B)).
  { rewrite <- mapM_total. apply mapM_ext_Forall, Forall_forall.
    intros b _. apply bcast_row_const_l. }
  destruct (Nat.eqb_spec (length [[c]]) (length B)) as [Hlen|Hlen].
  - destruct B as [|b [|? ?]]; try discriminate. exact Hall.
  - exact Hall.
Qed.

Lemma bcast_mat_const_r f c (A : mat) :
  bcast_mat f A [[c]] = Some (map (map (fun x => f x c)) A).
Proof.
  unfold bcast_mat, bcast.
  assert (Hall : mapM (fun a => bcast_row f a [c]) A
                 = Some (map (map (fun x => f x c)) A)).
  { rewrite <- mapM_total. apply mapM_ext_Forall, Forall_forall.
    intros a _. apply bcast_row_const_r. }
  destruct (Nat.eqb_spec (length A) (length [[c]])) as [Hlen|Hlen].
  - destruct A as [|a [|? ?]]; try discriminate. exact Hall.
  - destruct A as [|a [|a' A]]; [reflexivity|simpl in Hlen; congruence|].
    exact Hall.
Qed.

(** *** The KL term *)

Lemma map_zip_with_comp {A B C D} (g : C -> D) (f : A -> B -> C)
    (a : list A) (b : list B) :
  map g (zip_with f a b) = zip_with (fun x y => g (f x y)) a b.
Proof.
  revert b. induction a as [|x a IH]; intros [|y b]; try reflexivity.
  cbn. rewrite IH. reflexivity.
Qed.

Lemma zip_with_map_l {A A' B C} (f : A' -> B -> C) (h : A -> A')
    (a : list A) (b : list B) :
  zip_with f (map h a) b = zip_with (fun x y => f (h x) y) a b.
Proof.
  revert b. induction a as [|x a IH]; intros [|y b]; try reflexivity.
  cbn. rewrite IH. reflexivity.
Qed.

Lemma zip_with_map_r {A B B' C} (f : A -> B' -> C) (h : B -> B')
    (a : list A) (b : list B) :
  zip_with f a (map h b) = zip_with (fun x y => f x (h y)) a b.
Proof.
  revert b. induction a as [|x a IH]; intros [|y b]; try reflexivity.
  cbn. rewrite IH. reflexivity.
Qed.

Lemma zip_with_ext_Forall2 {A B C} (f g : A -> B -> C) (a : list A) (b : list B) :
  Forall2 (fun x y => f x y = g x y) a b -> zip_with f a b = zip_with g a b.
Proof.
  induction 1 as [|x y a b Hxy _ IH]; [reflexivity|].
  cbn. rewrite Hxy, IH. reflexivity.
Qed.

Lemma has_dim_Forall d (m : list (list R)) :
  has_dim d m = true <-> Forall (fun row => length row = d) m.
Proof.
  unfold has_dim. rewrite forallb_forall, Forall_forall.
  split; intros H row Hin.
  - apply Nat.eqb_eq, H, list_elem_of_In, Hin.
  - apply Nat.eqb_eq, H, list_elem_of_In, Hin.
Qed.

Lemma kl_row S e p :
  length e = length S -> length p = length S ->
  zip_with Rminus
    (zip_with Rminus
       (zip_with Rminus (map (Rplus 1) S) (map (Rmult 0.5) (map square e)))
       (map (Rmult 0.5) (map square p)))
    (map exp S)
  = zip_with (fun s ep => 1 + s - 0.5 * ep.1 ^ 2 - 0.5 * ep.2 ^ 2 - exp s)
             S (zip e p).
Proof.
  revert e p. induction S as [|s S IH]; intros [|x e] [|y p] He Hp;
    try discriminate; [reflexivity|].
  cbn. f_equal.
  - unfold square. ring.
  - apply IH; simpl in *; lia.
Qed.

Lemma kl_divergence_run (zls zme zmp : tensor) r S E P :
  t_run zls r = Some [S] ->
  t_run zme r = Some E ->
  t_run zmp r = Some P ->
  has_dim (length S) E = true ->
  has_dim (length S) P = true ->
  length E = length P ->
  kl_divergence zls zme zmp r = kl_batch S E P.
Proof.
  intros Hs He Hp HE HP Hlen.
  apply has_dim_Forall in HE, HP.
  unfold kl_divergence, reduce_mean_1, map1, reduce_sum_1, sub, add, mul,
    binop, unop, constant. cbn [t_run].
  rewrite Hs, He, Hp. cbn [mbind option_bind].
  rewrite !bcast_mat_const_l. cbn [mbind option_bind].
  change (map (map (Rplus 1)) [S]) with [map (Rplus 1) S].
  rewrite bcast_mat_row_l.
  2:{ rewrite !Forall_map. eapply Forall_impl; [exact HE|].
      intros e Hlen_e. simpl in *. rewrite !length_map. exact Hlen_e. }
  cbn [mbind option_bind].
  rewrite bcast_mat_same.
  2:{ rewrite !map_map. apply Forall2_fmap, Forall2_same_length_lookup_2.
      { exact Hlen. }
      intros k e p Hke Hkp. simpl.
      rewrite Forall_forall in HE, HP.
      rewrite length_zip_with, !length_map.
      rewrite (HE e), (HP p); [lia|..];
        eapply list_elem_of_lookup_2; eassumption. }
  cbn [mbind option_bind].
  change (map (map exp) [S]) with [map exp S].
  rewrite bcast_mat_row_r.
  2:{ rewrite !map_map. apply Forall_forall. intros row Hin.
      apply elem_of_zip_with in Hin as (e & q & -> & Hine & Hinq).
      apply list_elem_of_fmap in Hine as (e0 & -> & Hine).
      apply list_elem_of_fmap in Hinq as (q0 & -> & Hinq).
      rewrite Forall_forall in HE, HP.
      rewrite !length_zip_with, !length_map.
      rewrite (HE e0), (HP q0); [lia|assumption..]. }
  cbn [mbind option_bind]. unfold kl_batch. f_equal.
  rewrite !map_map, zip_with_map_l, zip_with_map_r, map_zip_with_comp.
  apply zip_with_ext_Forall2, Forall2_same_length_lookup_2; [exact Hlen|].
  intros k e q Hke Hkq. unfold kl_sample.
  rewrite Forall_forall in HE, HP.
  rewrite <- kl_row; [reflexivity|..].
  - apply HE. eapply list_elem_of_lookup_2; eassumption.
  - apply HP. eapply list_elem_of_lookup_2; eassumption.
Qed.

(** *** The loss *)

Lemma tlog_column (xs : list R) :
  Forall (fun x => 0 < x) xs ->
  mapM (mapM log) (as_column xs) = Some (as_column (map ln xs)).
Proof.
  induction 1 as [|x xs Hx _ IH]; [reflexivity|].
  unfold as_column in *. cbn [map mapM]. rewrite IH, log_pos by exact Hx.
  reflexivity.
Qed.

Lemma map_column (f : R -> R) (xs : list R) :
  map (map f) (as_column xs) = as_column (map f xs).
Proof. unfold as_column. rewrite !map_map. reflexivity. Qed.

Lemma flatten_add_columns (xs ys : list R) :
  flatten (zip_with (zip_with Rplus) (as_column xs) (as_column ys))
  = zip_with Rplus xs ys.
Proof.
  revert ys. induction xs as [|x xs IH]; intros [|y ys]; try reflexivity.
  unfold flatten, as_column in *. cbn. rewrite IH. reflexivity.
Qed.

Lemma adversarial_loss_run (ee pe : tensor) r es ps :
  t_run ee r = Some (as_column es) ->
  t_run pe r = Some (as_column ps) ->
  length es = length ps ->
  Forall (fun e => 0 < e + EPSILON) es ->
  Forall (fun p => 0 < 1 - p + EPSILON) ps ->
  adversarial_loss ee pe r = base_loss es ps.
Proof.
  intros He Hp Hlen Hes Hps.
  unfold adversarial_loss, s_neg, reduce_mean, add, sub, tlog, binop, constant.
  cbn [t_run]. rewrite He, Hp. cbn [mbind option_bind].
  rewrite bcast_mat_const_l, !bcast_mat_const_r. cbn [mbind option_bind].
  rewrite bcast_mat_const_r. cbn [mbind option_bind].
  rewrite !map_column, !tlog_column.
  2,3: rewrite !Forall_map; first [exact Hes|exact Hps].
  cbn [mbind option_bind].
  rewrite bcast_mat_same.
  2:{ unfold as_column. apply Forall2_fmap, Forall2_same_length_lookup_2.
      { rewrite !length_map. exact Hlen. }
      reflexivity. }
  cbn [mbind option_bind]. rewrite flatten_add_columns.
  unfold base_loss. fold EPSILON.
  rewrite !zip_with_map_l, !zip_with_map_r. reflexivity.
Qed.

Lemma minimize_Some fw lr loss0 g u g' :
  minimize fw lr loss0 g = Some (u, g') ->
  g' = g /\
  u = fun r =>
        _ ← loss0 r;
        Some (map_imap (fun name v =>
                          Some (match trainable_variables g !! name with
                                | Some _ => adam_apply fw lr loss0 r name v
                                | None => v
                                end)) (r_vars r)).
Proof. unfold minimize. intros H. injection H as <- <-. auto. Qed.

Lemma create_loss_Some fw hp b i n g l g' :
  create_loss fw hp b i n g = Some (l, g') ->
  mean_expert_estimate l = reduce_mean (expert_estimate n)
  /\ mean_policy_estimate l = reduce_mean (policy_estimate n)
  /\ discriminator_loss l
     = adversarial_loss (expert_estimate n) (policy_estimate n)
  /\ exists with_kl : scalar,
      (if use_vail hp
       then exists zls zme zmp,
              z_log_sigma_sq n = Some zls /\ z_mean_expert n = Some zme
              /\ z_mean_policy n = Some zmp
              /\ kl_loss l = Some (kl_divergence zls zme zmp)
              /\ with_kl =
                   s_lift2 Rplus
                     (s_lift2 Rmult (read_scalar (beta b))
                        (s_lift2 Rminus (kl_divergence zls zme zmp)
                                 (s_const mutual_information)))
                     (discriminator_loss l)
       else kl_loss l = None /\ with_kl = discriminator_loss l)
      /\ (if Rlt_dec 0 (gradient_penalty_weight hp)
          then exists gradient_mag,
                 create_gradient_magnitude fw hp i n g = Some (gradient_mag, g')
                 /\ loss l =
                      s_lift2 Rplus with_kl
                        (s_lift2 Rmult (s_const (gradient_penalty_weight hp))
                                 gradient_mag)
          else g' = g /\ loss l = with_kl)
      /\ minimize fw (learning_rate hp) (loss l) g' = Some (update_batch l, g').
Proof.
  unfold create_loss. intros H.
  bind_inv H as vail g1 Hvail H.
  bind_inv H as loss0 g2 Hloss H.
  bind_inv H as u g3 Hu H.
  ret_inv H. cbn [mean_expert_estimate mean_policy_estimate discriminator_loss
                  kl_loss loss update_batch].
  pose proof (minimize_Some _ _ _ _ _ _ Hu) as [-> _].
  repeat (split; [reflexivity|]).
  exists vail.2. split; [|split; [|exact Hu]].
  - destruct (use_vail hp).
    + destruct (z_log_sigma_sq n) as [zls|]; [|discriminate].
      destruct (z_mean_expert n) as [zme|]; [|discriminate].
      destruct (z_mean_policy n) as [zmp|]; [|discriminate].
      ret_inv Hvail. exists zls, zme, zmp. auto.
    + ret_inv Hvail. auto.
  - assert (g1 = g) as ->.
    { destruct (use_vail hp).
      - destruct (z_log_sigma_sq n), (z_mean_expert n), (z_mean_policy n);
          try discriminate. ret_inv Hvail. reflexivity.
      - ret_inv Hvail. reflexivity. }
    destruct (Rlt_dec 0 (gradient_penalty_weight hp)).
    + bind_inv Hloss as gm g4 Hgm Hk. ret_inv Hk. exists gm. auto.
    + ret_inv Hloss. auto.
Qed.

Lemma sum_zeros (v : list R) : Forall (eq 0) v -> sum v = 0.
Proof.
  induction 1 as [|x v <- _ IH]; [reflexivity|].
  cbn. fold (sum v). rewrite IH. ring.
Qed.

Lemma mean_zeros (v : list R) : v <> [] -> Forall (eq 0) v -> mean v = Some 0.
Proof.
  intros Hne Hz. destruct v as [|x v]; [congruence|].
  unfold mean. rewrite (sum_zeros _ Hz). f_equal. unfold Rdiv. ring.
Qed.

Lemma kl_sample_zero S e p :
  Forall (eq 0) S -> Forall (eq 0) e -> Forall (eq 0) p -> kl_sample S e p = 0.
Proof.
  intros HS He Hp. unfold kl_sample.
  rewrite sum_zeros; [ring|].
  revert e p He Hp. induction HS as [|s S <- _ IH]; intros e p He Hp;
    [constructor|].
  destruct He as [|x e <- He]; [constructor|].
  destruct Hp as [|y p <- Hp]; [constructor|].
  cbn. constructor; [|apply IH; assumption].
  rewrite exp_0. ring.
Qed.

(** C7. The KL term is the batch mean, over the samples, of the negated
    sum over the latent dimensions of
    [1 + z_log_sigma_sq - 0.5 * z_mean_expert^2 - 0.5 * z_mean_policy^2
     - exp(z_log_sigma_sq)], with both latent means in the one expression
    and one [z_log_sigma_sq] row shared by all samples; it is 0 when
    [z_log_sigma_sq] and both means are zero. *)
Theorem kl_loss_spec fw hp b i n g l g' :
  create_loss fw hp b i n g = Some (l, g') ->
  use_vail hp = true ->
  exists zls zme zmp kl,
    z_log_sigma_sq n = Some zls /\ z_mean_expert n = Some zme
    /\ z_mean_policy n = Some zmp /\ kl_loss l = Some kl
    /\ forall r S E P,
         t_run zls r = Some [S] ->
         t_run zme r = Some E ->
         t_run zmp r = Some P ->
         has_dim (length S) E = true ->
         has_dim (length S) P = true ->
         length E = length P ->
         kl r = kl_batch S E P
         /\ (E <> [] -> Forall (eq 0) S -> Forall (Forall (eq 0)) E ->
             Forall (Forall (eq 0)) P ->
             kl r = Some 0).
Proof.
  intros H Hvail.
  apply create_loss_Some in H as (_ & _ & _ & with_kl & Hkl & _).
  rewrite Hvail in Hkl. destruct Hkl as (zls & zme & zmp & H1 & H2 & H3 & H4 & _).
  exists zls, zme, zmp, (kl_divergence zls zme zmp).
  repeat (split; [assumption|]).
  intros r S E P Hs He Hp HE HP Hlen.
  rewrite (kl_divergence_run _ _ _ _ _ _ _ Hs He Hp HE HP Hlen).
  split; [reflexivity|].
  intros Hne HS0 HE0 HP0. unfold kl_batch. apply mean_zeros.
  - destruct E as [|e E]; [congruence|]. destruct P as [|q P]; discriminate.
  - apply Forall_forall. intros x Hx.
    apply elem_of_zip_with in Hx as (e & q & -> & Hine & Hinq).
    rewrite Forall_forall in HE0, HP0.
    symmetry. apply kl_sample_zero; auto.
Qed.

Ltac side := intros; first [assumption|discriminate|contradiction].

Lemma total_loss_run (vail : bool) (w : R) (base beta0 kl gm : scalar) r :
  (let with_kl :=
     if vail
     then s_lift2 Rplus
            (s_lift2 Rmult beta0 (s_lift2 Rminus kl (s_const mutual_information)))
            base
     else base in
   if Rlt_dec 0 w
   then s_lift2 Rplus with_kl (s_lift2 Rmult (s_const w) gm)
   else with_kl) r
  = total_loss vail w (base r) (beta0 r) (kl r) (gm r).
Proof.
  unfold total_loss, s_lift2, s_const, mutual_information. cbv zeta.
  destruct vail, (Rlt_dec 0 w); cbn;
    destruct (base r), (beta0 r), (kl r), (gm r); cbn;
    try reflexivity; f_equal; lra.
Qed.

(** C2. The loss is the base adversarial loss
    [-mean(log(expert_estimate + 1e-7) + log(1 - policy_estimate + 1e-7))],
    plus [beta * (KL - 0.5)] exactly when the bottleneck is on, plus
    [weight * gradient_penalty] exactly when the weight is positive; with
    the bottleneck off and a weight that is not positive it is the base
    loss itself. *)
Theorem loss_composition fw hp b i n g l g' :
  create_loss fw hp b i n g = Some (l, g') ->
  (forall r es ps,
     t_run (expert_estimate n) r = Some (as_column es) ->
     t_run (policy_estimate n) r = Some (as_column ps) ->
     length es = length ps ->
     Forall (fun e => 0 < e + 1e-7) es ->
     Forall (fun p => 0 < 1 - p + 1e-7) ps ->
     discriminator_loss l r = base_loss es ps)
  /\ (exists kl gradient_mag : scalar,
        (use_vail hp = true -> kl_loss l = Some kl)
        /\ (0 < gradient_penalty_weight hp ->
            create_gradient_magnitude fw hp i n g = Some (gradient_mag, g'))
        /\ forall r,
             loss l r
             = total_loss (use_vail hp) (gradient_penalty_weight hp)
                          (discriminator_loss l r) (read_scalar (beta b) r)
                          (kl r) (gradient_mag r))
  /\ (use_vail hp = false -> ~ 0 < gradient_penalty_weight hp ->
      loss l = discriminator_loss l).
Proof.
  intros H.
  apply create_loss_Some in H as (_ & _ & Hd & with_kl & Hkl & Hgp & _).
  split; [|split].
  - intros r es ps He Hp Hlen Hes Hps. rewrite Hd.
    apply adversarial_loss_run; assumption.
  - destruct (use_vail hp) eqn:Hvail.
    + destruct Hkl as (zls & zme & zmp & _ & _ & _ & Hk & ->).
      destruct (Rlt_dec 0 (gradient_penalty_weight hp)) as [Hw|Hw] eqn:Hdec.
      * destruct Hgp as (gm & Hgm & Hl).
        exists (kl_divergence zls zme zmp), gm.
        split; [side|split; [side|]].
        intros r. rewrite Hl.
        rewrite <- (total_loss_run true _ (discriminator_loss l)).
        cbv zeta. rewrite Hdec. reflexivity.
      * destruct Hgp as (_ & Hl).
        exists (kl_divergence zls zme zmp), (s_const 0).
        split; [side|split; [side|]].
        intros r. rewrite Hl.
        rewrite <- (total_loss_run true _ (discriminator_loss l)).
        cbv zeta. rewrite Hdec. reflexivity.
    + destruct Hkl as (_ & ->).
      destruct (Rlt_dec 0 (gradient_penalty_weight hp)) as [Hw|Hw] eqn:Hdec.
      * destruct Hgp as (gm & Hgm & Hl).
        exists (s_const 0), gm.
        split; [side|split; [side|]].
        intros r. rewrite Hl.
        rewrite <- (total_loss_run false _ (discriminator_loss l)
                                   (read_scalar (beta b)) (s_const 0)).
        cbv zeta. rewrite Hdec. reflexivity.
      * destruct Hgp as (_ & Hl).
        exists (s_const 0), (s_const 0).
        split; [side|split; [side|]].
        intros r. rewrite Hl.
        rewrite <- (total_loss_run false _ (discriminator_loss l)
                                   (read_scalar (beta b)) (s_const 0) (s_const 0)).
        cbv zeta. rewrite Hdec. reflexivity.
  - intros Hvail Hw. rewrite Hvail in Hkl. destruct Hkl as (_ & ->).
    destruct (Rlt_dec 0 (gradient_penalty_weight hp)); [contradiction|].
    apply Hgp.
Qed.

(** *** Construction only adds variables *)

Create HintDb build discriminated.

Lemma monotone_ret {A} (a : A) : monotone (ret a).
Proof. intros g b g' H. ret_inv H. reflexivity. Qed.

Lemma monotone_raise {A} : monotone (@raise A).
Proof. intros g b g' H. discriminate. Qed.

Lemma monotone_bind {A B} (m : build A) (f : A -> build B) :
  monotone m -> (forall a, monotone (f a)) -> monotone (bind m f).
Proof.
  intros Hm Hf g b g' H. bind_inv H as a g1 H1 H2.
  etrans; [eapply Hm|eapply Hf]; eassumption.
Qed.

Lemma monotone_get_variable name shape trainable init reuse :
  monotone (get_variable name shape trainable init reuse).
Proof.
  intros g x g' H. apply get_variable_Some in H as (_ & _ & H).
  destruct reuse.
  - destruct H as [-> _]. reflexivity.
  - destruct H as [Hnone ->]. apply insert_subseteq. exact Hnone.
Qed.

Lemma monotone_fresh_random_op : monotone fresh_random_op.
Proof. intros g x g' H. injection H as <- <-. reflexivity. Qed.

Lemma monotone_concat ts : monotone (concat ts).
Proof. intros g x g' H. apply concat_Some in H as (_ & -> & _). reflexivity. Qed.

Lemma monotone_if {A} (c : bool) (m1 m2 : build A) :
  monotone m1 -> monotone m2 -> monotone (if c then m1 else m2).
Proof. destruct c; auto. Qed.

Lemma monotone_sumbool {A} {P Q : Prop} (c : {P} + {Q}) (m1 m2 : build A) :
  monotone m1 -> monotone m2 -> monotone (if c then m1 else m2).
Proof. destruct c; auto. Qed.

#[local] Hint Resolve monotone_ret monotone_raise monotone_bind
  monotone_get_variable monotone_fresh_random_op monotone_concat
  monotone_if monotone_sumbool : build.

Lemma monotone_dense scope x units act name reuse init :
  monotone (dense scope x units act name reuse init).
Proof. unfold dense. auto 10 with build. Qed.

Lemma monotone_random_normal t : monotone (random_normal t).
Proof. unfold random_normal. auto with build. Qed.

Lemma monotone_random_uniform t : monotone (random_uniform t).
Proof. unfold random_uniform. auto with build. Qed.

#[local] Hint Resolve monotone_dense monotone_random_normal
  monotone_random_uniform : build.

Lemma monotone_create_encoder hp zs un s a d reuse :
  monotone (create_encoder hp zs un s a d reuse).
Proof.
  unfold create_encoder.
  repeat (apply monotone_bind; [|intros ?]); auto with build.
  apply monotone_if; [|auto with build].
  repeat (apply monotone_bind; [|intros ?]); auto with build.
  destruct zs, un; auto with build.
Qed.

#[local] Hint Resolve monotone_create_encoder : build.

Ltac monotone_steps :=
  repeat first
    [ assumption
    | solve [auto 2 with build]
    | apply monotone_bind; [|intros ?]
    | apply monotone_if
    | apply monotone_sumbool ].

Lemma monotone_make_beta : monotone make_beta.
Proof. unfold make_beta. monotone_steps. Qed.

Lemma monotone_make_action_inputs pm : monotone (make_action_inputs pm).
Proof.
  unfold make_action_inputs. monotone_steps.
  destruct (act_size pm !! 0%nat); auto with build.
Qed.

Lemma monotone_visual_encoders pm size indices :
  policy_monotone pm -> monotone (visual_encoders pm size indices).
Proof.
  intros [Hin Henc]. induction indices as [|k indices IH]; cbn [visual_encoders].
  - auto with build.
  - destruct (camera_resolutions pm !! k), (visual_in pm !! k);
      auto 10 with build.
Qed.

Lemma monotone_make_observation_inputs pm size :
  policy_monotone pm -> monotone (make_observation_inputs pm size).
Proof.
  intros Hpm. unfold make_observation_inputs. cbv zeta.
  pose proof (monotone_visual_encoders pm size) as Hv.
  monotone_steps; auto.
Qed.

Lemma monotone_make_inputs hp :
  policy_monotone (policy_model hp) -> monotone (make_inputs hp).
Proof.
  intros Hpm. unfold make_inputs. cbv zeta.
  pose proof (monotone_make_action_inputs (policy_model hp)).
  pose proof (monotone_make_observation_inputs (policy_model hp)
                (encoding_size hp) Hpm).
  monotone_steps; auto.
Qed.

Lemma monotone_create_network hp i : monotone (create_network hp i).
Proof. unfold create_network. monotone_steps. Qed.

Lemma monotone_interpolate pairs : monotone (interpolate pairs).
Proof.
  induction pairs as [|[e p] pairs IH]; cbn [interpolate]; monotone_steps; auto.
Qed.

Lemma monotone_create_gradient_magnitude fw hp i n :
  monotone (create_gradient_magnitude fw hp i n).
Proof.
  unfold create_gradient_magnitude. cbv zeta.
  apply monotone_bind; [apply monotone_interpolate|].
  intros [|i0 [|i1 [|i2 [|? ?]]]]; monotone_steps.
Qed.

Lemma monotone_minimize fw lr loss0 : monotone (minimize fw lr loss0).
Proof. intros g u g' H. apply minimize_Some in H as [-> _]. reflexivity. Qed.

Lemma monotone_create_loss fw hp b i n : monotone (create_loss fw hp b i n).
Proof.
  unfold create_loss. cbv zeta.
  pose proof (monotone_create_gradient_magnitude fw hp i n).
  pose proof (monotone_minimize fw (learning_rate hp)).
  monotone_steps; auto.
  destruct (z_log_sigma_sq n), (z_mean_expert n), (z_mean_policy n);
    auto with build.
Qed.

(** *** The optimizer step *)

Lemma init_Some fw hp g m g' :
  init fw hp g = Some (m, g') ->
  exists g1 g2 g3,
    make_beta g = Some (beta_part m, g1)
    /\ make_inputs hp g1 = Some (inputs m, g2)
    /\ create_network hp (inputs m) g2 = Some (network m, g3)
    /\ create_loss fw hp (beta_part m) (inputs m) (network m) g3
       = Some (losses m, g')
    /\ hyper m = hp.
Proof.
  unfold init. intros H.
  bind_inv H as b g1 Hb H.
  bind_inv H as i g2 Hi H.
  bind_inv H as n g3 Hn H.
  bind_inv H as l g4 Hl H.
  ret_inv H. exists g1, g2, g3. auto.
Qed.



(** *** Dense layers and the encoder *)

Lemma bind_run {A B} (m : build A) (f : A -> build B) g a g1 :
  m g = Some (a, g1) -> bind m f g = f a g1.
Proof. unfold bind. intros ->. reflexivity. Qed.

Lemma dense_Some scope x units act name reuse init g y g' :
  dense scope x units act name reuse init g = Some (y, g') ->
  let kernel := scope +:+ "/" +:+ name +:+ "/kernel" in
  let bias := scope +:+ "/" +:+ name +:+ "/bias" in
  y = dense_output kernel bias x units act
  /\ g_random_ops g' = g_random_ops g
  /\ if reuse
     then g' = g
          /\ (exists v, g_variables g !! kernel = Some v
                        /\ v_shape v = [t_dim x; units])
          /\ (exists v, g_variables g !! bias = Some v /\ v_shape v = [units])
     else g_variables g !! kernel = None
          /\ g_variables g !! bias = None
          /\ kernel <> bias
          /\ g_variables g' =
               <[bias := MkVariable [units] true zeros_initializer]>
                 (<[kernel := MkVariable [t_dim x; units] true init]>
                    (g_variables g)).
Proof.
  intros H kernel bias. unfold dense in H.
  bind_inv H as k g1 Hk H. bind_inv H as b g2 Hb H. ret_inv H.
  apply get_variable_Some in Hk as (-> & Hr1 & Hk).
  apply get_variable_Some in Hb as (-> & Hr2 & Hb).
  split; [reflexivity|]. split; [congruence|].
  destruct reuse.
  - destruct Hk as [-> Hk], Hb as [-> Hb]. auto.
  - destruct Hk as [Hk Hg1], Hb as [Hb Hg2].
    rewrite Hg1 in Hb, Hg2. fold kernel bias in Hb, Hg2, Hk.
    assert (Hne : kernel <> bias).
    { intros E0. rewrite E0, lookup_insert_eq in Hb. discriminate. }
    rewrite lookup_insert_ne in Hb by exact Hne. auto.
Qed.

Lemma dense_reuse scope x units act name init g :
  (exists v, g_variables g !! (scope +:+ "/" +:+ name +:+ "/kernel") = Some v
             /\ v_shape v = [t_dim x; units]) ->
  (exists v, g_variables g !! (scope +:+ "/" +:+ name +:+ "/bias") = Some v
             /\ v_shape v = [units]) ->
  dense scope x units act name true init g
  = Some (dense_output (scope +:+ "/" +:+ name +:+ "/kernel")
                       (scope +:+ "/" +:+ name +:+ "/bias") x units act, g).
Proof.
  intros (vk & Hk & Hsk) (vb & Hb & Hsb). unfold dense, bind, get_variable.
  rewrite Hk. unfold shape_eqb. rewrite bool_decide_eq_true_2 by exact Hsk.
  cbn. rewrite Hb. rewrite bool_decide_eq_true_2 by exact Hsb. reflexivity.
Qed.

Lemma dense_fresh scope x units act name init g :
  g_variables g !! (scope +:+ "/" +:+ name +:+ "/kernel") = None ->
  g_variables g !! (scope +:+ "/" +:+ name +:+ "/bias") = None ->
  scope +:+ "/" +:+ name +:+ "/kernel" <> scope +:+ "/" +:+ name +:+ "/bias" ->
  dense scope x units act name false init g
  = Some (dense_output (scope +:+ "/" +:+ name +:+ "/kernel")
                       (scope +:+ "/" +:+ name +:+ "/bias") x units act,
          Graph (<[scope +:+ "/" +:+ name +:+ "/bias"
                   := MkVariable [units] true zeros_initializer]>
                   (<[scope +:+ "/" +:+ name +:+ "/kernel"
                      := MkVariable [t_dim x; units] true init]>
                      (g_variables g)))
                (g_random_ops g)).
Proof.
  intros Hk Hb Hne. unfold dense, bind, get_variable.
  rewrite Hk. cbn. rewrite lookup_insert_ne by exact Hne. rewrite Hb.
  reflexivity.
Qed.

Ltac norm_names :=
  repeat match goal with
    | |- context [String.append ?a ?b] =>
        let s := eval vm_compute in (String.append a b) in
        progress change (String.append a b) with s
    | H : context [String.append ?a ?b] |- _ =>
        let s := eval vm_compute in (String.append a b) in
        progress change (String.append a b) with s in H
    end.

Lemma random_normal_Some t g nz g' :
  random_normal t g = Some (nz, g') ->
  nz = random_like r_normal (g_random_ops g) t
  /\ g_variables g' = g_variables g
  /\ g_random_ops g' = S (g_random_ops g).
Proof. unfold random_normal, bind, fresh_random_op, ret. intros H. simplify_eq. auto. Qed.

Lemma random_uniform_Some t g u g' :
  random_uniform t g = Some (u, g') ->
  u = random_like r_uniform (g_random_ops g) t
  /\ g_variables g' = g_variables g
  /\ g_random_ops g' = S (g_random_ops g).
Proof. unfold random_uniform, bind, fresh_random_op, ret. intros H. simplify_eq. auto. Qed.

Lemma encoder_input_Some hp s a d g ci g' :
  (if use_actions hp then concat [s; a; d] else ret s) g = Some (ci, g') ->
  ci = encoder_input hp s a d /\ g' = g.
Proof.
  unfold encoder_input. destruct (use_actions hp); intros H.
  - apply concat_Some in H as (_ & -> & ->). auto.
  - ret_inv H. auto.
Qed.

Lemma create_encoder_Some hp ozs oun s a d reuse g e g' :
  create_encoder hp ozs oun s a d reuse g = Some (e, g') ->
  exists zs un,
    (use_vail hp = true -> ozs = Some zs /\ oun = Some un)
    /\ e = encoder_nodes hp zs un s a d (g_random_ops g)
    /\ g_random_ops g'
       = (g_random_ops g + if use_vail hp then 1 else 0)%nat
    /\ let vars := encoder_variables hp (t_dim (encoder_input hp s a d))
                                     (estimate_input_dim hp zs un) in
       if reuse
       then g_variables g' = g_variables g /\ declared g vars
       else undeclared g vars /\ g_variables g' = declare vars (g_variables g).
Proof.
  unfold create_encoder. intros H.
  bind_inv H as ci g0 Hci H.
  bind_inv H as h1 g1 Hh1 H.
  bind_inv H as h2 g2 Hh2 H.
  bind_inv H as lat g3 Hlat H.
  bind_inv H as est g4 Hest H.
  ret_inv H.
  apply encoder_input_Some in Hci as [-> ->].
  apply dense_Some in Hh1 as (-> & Hr1 & Hv1).
  apply dense_Some in Hh2 as (-> & Hr2 & Hv2).
  apply dense_Some in Hest as (-> & Hr4 & Hv4).
  unfold encoder_nodes, estimate_layer, latent_mean, hidden_layers,
    encoder_variables, estimate_input_dim, layer_variables.
  destruct (use_vail hp) eqn:Hvail.
  - bind_inv Hlat as zm g5 Hzm Hlat. bind_inv Hlat as nz g6 Hnz Hlat.
    destruct ozs as [zs|]; [|discriminate].
    destruct oun as [un|]; [|discriminate]. ret_inv Hlat.
    apply dense_Some in Hzm as (-> & Hr3 & Hv3).
    apply random_normal_Some in Hnz as (-> & Hg6 & Hr6).
    cbn [fst snd t_dim dense_output random_like add mul binop] in *.
    norm_names.
    exists zs, un. split; [auto|]. split.
    { replace (g_random_ops g5) with (g_random_ops g) by congruence.
      reflexivity. }
    split; [lia|]. cbv zeta.
    destruct reuse.
    + destruct Hv1 as (-> & Hk1 & Hb1), Hv2 as (-> & Hk2 & Hb2),
        Hv3 as (-> & Hk3 & Hb3), Hv4 as (-> & Hk4 & Hb4).
      rewrite Hg6 in *. split; [reflexivity|].
      unfold declared. cbn [app]. repeat constructor; assumption.
    + destruct Hv1 as (Hk1 & Hb1 & _ & Hg1), Hv2 as (Hk2 & Hb2 & _ & Hg2),
        Hv3 as (Hk3 & Hb3 & _ & Hg3), Hv4 as (Hk4 & Hb4 & _ & Hg4).
      rewrite Hg6, Hg3, Hg2, Hg1 in *.
      rewrite !lookup_insert_None in *. split.
      * unfold undeclared. cbn [app]. repeat constructor; cbn [fst]; tauto.
      * rewrite Hg4. reflexivity.
  - ret_inv Hlat.
    cbn [fst snd t_dim dense_output] in *.
    norm_names.
    exists (constant 0), (constant 0). split; [discriminate|]. split.
    { reflexivity. }
    split; [lia|]. cbv zeta.
    destruct reuse.
    + destruct Hv1 as (-> & Hk1 & Hb1), Hv2 as (-> & Hk2 & Hb2),
        Hv4 as (-> & Hk4 & Hb4).
      split; [reflexivity|].
      unfold declared. cbn [app]. repeat constructor; assumption.
    + destruct Hv1 as (Hk1 & Hb1 & _ & Hg1), Hv2 as (Hk2 & Hb2 & _ & Hg2),
        Hv4 as (Hk4 & Hb4 & _ & Hg4).
      rewrite Hg2, Hg1 in *.
      rewrite !lookup_insert_None in *. split.
      * unfold undeclared. cbn [app]. repeat constructor; cbn [fst]; tauto.
      * rewrite Hg4. reflexivity.
Qed.

Lemma encoder_input_run hp s a d g :
  (if use_actions hp then concat [s; a; d] else ret s) g
  = Some (encoder_input hp s a d, g).
Proof. unfold encoder_input. destruct (use_actions hp); reflexivity. Qed.

Ltac split_Forall H :=
  repeat match type of H with
    | Forall _ (_ :: _) =>
        let H1 := fresh "Hv" in
        apply Forall_cons in H as [H1 H]; cbn [fst snd v_shape] in H1
    end.

Lemma graph_eta g n :
  n = g_random_ops g -> Graph (g_variables g) n = g.
Proof. intros ->. destruct g. reflexivity. Qed.

(** With [reuse] set, the encoder is built on any graph that declares its
    variables with the shapes its layers need, and leaves the registry
    as it is. *)
Lemma create_encoder_reuse hp ozs oun zs un s a d g :
  (use_vail hp = true -> ozs = Some zs /\ oun = Some un) ->
  declared g (encoder_variables hp (t_dim (encoder_input hp s a d))
                                (estimate_input_dim hp zs un)) ->
  create_encoder hp ozs oun s a d true g
  = Some (encoder_nodes hp zs un s a d (g_random_ops g),
          Graph (g_variables g)
                (g_random_ops g + if use_vail hp then 1 else 0)).
Proof.
  intros Ho H.
  unfold declared, encoder_variables, estimate_input_dim, layer_variables in H.
  unfold create_encoder, encoder_nodes, estimate_layer, latent_mean,
    hidden_layers.
  rewrite (bind_run _ _ _ _ _ (encoder_input_run hp s a d g)).
  destruct (use_vail hp) eqn:Hvail; cbn [app] in H; split_Forall H.
  - destruct (Ho eq_refl) as [-> ->].
    erewrite bind_run; [|apply dense_reuse; [exact Hv|exact Hv0]].
    erewrite bind_run; [|apply dense_reuse; [exact Hv1|exact Hv2]].
    erewrite bind_run.
    2:{ erewrite bind_run; [|apply dense_reuse; [exact Hv3|exact Hv4]].
        unfold random_normal, fresh_random_op. cbn [bind ret]. reflexivity. }
    cbn [fst snd].
    erewrite bind_run; [|apply dense_reuse; [exact Hv5|exact Hv6]].
    unfold ret. norm_names.
    replace (S (g_random_ops g)) with (g_random_ops g + 1)%nat by lia.
    reflexivity.
  - erewrite bind_run; [|apply dense_reuse; [exact Hv|exact Hv0]].
    erewrite bind_run; [|apply dense_reuse; [exact Hv1|exact Hv2]].
    erewrite bind_run; [|reflexivity].
    cbn [fst snd].
    erewrite bind_run; [|apply dense_reuse; [exact Hv3|exact Hv4]].
    unfold ret. norm_names. rewrite graph_eta by lia. reflexivity.
Qed.

Ltac fresh_lookup :=
  cbn [g_variables]; norm_names;
  rewrite ?lookup_insert_ne by discriminate; assumption.

Ltac fresh_layer :=
  erewrite bind_run;
  [|apply dense_fresh; [fresh_lookup|fresh_lookup|norm_names; discriminate]].

(** Without [reuse], the encoder is built on any graph that declares none
    of its variables, and declares them all. *)
Lemma create_encoder_fresh hp ozs oun zs un s a d g :
  (use_vail hp = true -> ozs = Some zs /\ oun = Some un) ->
  undeclared g (encoder_variables hp (t_dim (encoder_input hp s a d))
                                  (estimate_input_dim hp zs un)) ->
  create_encoder hp ozs oun s a d false g
  = Some (encoder_nodes hp zs un s a d (g_random_ops g),
          Graph (declare (encoder_variables hp (t_dim (encoder_input hp s a d))
                                            (estimate_input_dim hp zs un))
                         (g_variables g))
                (g_random_ops g + if use_vail hp then 1 else 0)).
Proof.
  intros Ho H.
  unfold undeclared, encoder_variables, estimate_input_dim, layer_variables in *.
  unfold create_encoder, encoder_nodes, estimate_layer, latent_mean,
    hidden_layers.
  rewrite (bind_run _ _ _ _ _ (encoder_input_run hp s a d g)).
  destruct (use_vail hp) eqn:Hvail; cbn [app] in H; split_Forall H;
    norm_names.
  - destruct (Ho eq_refl) as [-> ->].
    fresh_layer. fresh_layer.
    erewrite bind_run.
    2:{ fresh_layer.
        unfold random_normal, fresh_random_op. cbn [bind ret]. reflexivity. }
    cbn [fst snd g_variables g_random_ops].
    fresh_layer.
    unfold ret, declare. cbn [app foldl fst snd t_dim dense_output add mul binop
                                  random_like g_variables g_random_ops].
    norm_names.
    replace (S (g_random_ops g)) with (g_random_ops g + 1)%nat by lia.
    reflexivity.
  - fresh_layer. fresh_layer.
    erewrite bind_run; [|reflexivity].
    cbn [fst snd].
    fresh_layer.
    unfold ret, declare. cbn [app foldl fst snd t_dim dense_output
                                  g_variables g_random_ops].
    norm_names.
    replace (g_random_ops g + 0)%nat with (g_random_ops g) by lia.
    reflexivity.
Qed.

(** *** Shapes under broadcasting *)

Lemma bcast_row_explicit f (a b : list R) :
  bcast_row f a b
  = if Nat.eqb (length a) (length b) then Some (zip_with f a b)
    else match a, b with
         | [x], _ => Some (map (f x) b)
         | _, [y] => Some (map (fun x => f x y) a)
         | _, _ => None
         end.
Proof.
  unfold bcast_row, bcast.
  destruct (Nat.eqb (length a) (length b)).
  - rewrite mapM_total, map_zip_with. reflexivity.
  - destruct a as [|x [|x' a]], b as [|y [|y' b]];
      try reflexivity; apply mapM_total.
Qed.

Lemma bcast_row_length f g (a a' b b' : list R) :
  length a = length a' -> length b = length b' ->
  option_Forall2 (fun x y => length x = length y)
                 (bcast_row f a b) (bcast_row g a' b').
Proof.
  intros Ha Hb. rewrite !bcast_row_explicit, <- Ha, <- Hb.
  destruct (Nat.eqb (length a) (length b)).
  - constructor. rewrite !length_zip_with. lia.
  - destruct a as [|x [|x2 a]], a' as [|x' [|x2' a']]; try discriminate;
      destruct b as [|y [|y2 b]], b' as [|y' [|y2' b']]; try discriminate;
      constructor; rewrite ?length_map; assumption.
Qed.

Lemma mapM_rel {A A' B B'} (Rb : B -> B' -> Prop)
    (F : A -> option B) (G : A' -> option B') (l : list A) (l' : list A') :
  Forall2 (fun p p' => option_Forall2 Rb (F p) (G p')) l l' ->
  option_Forall2 (Forall2 Rb) (mapM F l) (mapM G l').
Proof.
  induction 1 as [|p p' l l' Hp _ IH]; [repeat constructor|].
  cbn [mapM]. destruct Hp as [y y' Hy|]; [|constructor].
  cbn. destruct IH as [k k' Hk|]; constructor. constructor; assumption.
Qed.

Lemma Forall2_zip_pairs {A} (P : A -> A -> Prop) (a a' b b' : list A) :
  Forall2 P a a' -> Forall2 P b b' ->
  Forall2 (fun p p' => P p.1 p'.1 /\ P p.2 p'.2) (zip a b) (zip a' b').
Proof.
  intros Ha. revert b b'. induction Ha as [|x x' a a' Hx _ IH];
    intros b b' Hb; [constructor|].
  destruct Hb as [|y y' b b' Hy Hb]; [constructor|].
  cbn. constructor; [split; assumption|]. apply IH. exact Hb.
Qed.

Lemma bcast_mat_same_shape f g (A A' B B' : list (list R)) :
  same_shape A A' -> same_shape B B' ->
  option_Forall2 same_shape (bcast_mat f A B) (bcast_mat g A' B').
Proof.
  intros HA HB. unfold bcast_mat, bcast.
  assert (Hla : length A = length A') by (eapply Forall2_length; exact HA).
  assert (Hlb : length B = length B') by (eapply Forall2_length; exact HB).
  rewrite <- Hla, <- Hlb.
  destruct (Nat.eqb (length A) (length B)).
  - apply mapM_rel.
    eapply Forall2_impl; [apply Forall2_zip_pairs; [exact HA|exact HB]|].
    intros p p' [H1 H2]. apply bcast_row_length; assumption.
  - destruct HA as [|a a' A A' Ha HA].
    + destruct HB as [|b b' B B' Hb HB]; [constructor|].
      destruct HB; [|constructor].
      apply mapM_rel. constructor.
    + destruct HA as [|a2 a2' A A' Ha2 HA].
      * apply mapM_rel.
        eapply Forall2_impl; [exact HB|].
        intros b b' Hb. apply bcast_row_length; assumption.
      * destruct HB as [|b b' B B' Hb HB]; [constructor|].
        destruct HB; [|constructor].
        apply mapM_rel. repeat constructor;
          try (apply bcast_row_length; assumption).
        eapply Forall2_impl; [exact HA|].
        intros c c' Hc. apply bcast_row_length; assumption.
Qed.

Lemma zero_out_same_shape (T T' : list (list R)) :
  same_shape T T' ->
  map (map (fun x => x * 0)) T = map (map (fun x => x * 0)) T'.
Proof.
  induction 1 as [|a a' T T' Ha _ IH]; [reflexivity|].
  cbn [map]. rewrite IH. f_equal.
  clear -Ha. revert a' Ha. induction a as [|x a IHa]; intros [|x' a'] Ha;
    try discriminate; [reflexivity|].
  cbn. f_equal; [ring|]. apply IHa. simpl in Ha. lia.
Qed.

Lemma random_like_shape draws id (like : tensor) r :
  option_Forall2 same_shape (t_run (random_like draws id like) r) (t_run like r).
Proof.
  unfold random_like. cbn [t_run].
  destruct (t_run like r) as [M|]; [|constructor]. cbn. constructor.
  apply Forall2_same_length_lookup_2; [apply length_imap|].
  intros k a b Ha Hb.
  rewrite list_lookup_imap, Hb in Ha. cbn in Ha. injection Ha as <-.
  apply length_imap.
Qed.

Lemma same_shape_refl (A : list (list R)) : same_shape A A.
Proof. apply Forall_Forall2_diag, Forall_forall. reflexivity. Qed.

(** *** The noise gate *)

Lemma gated_noise_independent (zm zs un nz1 nz2 : tensor) r1 r2 :
  t_run zm r1 = t_run zm r2 ->
  t_run zs r1 = t_run zs r2 ->
  t_run un r1 = Some [[0]] ->
  t_run un r2 = Some [[0]] ->
  option_Forall2 same_shape (t_run nz1 r1) (t_run nz2 r2) ->
  t_run (add zm (mul (mul zs nz1) un)) r1
  = t_run (add zm (mul (mul zs nz2) un)) r2.
Proof.
  intros Hzm Hzs Hu1 Hu2 Hnz. unfold add, mul, binop. cbn [t_run].
  rewrite Hzm, Hzs, Hu1, Hu2.
  destruct (t_run zm r2) as [M|]; [|reflexivity]. cbn [mbind option_bind].
  destruct (t_run zs r2) as [S|]; [|reflexivity]. cbn [mbind option_bind].
  destruct Hnz as [N N' HN|]; [|reflexivity]. cbn [mbind option_bind].
  pose proof (bcast_mat_same_shape Rmult Rmult S S N N' (same_shape_refl S) HN)
    as HT.
  destruct HT as [T T' HT|]; [|reflexivity]. cbn [mbind option_bind].
  rewrite !bcast_mat_const_r. cbn [mbind option_bind].
  rewrite (zero_out_same_shape T T' HT). reflexivity.
Qed.

Lemma add_zeros_row (a z : list R) :
  length a = length z -> zip_with Rplus a (map (fun x => x * 0) z) = a.
Proof.
  revert z. induction a as [|x a IH]; intros [|y z] Hlen; try discriminate;
    [reflexivity|].
  cbn. f_equal; [ring|]. apply IH. simpl in Hlen. lia.
Qed.

Lemma zero_noise_sum sig (N M : list (list R)) :
  same_shape N M ->
  Forall (fun m => length m = length sig) M ->
  bcast_mat Rplus M (map (map (fun x => x * 0)) (map (zip_with Rmult sig) N))
  = Some M.
Proof.
  intros Hs Hd.
  assert (H2 : Forall2 (fun m z => length m = length z
                                   /\ zip_with Rplus m z = m)
                       M (map (map (fun x => x * 0))
                              (map (zip_with Rmult sig) N))).
  { induction Hs as [|b m N M Hb Hs IH]; [constructor|].
    apply Forall_cons in Hd as [Hm Hd]. cbn [map].
    constructor; [|apply IH, Hd].
    rewrite length_map, length_zip_with. split; [lia|].
    apply add_zeros_row. rewrite length_zip_with. lia. }
  rewrite bcast_mat_same.
  - f_equal. clear -H2.
    induction H2 as [|m z M Z [_ Hz] _ IH]; [reflexivity|].
    cbn. rewrite Hz, IH. reflexivity.
  - eapply Forall2_impl; [exact H2|]. intros m z [Hlen _]. exact Hlen.
Qed.

Lemma gated_noise_is_mean (zm zs un nz : tensor) r sig M N :
  t_run zs r = Some [sig] ->
  t_run un r = Some [[0]] ->
  t_run zm r = Some M ->
  has_dim (length sig) M = true ->
  t_run nz r = Some N ->
  same_shape N M ->
  t_run (add zm (mul (mul zs nz) un)) r = Some M.
Proof.
  intros Hzs Hun Hzm Hdim Hnz Hshape. apply has_dim_Forall in Hdim.
  unfold add, mul, binop. cbn [t_run].
  rewrite Hzm, Hzs, Hun, Hnz. cbn [mbind option_bind].
  assert (HN : Forall (fun b => length b = length sig) N).
  { clear -Hshape Hdim. induction Hshape as [|b m N M Hb _ IH]; [constructor|].
    apply Forall_cons in Hdim as [Hm Hdim].
    constructor; [congruence|apply IH, Hdim]. }
  rewrite bcast_mat_row_l by exact HN. cbn [mbind option_bind].
  rewrite bcast_mat_const_r. cbn [mbind option_bind].
  apply zero_noise_sum; assumption.
Qed.

(** *** Evaluating the encoder *)

Lemma vecmat_length units (x : list R) (K : list (list R)) :
  Forall (fun row => length row = units) K ->
  length (vecmat units x K) = units.
Proof.
  intros HK. unfold vecmat. revert x.
  induction HK as [|k K Hk _ IH]; intros [|xi x]; cbn;
    try apply repeat_length.
  rewrite length_zip_with, length_map, IH. lia.
Qed.

Lemma dense_apply_dim act in_dim units K b x y :
  dense_apply act in_dim units K b x = Some y -> has_dim units y = true.
Proof.
  unfold dense_apply.
  destruct (Nat.eqb_spec (length K) in_dim) as [HK|]; [|discriminate].
  destruct (has_dim units K) eqn:Hdim; [|discriminate].
  destruct (Nat.eqb_spec (length b) units) as [Hb|]; [|discriminate].
  destruct (has_dim in_dim x); [|discriminate]. cbn.
  intros H. injection H as <-.
  apply has_dim_Forall, Forall_map, Forall_forall. intros xi _.
  rewrite length_map, length_zip_with, vecmat_length; [lia|].
  apply has_dim_Forall. exact Hdim.
Qed.

Lemma dense_output_dim kernel bias x units act r y :
  t_run (dense_output kernel bias x units act) r = Some y ->
  has_dim units y = true.
Proof.
  unfold dense_output. cbn [t_run].
  destruct (t_run x r); [|discriminate].
  destruct (read_matrix kernel r); [|discriminate].
  destruct (read_vector bias r); [|discriminate].
  cbn. apply dense_apply_dim.
Qed.

Lemma dense_output_run_eq kernel bias x x' units act r1 r2 :
  r_vars r1 = r_vars r2 ->
  t_dim x = t_dim x' ->
  t_run x r1 = t_run x' r2 ->
  t_run (dense_output kernel bias x units act) r1
  = t_run (dense_output kernel bias x' units act) r2.
Proof.
  intros Hv Hd Hx. unfold dense_output, read_matrix, read_vector. cbn [t_run].
  rewrite Hv, Hd, Hx. reflexivity.
Qed.

Lemma encoder_input_run_eq hp s a d r1 r2 :
  t_run s r1 = t_run s r2 ->
  t_run a r1 = t_run a r2 ->
  t_run d r1 = t_run d r2 ->
  t_run (encoder_input hp s a d) r1 = t_run (encoder_input hp s a d) r2.
Proof.
  intros Hs Ha Hd. unfold encoder_input.
  destruct (use_actions hp); [|exact Hs].
  unfold concat_output. cbn [t_run mapM]. rewrite Hs, Ha, Hd. reflexivity.
Qed.

Lemma same_shape_sym (A B : list (list R)) : same_shape A B -> same_shape B A.
Proof.
  induction 1 as [|a b A B Hab _ IH]; constructor; [congruence|exact IH].
Qed.

Lemma same_shape_trans (A B C : list (list R)) :
  same_shape A B -> same_shape B C -> same_shape A C.
Proof.
  intros H1 H2. eapply Forall2_trans; [|exact H1|exact H2].
  intros x y w Hxy Hyw. cbn in *. congruence.
Qed.

Lemma option_same_shape_join (o1 o2 o : option (list (list R))) :
  option_Forall2 same_shape o1 o -> option_Forall2 same_shape o2 o ->
  option_Forall2 same_shape o1 o2.
Proof.
  intros H1 H2. destruct H1 as [N1 M HN1|]; inversion H2 as [N2 M2 HN2|];
    subst; constructor.
  eapply same_shape_trans; [exact HN1|apply same_shape_sym; exact HN2].
Qed.

Lemma latent_mean_run_eq hp ci r1 r2 :
  r_vars r1 = r_vars r2 ->
  t_run ci r1 = t_run ci r2 ->
  t_run (latent_mean hp ci) r1 = t_run (latent_mean hp ci) r2
  /\ t_run (hidden_layers hp ci) r1 = t_run (hidden_layers hp ci) r2.
Proof.
  intros Hv Hci. unfold latent_mean, hidden_layers. split;
    repeat (apply dense_output_run_eq; [exact Hv|reflexivity|]); exact Hci.
Qed.

(** With the gate at 0 the sampled code of an encoder is its latent mean. *)
Lemma encoder_nodes_gate hp zs un s a d id r sig :
  use_vail hp = true ->
  t_run un r = Some [[0]] ->
  t_run zs r = Some [sig] ->
  length sig = z_size ->
  exists zt zm,
    z (encoder_nodes hp zs un s a d id) = Some zt
    /\ z_mean (encoder_nodes hp zs un s a d id) = Some zm
    /\ t_run zt r = t_run zm r.
Proof.
  intros Hvail Hun Hzs Hlen. unfold encoder_nodes. rewrite Hvail. cbn [z z_mean].
  eexists _, _. split; [reflexivity|]. split; [reflexivity|].
  set (zmean := latent_mean hp (encoder_input hp s a d)).
  destruct (t_run zmean r) as [M|] eqn:HM.
  - pose proof (random_like_shape r_normal id zmean r) as Hshape.
    rewrite HM in Hshape.
    destruct (t_run (random_like r_normal id zmean) r) as [N|] eqn:HN;
      [|inversion Hshape].
    assert (HNM : same_shape N M) by (inversion Hshape; assumption).
    eapply gated_noise_is_mean; try eassumption.
    rewrite Hlen. eapply dense_output_dim. exact HM.
  - unfold add, binop. cbn [t_run]. rewrite HM. reflexivity.
Qed.

(** With the gate at 0 the estimate of an encoder does not depend on the
    draws of its noise operation. *)
Lemma encoder_nodes_deterministic hp zs un s a d id1 id2 r1 r2 :
  use_vail hp = true ->
  r_vars r1 = r_vars r2 ->
  t_run un r1 = Some [[0]] ->
  t_run un r2 = Some [[0]] ->
  t_run zs r1 = t_run zs r2 ->
  t_run s r1 = t_run s r2 ->
  t_run a r1 = t_run a r2 ->
  t_run d r1 = t_run d r2 ->
  t_run (estimate (encoder_nodes hp zs un s a d id1)) r1
  = t_run (estimate (encoder_nodes hp zs un s a d id2)) r2.
Proof.
  intros Hvail Hv Hu1 Hu2 Hzs Hs Ha Hd.
  unfold encoder_nodes. rewrite Hvail. cbn [estimate].
  set (zmean := latent_mean hp (encoder_input hp s a d)).
  assert (Hz : t_run zmean r1 = t_run zmean r2).
  { pose proof (encoder_input_run_eq hp s a d r1 r2 Hs Ha Hd) as Hci.
    destruct (latent_mean_run_eq hp _ r1 r2 Hv Hci) as [Hlm _]. exact Hlm. }
  apply dense_output_run_eq; [exact Hv|reflexivity|].
  apply gated_noise_independent; try assumption.
  pose proof (random_like_shape r_normal id1 zmean r1) as H1.
  pose proof (random_like_shape r_normal id2 zmean r2) as H2.
  rewrite Hz in H1.
  eapply option_same_shape_join; eassumption.
Qed.

Lemma create_network_vail hp i g n g' :
  create_network hp i g = Some (n, g') ->
  use_vail hp = true ->
  let zs := vector_variable "gail_sigma_vail" z_size in
  let un := placeholder_1 feed_use_noise in
  exists id1 id2,
    expert n = encoder_nodes hp zs un (encoded_expert i) (expert_action i)
                             (done_expert i) id1
    /\ policy n = encoder_nodes hp zs un (encoded_policy i)
                                (selected_actions (policy_model hp))
                                (done_policy i) id2
    /\ id1 = g_random_ops g /\ id2 = S id1.
Proof.
  intros H Hvail zs un.
  apply create_network_Some in H as (g0 & g1 & Hv & Hr0 & He & Hp & _).
  rewrite Hvail in Hv. destruct Hv as (Hzs & Hun & _).
  apply create_encoder_Some in He as (zs1 & un1 & Ho1 & He & Hr1 & _).
  apply create_encoder_Some in Hp as (zs2 & un2 & Ho2 & Hp & _).
  destruct (Ho1 Hvail) as [E1 E2]. destruct (Ho2 Hvail) as [E3 E4].
  rewrite Hzs in E1, E3. rewrite Hun in E2, E4. simplify_eq.
  rewrite Hvail in Hr1.
  exists (g_random_ops g0), (g_random_ops g1).
  split; [assumption|]. split; [assumption|]. split; [congruence|lia].
Qed.

Lemma sigma_run r sig :
  r_vars r !! "gail_sigma_vail" = Some (Vector sig) ->
  length sig = z_size ->
  t_run (vector_variable "gail_sigma_vail" z_size) r = Some [sig].
Proof.
  intros Hs Hlen. unfold vector_variable, read_vector. cbn [t_run].
  rewrite Hs. cbn. rewrite Hlen, Nat.eqb_refl. reflexivity.
Qed.

Lemma sigma_run_eq r1 r2 :
  r_vars r1 = r_vars r2 ->
  t_run (vector_variable "gail_sigma_vail" z_size) r1
  = t_run (vector_variable "gail_sigma_vail" z_size) r2.
Proof.
  intros Hv. unfold vector_variable, read_vector. cbn [t_run].
  rewrite Hv. reflexivity.
Qed.

Lemma noise_level_run r u :
  feed_use_noise (r_feed r) = [u] ->
  t_run (placeholder_1 feed_use_noise) r = Some [[u]].
Proof. intros Hu. unfold placeholder_1. cbn [t_run]. rewrite Hu. reflexivity. Qed.

(** C10. With the bottleneck on and 0 fed to the noise gate, the sampled
    code of each encoder is its latent mean, whatever the noise operation
    draws, and both estimates are the same in two runs that agree on the
    variables and on the inputs of the encoders. *)
Theorem noise_gate_off_deterministic hp i g n g' :
  create_network hp i g = Some (n, g') ->
  use_vail hp = true ->
  (forall r sig,
     feed_use_noise (r_feed r) = [0] ->
     r_vars r !! "gail_sigma_vail" = Some (Vector sig) ->
     length sig = z_size ->
     exists ze zme zp zmp,
       z (expert n) = Some ze /\ z_mean_expert n = Some zme
       /\ z (policy n) = Some zp /\ z_mean_policy n = Some zmp
       /\ t_run ze r = t_run zme r /\ t_run zp r = t_run zmp r)
  /\ (forall r1 r2,
        r_vars r1 = r_vars r2 ->
        feed_use_noise (r_feed r1) = [0] ->
        feed_use_noise (r_feed r2) = [0] ->
        t_run (encoded_expert i) r1 = t_run (encoded_expert i) r2 ->
        t_run (expert_action i) r1 = t_run (expert_action i) r2 ->
        t_run (done_expert i) r1 = t_run (done_expert i) r2 ->
        t_run (encoded_policy i) r1 = t_run (encoded_policy i) r2 ->
        t_run (selected_actions (policy_model hp)) r1
        = t_run (selected_actions (policy_model hp)) r2 ->
        t_run (done_policy i) r1 = t_run (done_policy i) r2 ->
        t_run (expert_estimate n) r1 = t_run (expert_estimate n) r2
        /\ t_run (policy_estimate n) r1 = t_run (policy_estimate n) r2).
Proof.
  intros H Hvail.
  destruct (create_network_vail _ _ _ _ _ H Hvail) as (id1 & id2 & He & Hp & _).
  unfold z_mean_expert, z_mean_policy, expert_estimate, policy_estimate.
  rewrite He, Hp. split.
  - intros r sig Hu Hs Hlen.
    pose proof (noise_level_run r 0 Hu) as Hun.
    pose proof (sigma_run r sig Hs Hlen) as Hzs.
    destruct (encoder_nodes_gate hp _ _ (encoded_expert i) (expert_action i)
                (done_expert i) id1 r sig Hvail Hun Hzs Hlen)
      as (ze & zme & H1 & H2 & H3).
    destruct (encoder_nodes_gate hp _ _ (encoded_policy i)
                (selected_actions (policy_model hp))
                (done_policy i) id2 r sig Hvail Hun Hzs Hlen)
      as (zp & zmp & H4 & H5 & H6).
    exists ze, zme, zp, zmp. auto 10.
  - intros r1 r2 Hv Hu1 Hu2 He1 He2 He3 Hp1 Hp2 Hp3.
    pose proof (noise_level_run r1 0 Hu1) as Hun1.
    pose proof (noise_level_run r2 0 Hu2) as Hun2.
    pose proof (sigma_run_eq r1 r2 Hv) as Hzs.
    split; apply encoder_nodes_deterministic; assumption.
Qed.

Lemma demo_make_inputs vail w g :
  make_inputs (demo_hp vail w) g = Some (demo_inputs, g).
Proof. reflexivity. Qed.

(** *** Two invocations of the encoder *)

Lemma declared_after_declare hp in_dim est_dim m ops :
  declared (Graph (declare (encoder_variables hp in_dim est_dim) m) ops)
           (encoder_variables hp in_dim est_dim).
Proof.
  unfold declared, declare, encoder_variables, layer_variables.
  destruct (use_vail hp); norm_names; cbn [app foldl fst snd g_variables];
    repeat constructor; cbn [fst snd];
    (eexists; split; [|reflexivity]);
    rewrite ?lookup_insert_ne by discriminate; apply lookup_insert_eq.
Qed.

Lemma declared_ext g g' vars :
  g_variables g = g_variables g' -> declared g vars -> declared g' vars.
Proof. unfold declared. intros ->. auto. Qed.

Lemma random_like_run_eq draws id1 id2 (like : tensor) r :
  (forall i j, draws r id1 i j = draws r id2 i j) ->
  t_run (random_like draws id1 like) r = t_run (random_like draws id2 like) r.
Proof.
  intros H. unfold random_like. cbn [t_run].
  destruct (t_run like r) as [M|]; [|reflexivity]. cbn. f_equal.
  apply imap_ext. intros i row _. cbn. apply imap_ext. intros j x _. cbn.
  apply H.
Qed.

(** C5, amended. A second invocation with [reuse] set, on the inputs of a
    first one without, succeeds, declares no variable, and returns the same
    raw input and the same latent mean: both read the same weights.  The
    estimate is the same node when the bottleneck is off; with the
    bottleneck on each invocation has a noise operation of its own, and the
    estimates agree in a run where the two operations draw the same values
    or where the noise gate is 0. *)
Theorem encoder_reuse_shares_weights hp ozs oun s a d g e1 g1 :
  create_encoder hp ozs oun s a d false g = Some (e1, g1) ->
  exists e2 g2,
    create_encoder hp ozs oun s a d true g1 = Some (e2, g2)
    /\ g_variables g2 = g_variables g1
    /\ concat_input e2 = concat_input e1
    /\ z_mean e2 = z_mean e1
    /\ (use_vail hp = false -> estimate e2 = estimate e1)
    /\ (forall r,
          (forall i j, r_normal r (g_random_ops g) i j
                       = r_normal r (S (g_random_ops g)) i j) ->
          t_run (estimate e2) r = t_run (estimate e1) r)
    /\ (forall r un,
          oun = Some un -> t_run un r = Some [[0]] ->
          t_run (estimate e2) r = t_run (estimate e1) r).
Proof.
  intros H1.
  apply create_encoder_Some in H1 as (zs & un & Ho & -> & Hops & _ & Hvars).
  cbv zeta in Hvars.
  assert (Hd : declared g1 (encoder_variables hp
                              (t_dim (encoder_input hp s a d))
                              (estimate_input_dim hp zs un))).
  { eapply declared_ext; [|apply declared_after_declare with (ops := 0%nat)].
    cbn [g_variables]. symmetry. exact Hvars. }
  rewrite (create_encoder_reuse hp ozs oun zs un s a d g1 Ho Hd).
  eexists _, _. split; [reflexivity|]. cbn [g_variables].
  split; [reflexivity|].
  unfold encoder_nodes. destruct (use_vail hp) eqn:Hvail;
    cbn [concat_input z_mean estimate].
  - split; [reflexivity|]. split; [reflexivity|]. split; [discriminate|].
    rewrite Hops. replace (g_random_ops g + 1)%nat with (S (g_random_ops g)) by lia.
    split.
    + intros r Hdraws. apply dense_output_run_eq; [reflexivity..|].
      unfold add, mul, binop. cbn [t_run].
      rewrite (random_like_run_eq r_normal _ _ _ r Hdraws). reflexivity.
    + intros r un0 Hun Hgate. destruct (Ho eq_refl) as [_ Hun'].
      rewrite Hun' in Hun. injection Hun as <-.
      pose proof (encoder_nodes_deterministic hp zs un s a d
                    (S (g_random_ops g)) (g_random_ops g) r r Hvail eq_refl
                    Hgate Hgate eq_refl eq_refl eq_refl eq_refl) as Hdet.
      unfold encoder_nodes in Hdet. rewrite Hvail in Hdet. exact Hdet.
  - repeat (split; [reflexivity|]). split; reflexivity.
Qed.

(** *** Construction succeeds *)

Lemma undeclared_insert_other g name v vars ops :
  undeclared g vars ->
  Forall (fun nv => nv.1 <> name) vars ->
  undeclared (Graph (<[name := v]> (g_variables g)) ops) vars.
Proof.
  unfold undeclared. intros Hu Hne.
  rewrite Forall_forall in *. intros nv Hin. cbn [g_variables].
  rewrite lookup_insert_ne; [apply Hu, Hin|].
  intros E0. eapply Hne; [exact Hin|]. symmetry. exact E0.
Qed.

Lemma encoder_variables_not_sigma hp in_dim est_dim :
  Forall (fun nv => nv.1 <> "gail_sigma_vail")
         (encoder_variables hp in_dim est_dim).
Proof.
  unfold encoder_variables, layer_variables.
  destruct (use_vail hp); norm_names; cbn [app]; repeat constructor;
    cbn [fst]; discriminate.
Qed.

(** [create_network] succeeds on a graph that declares none of the
    variables of the discriminator, when the expert and the policy inputs
    have the same number of features. *)
Lemma create_network_run hp i g :
  let zs := vector_variable "gail_sigma_vail" z_size in
  let un := placeholder_1 feed_use_noise in
  let in_dim :=
    t_dim (encoder_input hp (encoded_expert i) (expert_action i) (done_expert i)) in
  let vars := encoder_variables hp in_dim (estimate_input_dim hp zs un) in
  (use_vail hp = true -> g_variables g !! "gail_sigma_vail" = None) ->
  undeclared g vars ->
  t_dim (encoder_input hp (encoded_policy i)
                       (selected_actions (policy_model hp)) (done_policy i))
  = in_dim ->
  create_network hp i g
  = Some (network_nodes hp i (g_random_ops g),
          Graph (declare vars
                   (if use_vail hp
                    then <["gail_sigma_vail"
                           := MkVariable [z_size] true ones_initializer]>
                           (g_variables g)
                    else g_variables g))
                (g_random_ops g + if use_vail hp then 2 else 0)).
Proof.
  intros zs un in_dim vars Hsigma Hund Hdim.
  unfold create_network, network_nodes. fold zs un.
  destruct (use_vail hp) eqn:Hvail.
  - erewrite bind_run.
    2:{ unfold bind, get_variable. rewrite (Hsigma eq_refl). reflexivity. }
    cbn [fst snd].
    erewrite bind_run.
    2:{ apply create_encoder_fresh with (zs := zs) (un := un); [auto|].
        apply undeclared_insert_other; [exact Hund|].
        apply encoder_variables_not_sigma. }
    cbn [g_variables g_random_ops].
    erewrite bind_run.
    2:{ apply create_encoder_reuse with (zs := zs) (un := un); [auto|].
        rewrite Hdim. apply declared_after_declare. }
    unfold ret. cbn [g_variables g_random_ops]. rewrite Hvail.
    replace (g_random_ops g + 1 + 1)%nat with (g_random_ops g + 2)%nat by lia.
    replace (g_random_ops g + 1)%nat with (S (g_random_ops g)) by lia.
    reflexivity.
  - erewrite bind_run; [|reflexivity]. cbn [fst snd].
    erewrite bind_run.
    2:{ apply create_encoder_fresh with (zs := zs) (un := un);
          [rewrite Hvail; discriminate|exact Hund]. }
    cbn [g_variables g_random_ops].
    erewrite bind_run.
    2:{ apply create_encoder_reuse with (zs := zs) (un := un);
          [rewrite Hvail; discriminate|].
        rewrite Hdim. apply declared_after_declare. }
    unfold ret. cbn [g_variables g_random_ops]. rewrite Hvail.
    replace (g_random_ops g + 0 + 0)%nat with (g_random_ops g + 0)%nat by lia.
    replace (g_random_ops g + 0)%nat with (g_random_ops g) by lia.
    reflexivity.
Qed.

(** *** The gradient penalty *)

Lemma interpolate_run pairs g :
  interpolate pairs g
  = Some (imap (fun k ep => interp_node (g_random_ops g + k) ep.1 ep.2) pairs,
          Graph (g_variables g) (g_random_ops g + length pairs)).
Proof.
  revert g. induction pairs as [|[e p] pairs IH]; intros g.
  - cbn. unfold ret. rewrite graph_eta by lia. reflexivity.
  - cbn [interpolate imap length].
    unfold random_uniform at 1. unfold fresh_random_op, bind at 1 2.
    unfold ret at 1. unfold bind at 1. rewrite IH.
    unfold ret. cbn [g_variables g_random_ops fst snd].
    f_equal. f_equal.
    + f_equal.
      * unfold interp_node. rewrite Nat.add_0_r. reflexivity.
      * apply imap_ext. intros k [e' p'] _. cbn. f_equal. lia.
    + f_equal. lia.
Qed.

Lemma interpolation_row (u : nat -> R) (e p : list R) :
  length e = length p ->
  zip_with Rplus
    (zip_with Rmult (imap (fun j _ => u j) e) e)
    (zip_with Rmult (map (Rminus 1) (imap (fun j _ => u j) e)) p)
  = imap (fun j xy => u j * xy.1 + (1 - u j) * xy.2) (zip e p).
Proof.
  revert u p. induction e as [|x e IH]; intros u [|y p] Hlen;
    try discriminate; [reflexivity|].
  cbn [imap zip zip_with map]. f_equal.
  apply (IH (u ∘ S)). simpl in Hlen. lia.
Qed.

Lemma zip_with_shape f (A B : list (list R)) :
  same_shape A B -> same_shape (zip_with (zip_with f) A B) A.
Proof.
  induction 1 as [|a b A B Hab _ IH]; [constructor|].
  cbn. constructor; [|exact IH]. rewrite length_zip_with. lia.
Qed.

Lemma map_shape f (A : list (list R)) : same_shape (map (map f) A) A.
Proof.
  induction A as [|a A IH]; [constructor|].
  cbn. constructor; [apply length_map|exact IH].
Qed.

Lemma interpolation_value (u : nat -> nat -> R) (E P : list (list R)) :
  same_shape E P ->
  zip_with (zip_with Rplus)
    (zip_with (zip_with Rmult)
       (imap (fun i row => imap (fun j (_ : R) => u i j) row) E) E)
    (zip_with (zip_with Rmult)
       (map (map (Rminus 1))
          (imap (fun i row => imap (fun j (_ : R) => u i j) row) E)) P)
  = interpolation u E P.
Proof.
  intros Hs. unfold interpolation. revert u.
  induction Hs as [|x y E P Hxy Hs IH]; intros u; [reflexivity|].
  cbn [imap zip zip_with map fst snd]. f_equal.
  - apply interpolation_row. exact Hxy.
  - apply (IH (u ∘ S)).
Qed.

Lemma interp_node_run op (e p : tensor) r E P :
  t_run e r = Some E ->
  t_run p r = Some P ->
  same_shape E P ->
  t_run (interp_node op e p) r
  = Some (interpolation (fun i j => r_uniform r op i j) E P).
Proof.
  intros He Hp Hs. unfold interp_node, add, mul, sub, binop, constant,
    random_like. cbn [t_run]. rewrite He, Hp. cbn [mbind option_bind].
  set (A := imap (fun i row => imap (fun j (_ : R) => r_uniform r op i j) row) E).
  assert (HA : same_shape A E).
  { apply Forall2_same_length_lookup_2; [apply length_imap|].
    intros k a b Ha Hb. unfold A in Ha.
    rewrite list_lookup_imap, Hb in Ha. cbn in Ha. injection Ha as <-.
    apply length_imap. }
  rewrite (bcast_mat_same Rmult A E HA). cbn [mbind option_bind].
  rewrite bcast_mat_const_l. cbn [mbind option_bind].
  assert (HAP : same_shape (map (map (Rminus 1)) A) P).
  { eapply same_shape_trans; [apply map_shape|].
    eapply same_shape_trans; [exact HA|exact Hs]. }
  rewrite (bcast_mat_same Rmult (map (map (Rminus 1)) A) P HAP).
  cbn [mbind option_bind].
  rewrite bcast_mat_same.
  2:{ eapply same_shape_trans; [apply zip_with_shape; exact HA|].
      apply same_shape_sym.
      eapply same_shape_trans; [apply zip_with_shape; exact HAP|].
      apply map_shape. }
  f_equal. subst A.
  apply (interpolation_value (fun i j => r_uniform r op i j)). exact Hs.
Qed.

Lemma gradient_penalty_run (grad : tensor) r G :
  t_run grad r = Some G -> gradient_penalty grad r = penalty_value G.
Proof.
  intros HG. unfold gradient_penalty, reduce_mean_1, map1, reduce_sum_1, unop.
  cbn [t_run]. rewrite HG. cbn [mbind option_bind].
  unfold penalty_value. fold EPSILON. rewrite !map_map. reflexivity.
Qed.

Lemma create_gradient_magnitude_Some fw hp i n g gm g' :
  create_gradient_magnitude fw hp i n g = Some (gm, g') ->
  exists zs un,
    let op := g_random_ops g in
    let interp_0 := interp_node op (encoded_expert i) (encoded_policy i) in
    let interp_1 := interp_node (op + 1) (expert_action i)
                                (selected_actions (policy_model hp)) in
    let interp_2 := interp_node (op + 2) (done_expert i) (done_policy i) in
    let enc := encoder_nodes hp zs un interp_0 interp_1 interp_2 (op + 3) in
    (use_vail hp = true -> z_sigma n = Some zs /\ use_noise n = Some un)
    /\ gm = gradient_penalty (gradients fw (estimate enc) (concat_input enc))
    /\ g_variables g' = g_variables g
    /\ declared g (encoder_variables hp
                     (t_dim (encoder_input hp interp_0 interp_1 interp_2))
                     (estimate_input_dim hp zs un)).
Proof.
  unfold create_gradient_magnitude. intros H.
  bind_inv H as interp g1 Hi H.
  rewrite interpolate_run in Hi. injection Hi as <- <-.
  cbn [zip zip_with imap fst snd compose] in H.
  bind_inv H as enc g2 He H. ret_inv H.
  apply create_encoder_Some in He as (zs & un & Ho & -> & _ & Hv & Hd).
  cbn [g_variables g_random_ops length] in *.
  exists zs, un. cbv zeta. rewrite !Nat.add_0_r in *.
  split; [exact Ho|]. split; [reflexivity|]. split; [exact Hv|].
  eapply declared_ext; [|exact Hd]. reflexivity.
Qed.

Lemma create_gradient_magnitude_run fw hp i n zs un g :
  let op := g_random_ops g in
  let interp_0 := interp_node op (encoded_expert i) (encoded_policy i) in
  let interp_1 := interp_node (op + 1) (expert_action i)
                              (selected_actions (policy_model hp)) in
  let interp_2 := interp_node (op + 2) (done_expert i) (done_policy i) in
  let enc := encoder_nodes hp zs un interp_0 interp_1 interp_2 (op + 3) in
  (use_vail hp = true -> z_sigma n = Some zs /\ use_noise n = Some un) ->
  declared g (encoder_variables hp
                (t_dim (encoder_input hp interp_0 interp_1 interp_2))
                (estimate_input_dim hp zs un)) ->
  create_gradient_magnitude fw hp i n g
  = Some (gradient_penalty (gradients fw (estimate enc) (concat_input enc)),
          Graph (g_variables g)
                (op + 3 + if use_vail hp then 1 else 0)).
Proof.
  intros op interp_0 interp_1 interp_2 enc Ho Hd.
  unfold create_gradient_magnitude.
  rewrite (bind_run _ _ _ _ _ (interpolate_run _ g)).
  cbn [zip zip_with imap fst snd compose length].
  rewrite !Nat.add_0_r. fold op. fold interp_0 interp_1 interp_2.
  erewrite bind_run.
  2:{ apply create_encoder_reuse with (zs := zs) (un := un); [exact Ho|].
      eapply declared_ext; [|exact Hd]. reflexivity. }
  reflexivity.
Qed.

(** [create_loss] succeeds once the network has its bottleneck attributes
    (when the bottleneck is on) and the graph declares the variables of the
    encoder (when the penalty weight is positive). *)
Lemma create_loss_succeeds fw hp b i n zs un g :
  let op := g_random_ops g in
  let interp_0 := interp_node op (encoded_expert i) (encoded_policy i) in
  let interp_1 := interp_node (op + 1) (expert_action i)
                              (selected_actions (policy_model hp)) in
  let interp_2 := interp_node (op + 2) (done_expert i) (done_policy i) in
  (use_vail hp = true ->
   z_sigma n = Some zs /\ use_noise n = Some un
   /\ is_Some (z_log_sigma_sq n) /\ is_Some (z_mean_expert n)
   /\ is_Some (z_mean_policy n)) ->
  (0 < gradient_penalty_weight hp ->
   declared g (encoder_variables hp
                 (t_dim (encoder_input hp interp_0 interp_1 interp_2))
                 (estimate_input_dim hp zs un))) ->
  exists l g', create_loss fw hp b i n g = Some (l, g').
Proof.
  intros op interp_0 interp_1 interp_2 Hvail Hw. unfold create_loss.
  assert (Hfirst : exists v,
             (if use_vail hp
              then match z_log_sigma_sq n, z_mean_expert n, z_mean_policy n with
                   | Some z_log_sigma_sq, Some z_mean_expert, Some z_mean_policy =>
                       ret (Some (kl_divergence z_log_sigma_sq z_mean_expert
                                                z_mean_policy),
                            s_lift2 Rplus
                              (s_lift2 Rmult (read_scalar (beta b))
                                 (s_lift2 Rminus
                                    (kl_divergence z_log_sigma_sq z_mean_expert
                                                   z_mean_policy)
                                    (s_const mutual_information)))
                              (adversarial_loss (expert_estimate n)
                                                (policy_estimate n)))
                   | _, _, _ => raise
                   end
              else ret (None, adversarial_loss (expert_estimate n)
                                               (policy_estimate n))) g
             = Some (v, g)).
  { destruct (use_vail hp); [|eexists; reflexivity].
    destruct (Hvail eq_refl) as (_ & _ & [a ->] & [c ->] & [d ->]).
    eexists. reflexivity. }
  destruct Hfirst as [v Hv]. rewrite (bind_run _ _ _ _ _ Hv).
  destruct (Rlt_dec 0 (gradient_penalty_weight hp)) as [Hpos|Hneg].
  - erewrite bind_run.
    2:{ erewrite bind_run; [reflexivity|].
        apply create_gradient_magnitude_run with (zs := zs) (un := un).
        - intros Hv1. destruct (Hvail Hv1) as (H1 & H2 & _). auto.
        - apply Hw, Hpos. }
    eexists _, _. reflexivity.
  - erewrite bind_run; [|reflexivity].
    eexists _, _. reflexivity.
Qed.

(** C3, amended. The penalty interpolates each of the three inputs with a
    uniform draw of the shape of that input, so every entry has a weight of
    its own: [interp = u * expert + (1 - u) * policy] entry by entry.  The
    interpolated triple goes through the encoder with [reuse] set, which
    declares no variable; the gradient of its estimate is taken with
    respect to its raw input, and the penalty is the batch mean of
    [(sqrt(sum(grad^2) + 1e-7) - 1)^2]. *)
Theorem gradient_penalty_spec fw hp i n g gm g' :
  create_gradient_magnitude fw hp i n g = Some (gm, g') ->
  exists zs un interp_0 interp_1 interp_2 enc,
    interp_0 = interp_node (g_random_ops g) (encoded_expert i) (encoded_policy i)
    /\ interp_1 = interp_node (g_random_ops g + 1) (expert_action i)
                              (selected_actions (policy_model hp))
    /\ interp_2 = interp_node (g_random_ops g + 2) (done_expert i)
                              (done_policy i)
    /\ (use_vail hp = true -> z_sigma n = Some zs /\ use_noise n = Some un)
    /\ enc = encoder_nodes hp zs un interp_0 interp_1 interp_2
                           (g_random_ops g + 3)
    /\ g_variables g' = g_variables g
    /\ gm = gradient_penalty (gradients fw (estimate enc) (concat_input enc))
    /\ (forall op e p r E P,
          t_run e r = Some E -> t_run p r = Some P -> same_shape E P ->
          t_run (interp_node op e p) r
          = Some (interpolation (fun i j => r_uniform r op i j) E P))
    /\ (forall r G,
          t_run (gradients fw (estimate enc) (concat_input enc)) r = Some G ->
          gm r = penalty_value G).
Proof.
  intros H.
  apply create_gradient_magnitude_Some in H as (zs & un & Ho & -> & Hv & _).
  eexists zs, un, _, _, _, _.
  repeat (split; [reflexivity|]). split; [exact Ho|].
  split; [reflexivity|]. split; [exact Hv|]. split; [reflexivity|].
  split.
  - intros op e p r E P. apply interp_node_run.
  - intros r G. apply gradient_penalty_run.
Qed.

(** *** The demonstration model is built *)

Lemma demo_undeclared vail w in_dim est_dim :
  undeclared beta_graph (encoder_variables (demo_hp vail w) in_dim est_dim).
Proof.
  unfold undeclared, encoder_variables, layer_variables.
  destruct vail; cbn [use_vail demo_hp app]; norm_names;
    repeat constructor.
Qed.

Lemma demo_create_network vail w :
  exists g',
    create_network (demo_hp vail w) demo_inputs beta_graph
    = Some (network_nodes (demo_hp vail w) demo_inputs 0, g')
    /\ declared g'
         (encoder_variables (demo_hp vail w) 1
            (estimate_input_dim (demo_hp vail w)
               (vector_variable "gail_sigma_vail" z_size)
               (placeholder_1 feed_use_noise))).
Proof.
  eexists. split.
  - apply create_network_run.
    + reflexivity.
    + apply demo_undeclared.
    + reflexivity.
  - apply declared_after_declare.
Qed.

Lemma demo_policy_monotone : policy_monotone demo_policy.
Proof. split; intros; apply monotone_raise. Qed.

(** *** The theorems at the demonstration model *)


Lemma expert_action_encoding_witness :
  make_inputs (demo_hp false 0) empty_graph = Some (demo_inputs, empty_graph)
  /\ t_run (expert_action demo_inputs) noisy_run = Some [[0; 1; 0; 1; 0]].
Proof.
  pose proof (demo_make_inputs false 0 empty_graph) as Hi.
  split; [exact Hi|].
  destruct (expert_action_encoding _ _ _ _ Hi) as (_ & H2 & _).
  apply H2; [discriminate|reflexivity|reflexivity].
Defined.

Lemma noise_gate_off_deterministic_witness :
  exists g',
    create_network (demo_hp true 0) demo_inputs beta_graph
    = Some (network_nodes (demo_hp true 0) demo_inputs 0, g')
    /\ t_run (policy_estimate (network_nodes (demo_hp true 0) demo_inputs 0))
             (Run demo_vars (demo_feed 0) second_op_draws no_draws)
       = t_run (policy_estimate (network_nodes (demo_hp true 0) demo_inputs 0))
               (Run demo_vars (demo_feed 0) no_draws no_draws).
Proof.
  destruct (demo_create_network true 0) as (g' & Hn & _).
  exists g'. split; [exact Hn|].
  destruct (noise_gate_off_deterministic _ _ _ _ _ Hn eq_refl) as (_ & H2).
  apply H2; reflexivity.
Defined.

Lemma encoder_reuse_shares_weights_witness :
  exists e1 g1 e2 g2,
    create_encoder (demo_hp true 0)
      (Some (vector_variable "gail_sigma_vail" z_size))
      (Some (placeholder_1 feed_use_noise))
      (encoded_expert demo_inputs) (expert_action demo_inputs)
      (done_expert demo_inputs) false sigma_graph = Some (e1, g1)
    /\ create_encoder (demo_hp true 0)
         (Some (vector_variable "gail_sigma_vail" z_size))
         (Some (placeholder_1 feed_use_noise))
         (encoded_expert demo_inputs) (expert_action demo_inputs)
         (done_expert demo_inputs) true g1 = Some (e2, g2)
    /\ g_variables g2 = g_variables g1
    /\ z_mean e2 = z_mean e1.
Proof.
  assert (Hund : undeclared sigma_graph
                   (encoder_variables (demo_hp true 0)
                      (t_dim (encoder_input (demo_hp true 0)
                                (encoded_expert demo_inputs)
                                (expert_action demo_inputs)
                                (done_expert demo_inputs)))
                      (estimate_input_dim (demo_hp true 0)
                         (vector_variable "gail_sigma_vail" z_size)
                         (placeholder_1 feed_use_noise)))).
  { unfold undeclared, encoder_variables, layer_variables.
    cbn [use_vail demo_hp app]. norm_names. repeat constructor. }
  pose proof (create_encoder_fresh (demo_hp true 0) _ _ _ _
                (encoded_expert demo_inputs) (expert_action demo_inputs)
                (done_expert demo_inputs) sigma_graph
                (fun _ => conj eq_refl eq_refl) Hund) as H1.
  destruct (encoder_reuse_shares_weights _ _ _ _ _ _ _ _ _ H1)
    as (e2 & g2 & H2 & H3 & _ & H4 & _).
  eexists _, _, e2, g2. split; [exact H1|]. auto.
Defined.

Lemma demo_create_loss vail w :
  exists g l g',
    create_network (demo_hp vail w) demo_inputs beta_graph
    = Some (network_nodes (demo_hp vail w) demo_inputs 0, g)
    /\ create_loss demo_framework (demo_hp vail w) beta_nodes demo_inputs
         (network_nodes (demo_hp vail w) demo_inputs 0) g
       = Some (l, g').
Proof.
  destruct (demo_create_network vail w) as (g & Hn & Hd).
  destruct (create_loss_succeeds demo_framework (demo_hp vail w) beta_nodes
              demo_inputs (network_nodes (demo_hp vail w) demo_inputs 0)
              (vector_variable "gail_sigma_vail" z_size)
              (placeholder_1 feed_use_noise) g) as (l & g' & Hl).
  - intros Hv. cbn in Hv. subst vail. cbn. repeat split; eexists; reflexivity.
  - intros _. exact Hd.
  - exists g, l, g'. auto.
Qed.

Lemma kl_loss_spec_witness :
  exists g l g' kl,
    create_loss demo_framework (demo_hp true 0) beta_nodes demo_inputs
      (network_nodes (demo_hp true 0) demo_inputs 0) g
    = Some (l, g')
    /\ kl_loss l = Some kl.
Proof.
  destruct (demo_create_loss true 0) as (g & l & g' & _ & Hl).
  destruct (kl_loss_spec _ _ _ _ _ _ _ _ Hl eq_refl)
    as (zls & zme & zmp & kl & _ & _ & _ & Hk & _).
  exists g, l, g', kl. auto.
Defined.

Lemma loss_composition_witness :
  exists g l g',
    create_loss demo_framework (demo_hp false 0) beta_nodes demo_inputs
      (network_nodes (demo_hp false 0) demo_inputs 0) g
    = Some (l, g')
    /\ loss l = discriminator_loss l.
Proof.
  destruct (demo_create_loss false 0) as (g & l & g' & _ & Hl).
  destruct (loss_composition _ _ _ _ _ _ _ _ Hl) as (_ & _ & H3).
  exists g, l, g'. split; [exact Hl|].
  apply H3; [reflexivity|]. cbn. lra.
Defined.

Lemma gradient_penalty_spec_witness :
  exists g gm g',
    create_gradient_magnitude demo_framework (demo_hp false 10) demo_inputs
      (network_nodes (demo_hp false 10) demo_inputs 0) g
    = Some (gm, g')
    /\ g_variables g' = g_variables g.
Proof.
  destruct (demo_create_network false 10) as (g & _ & Hd).
  pose proof (create_gradient_magnitude_run demo_framework (demo_hp false 10)
                demo_inputs (network_nodes (demo_hp false 10) demo_inputs 0)
                (vector_variable "gail_sigma_vail" z_size)
                (placeholder_1 feed_use_noise) g
                ltac:(discriminate) Hd) as Hgm.
  destruct (gradient_penalty_spec _ _ _ _ _ _ _ Hgm)
    as (zs & un & i0 & i1 & i2 & enc & _ & _ & _ & _ & _ & Hv & _).
  eexists g, _, _. split; [exact Hgm|exact Hv].
Defined.

(** C3, as stated: each input is interpolated with one weight per sample,
    broadcast over the features of that sample.  In the run [mixed_run] the
    interpolated action of the one sample is not of that form for any
    weight: its first two entries need the weights 1/4 and 3/4. *)
Lemma interpolation_not_per_sample :
  exists interp_0 interp_1 interp_2 g',
    interpolate
      (zip [encoded_expert demo_inputs; expert_action demo_inputs;
            done_expert demo_inputs]
           [encoded_policy demo_inputs; selected_actions demo_policy;
            done_policy demo_inputs])
      empty_graph
    = Some ([interp_0; interp_1; interp_2], g')
    /\ t_run (expert_action demo_inputs) mixed_run = Some [[0; 1; 0; 1; 0]]
    /\ t_run (selected_actions demo_policy) mixed_run = Some [[1; 0; 0; 0; 1]]
    /\ ~ exists a,
          t_run interp_1 mixed_run
          = Some (per_sample_interpolation a [[0; 1; 0; 1; 0]] [[1; 0; 0; 0; 1]]).
Proof.
  exists (interp_node 0 (encoded_expert demo_inputs) (encoded_policy demo_inputs)),
    (interp_node 1 (expert_action demo_inputs) (selected_actions demo_policy)),
    (interp_node 2 (done_expert demo_inputs) (done_policy demo_inputs)),
    (Graph ∅ 3).
  split; [rewrite interpolate_run; reflexivity|].
  assert (HE : t_run (expert_action demo_inputs) mixed_run
               = Some [[0; 1; 0; 1; 0]]) by reflexivity.
  assert (HP : t_run (selected_actions demo_policy) mixed_run
               = Some [[1; 0; 0; 0; 1]]) by reflexivity.
  split; [exact HE|]. split; [exact HP|].
  rewrite (interp_node_run 1 _ _ mixed_run _ _ HE HP)
    by (repeat constructor).
  intros [a Ha]. injection Ha as Ha.
  destruct a as [|a0 a]; [discriminate|].
  cbn in Ha. injection Ha as H0 H1 _.
  unfold mixed_draws in *. cbn in *. lra.
Qed.

(** *** Runs of the demonstration model *)

Lemma dense_output_run kernel bias x units act r X K B :
  t_run x r = Some X ->
  read_matrix kernel r = Some K ->
  read_vector bias r = Some B ->
  t_run (dense_output kernel bias x units act) r
  = dense_apply act (t_dim x) units K B X.
Proof.
  intros HX HK HB. unfold dense_output. cbn [t_run].
  rewrite HX, HK, HB. reflexivity.
Qed.

Ltac list_ring :=
  repeat match goal with
    | |- _ :: _ = _ :: _ => f_equal; try ring
    end.

Lemma unit_hidden_run hp (ci : tensor) r x :
  h_size hp = 1%nat ->
  t_dim ci = 1%nat ->
  t_run ci r = Some [[x]] ->
  read_matrix "GAIL_model/gail_d_hidden_1/kernel" r = Some [[0]] ->
  read_vector "GAIL_model/gail_d_hidden_1/bias" r = Some [0] ->
  read_matrix "GAIL_model/gail_d_hidden_2/kernel" r = Some [[0]] ->
  read_vector "GAIL_model/gail_d_hidden_2/bias" r = Some [0] ->
  exists h, t_run (hidden_layers hp ci) r = Some [[h]].
Proof.
  intros Hh Hd H0 Hk1 Hb1 Hk2 Hb2. unfold hidden_layers. rewrite Hh.
  pose proof (dense_output_run "GAIL_model/gail_d_hidden_1/kernel"
                "GAIL_model/gail_d_hidden_1/bias" ci 1
                (swish (policy_model hp)) r _ _ _ H0 Hk1 Hb1) as H1.
  assert (A1 : forall y, dense_apply (swish (policy_model hp)) 1 1 [[0]] [0] [[y]]
                         = Some [[swish (policy_model hp) (y * 0 + 0 + 0)]])
    by reflexivity.
  rewrite Hd, A1 in H1.
  pose proof (dense_output_run "GAIL_model/gail_d_hidden_2/kernel"
                "GAIL_model/gail_d_hidden_2/bias" _ 1
                (swish (policy_model hp)) r _ _ _ H1 Hk2 Hb2) as H2.
  cbn [t_dim dense_output] in H2. rewrite A1 in H2.
  eexists. exact H2.
Qed.

Lemma demo_latent_apply h :
  dense_apply (fun x => x) 1 z_size [repeat 0 z_size] (repeat 0 z_size) [[h]]
  = Some [repeat 0 z_size].
Proof. cbn. do 2 f_equal. list_ring. Qed.

Lemma demo_estimate_apply c :
  dense_apply sigmoid z_size 1 ([1] :: repeat [0] 127) [0] [repeat c z_size]
  = Some [[sigmoid c]].
Proof. cbn. do 4 f_equal. ring. Qed.

Lemma demo_sampled_code c :
  (T ← bcast_mat Rmult [repeat 1 z_size] [repeat c z_size];
   Z ← bcast_mat Rmult T [[1]];
   bcast_mat Rplus [repeat 0 z_size] Z)
  = Some [repeat c z_size].
Proof. cbn. do 2 f_equal. list_ring. Qed.

Lemma demo_noise_value id :
  imap (fun i row => imap (fun j (_ : R) => second_op_draws id i j) row)
       [repeat 0 z_size]
  = [repeat (second_op_draws id 0 0) z_size].
Proof. reflexivity. Qed.

(** The estimate of the encoder whose noise operation is [id], in the run
    [noisy_run]. *)
Lemma demo_noisy_estimate id :
  t_run (estimate (encoder_nodes (demo_hp true 0)
                     (vector_variable "gail_sigma_vail" z_size)
                     (placeholder_1 feed_use_noise)
                     (encoded_expert demo_inputs) (expert_action demo_inputs)
                     (done_expert demo_inputs) id))
        noisy_run
  = Some [[sigmoid (second_op_draws id 0 0)]].
Proof.
  unfold encoder_nodes. cbn [use_vail demo_hp estimate].
  unfold estimate_layer.
  destruct (unit_hidden_run (demo_hp true 0) (encoded_expert demo_inputs)
              noisy_run 0 eq_refl eq_refl eq_refl eq_refl eq_refl eq_refl
              eq_refl) as [h Hh].
  assert (Hzm : t_run (latent_mean (demo_hp true 0)
                         (encoder_input (demo_hp true 0)
                            (encoded_expert demo_inputs)
                            (expert_action demo_inputs)
                            (done_expert demo_inputs))) noisy_run
                = Some [repeat 0 z_size]).
  { unfold latent_mean.
    erewrite dense_output_run; [|exact Hh|reflexivity|reflexivity].
    apply demo_latent_apply. }
  erewrite dense_output_run; [| |reflexivity|reflexivity].
  2:{ unfold add, mul, binop, random_like. cbn [t_run].
      rewrite Hzm. cbn [mbind option_bind].
      rewrite demo_noise_value.
      replace (t_run (vector_variable "gail_sigma_vail" z_size) noisy_run)
        with (Some [repeat 1 z_size]) by reflexivity.
      replace (t_run (placeholder_1 feed_use_noise) noisy_run)
        with (Some [[1]]) by reflexivity.
      cbn [mbind option_bind].
      apply (demo_sampled_code (second_op_draws id 0 0)). }
  apply demo_estimate_apply.
Qed.

Lemma sigmoid_injective x y : sigmoid x = sigmoid y -> x = y.
Proof.
  unfold sigmoid. intros H.
  pose proof (exp_pos (- x)) as Hx. pose proof (exp_pos (- y)) as Hy.
  assert (E0 : exp (- x) = exp (- y)).
  { apply (f_equal (fun t => 1 / t)) in H.
    replace (1 / (1 / (1 + exp (- x)))) with (1 + exp (- x)) in H
      by (field; lra).
    replace (1 / (1 / (1 + exp (- y)))) with (1 + exp (- y)) in H
      by (field; lra).
    lra. }
  apply exp_inv in E0. lra.
Qed.

(** C5, as stated: a second invocation with [reuse] set, on the inputs of
    the first, gives the output of the first.  With the bottleneck on, the
    two invocations on the expert inputs of the demonstration model give
    different estimates in the run [noisy_run], where the noise gate is 1
    and the two noise operations draw 0 and 1. *)
Lemma reuse_estimate_differs_under_noise :
  exists e1 g1 e2 g2,
    create_encoder (demo_hp true 0)
      (Some (vector_variable "gail_sigma_vail" z_size))
      (Some (placeholder_1 feed_use_noise))
      (encoded_expert demo_inputs) (expert_action demo_inputs)
      (done_expert demo_inputs) false sigma_graph = Some (e1, g1)
    /\ create_encoder (demo_hp true 0)
         (Some (vector_variable "gail_sigma_vail" z_size))
         (Some (placeholder_1 feed_use_noise))
         (encoded_expert demo_inputs) (expert_action demo_inputs)
         (done_expert demo_inputs) true g1 = Some (e2, g2)
    /\ t_run (estimate e1) noisy_run = Some [[sigmoid 0]]
    /\ t_run (estimate e2) noisy_run = Some [[sigmoid 1]]
    /\ t_run (estimate e2) noisy_run <> t_run (estimate e1) noisy_run.
Proof.
  assert (Hund : undeclared sigma_graph
                   (encoder_variables (demo_hp true 0)
                      (t_dim (encoder_input (demo_hp true 0)
                                (encoded_expert demo_inputs)
                                (expert_action demo_inputs)
                                (done_expert demo_inputs)))
                      (estimate_input_dim (demo_hp true 0)
                         (vector_variable "gail_sigma_vail" z_size)
                         (placeholder_1 feed_use_noise)))).
  { unfold undeclared, encoder_variables, layer_variables.
    cbn [use_vail demo_hp app]. norm_names. repeat constructor. }
  pose proof (create_encoder_fresh (demo_hp true 0) _ _ _ _
                (encoded_expert demo_inputs) (expert_action demo_inputs)
                (done_expert demo_inputs) sigma_graph
                (fun _ => conj eq_refl eq_refl) Hund) as H1.
  pose proof (create_encoder_reuse (demo_hp true 0)
                (Some (vector_variable "gail_sigma_vail" z_size))
                (Some (placeholder_1 feed_use_noise)) _ _
                (encoded_expert demo_inputs) (expert_action demo_inputs)
                (done_expert demo_inputs)
                (Graph (declare
                          (encoder_variables (demo_hp true 0)
                             (t_dim (encoder_input (demo_hp true 0)
                                       (encoded_expert demo_inputs)
                                       (expert_action demo_inputs)
                                       (done_expert demo_inputs)))
                             (estimate_input_dim (demo_hp true 0)
                                (vector_variable "gail_sigma_vail" z_size)
                                (placeholder_1 feed_use_noise)))
                          (g_variables sigma_graph))
                       (g_random_ops sigma_graph + 1))
                (fun _ => conj eq_refl eq_refl)
                (declared_after_declare _ _ _ _ _)) as H2.
  eexists _, _, _, _. split; [exact H1|]. split; [exact H2|].
  cbn [g_random_ops sigma_graph use_vail demo_hp Nat.add].
  rewrite !demo_noisy_estimate. split; [reflexivity|]. split; [reflexivity|].
  intros E0. injection E0 as E0. apply sigmoid_injective in E0.
  unfold second_op_draws in E0. cbn in E0. lra.
Qed.

Lemma sigmoid_range x : 0 < sigmoid x < 1.
Proof.
  unfold sigmoid. pose proof (exp_pos (- x)) as He.
  split.
  - apply Rdiv_lt_0_compat; lra.
  - apply Rmult_lt_reg_r with (1 + exp (- x)); [lra|].
    unfold Rdiv. rewrite Rmult_assoc, Rinv_l by lra. lra.
Qed.

Lemma plain_estimate_run (ci : tensor) x :
  t_dim ci = 1%nat ->
  t_run ci plain_run = Some [[x]] ->
  exists e,
    t_run (estimate_layer (hidden_layers (demo_hp false 0) ci)) plain_run
    = Some (as_column [e])
    /\ 0 < e < 1.
Proof.
  intros Hd Hx.
  destruct (unit_hidden_run (demo_hp false 0) ci plain_run x eq_refl Hd Hx
              eq_refl eq_refl eq_refl eq_refl) as [h Hh].
  unfold estimate_layer.
  rewrite (dense_output_run "GAIL_model/gail_d_estimate/kernel"
             "GAIL_model/gail_d_estimate/bias" _ 1 sigmoid plain_run
             _ [[1]] [0] Hh eq_refl eq_refl).
  exists (sigmoid (h * 1 + 0 + 0)). split; [reflexivity|apply sigmoid_range].
Qed.

Lemma demo_init :
  exists g l g',
    init demo_framework (demo_hp false 0) empty_graph
    = Some (Model (demo_hp false 0) beta_nodes demo_inputs
                  (network_nodes (demo_hp false 0) demo_inputs 0) l, g')
    /\ create_loss demo_framework (demo_hp false 0) beta_nodes demo_inputs
         (network_nodes (demo_hp false 0) demo_inputs 0) g
       = Some (l, g').
Proof.
  destruct (demo_create_loss false 0) as (g & l & g' & Hn & Hl).
  exists g, l, g'. split; [|exact Hl].
  unfold init.
  rewrite (bind_run _ _ _ _ _ (make_beta_run empty_graph eq_refl)).
  rewrite (bind_run _ _ _ _ _ (demo_make_inputs false 0 _)).
  erewrite bind_run; [|exact Hn].
  erewrite bind_run; [|exact Hl].
  reflexivity.
Qed.


(** *** Building twice *)

Lemma make_beta_declared g :
  is_Some (g_variables g !! "gail_beta") -> make_beta g = None.
Proof.
  intros [v Hv]. unfold make_beta, bind, get_variable. rewrite Hv. reflexivity.
Qed.

Lemma bind_None {A B} (m : build A) (f : A -> build B) g :
  m g = None -> bind m f g = None.
Proof. unfold bind. intros ->. reflexivity. Qed.

Lemma init_keeps_beta fw hp g m g' :
  policy_monotone (policy_model hp) ->
  init fw hp g = Some (m, g') ->
  g_variables g' !! "gail_beta" = Some (MkVariable [] false ones_initializer).
Proof.
  intros Hpm H.
  apply init_Some in H as (g1 & g2 & g3 & Hb & Hi & Hn & Hl & _).
  pose proof (make_beta_Some _ _ _ Hb) as (_ & Hdecl).
  eapply lookup_weaken; [exact Hdecl|].
  etrans; [eapply monotone_make_inputs; eassumption|].
  etrans; [eapply monotone_create_network; eassumption|].
  eapply monotone_create_loss; eassumption.
Qed.

(** X1. A graph holds one discriminator.  Once [__init__] has run, running
    it again in the resulting graph stops at [make_beta], whatever the
    hyperparameters: [gail_beta] is requested without reuse and exists. *)
Theorem second_model_refused fw hp fw' hp' g m g' :
  policy_monotone (policy_model hp) ->
  init fw hp g = Some (m, g') ->
  init fw' hp' g' = None.
Proof.
  intros Hpm H. unfold init. apply bind_None, make_beta_declared.
  rewrite (init_keeps_beta _ _ _ _ _ Hpm H). eauto.
Qed.

Lemma second_model_refused_witness :
  exists m g',
    init demo_framework (demo_hp false 0) empty_graph = Some (m, g')
    /\ init demo_framework (demo_hp true 10) g' = None.
Proof.
  destruct demo_init as (g & l & g' & Hm & _).
  eexists _, g'. split; [exact Hm|].
  exact (second_model_refused demo_framework (demo_hp false 0) demo_framework
           (demo_hp true 10) empty_graph _ g' demo_policy_monotone Hm).
Defined.

Lemma declared_first_kernel g hp in_dim est_dim :
  declared g (encoder_variables hp in_dim est_dim) ->
  is_Some (g_variables g !! "GAIL_model/gail_d_hidden_1/kernel").
Proof.
  unfold declared, encoder_variables, layer_variables. cbn [app].
  intros H. apply Forall_cons in H as [(v & Hv & _) _]. cbn [fst] in Hv.
  norm_names. eauto.
Qed.

Lemma undeclared_first_kernel g hp in_dim est_dim :
  undeclared g (encoder_variables hp in_dim est_dim) ->
  g_variables g !! "GAIL_model/gail_d_hidden_1/kernel" = None.
Proof.
  unfold undeclared, encoder_variables, layer_variables. cbn [app].
  intros H. apply Forall_cons in H as [Hv _]. cbn [fst] in Hv.
  norm_names. exact Hv.
Qed.

(** X2. With [reuse] set the encoder creates nothing: on a graph that
    does not hold the kernel of its first layer, the call fails. *)
Theorem reuse_requires_first_encoder hp ozs oun s a d g :
  g_variables g !! "GAIL_model/gail_d_hidden_1/kernel" = None ->
  create_encoder hp ozs oun s a d true g = None.
Proof.
  intros Hnone.
  destruct (create_encoder hp ozs oun s a d true g) as [[e g']|] eqn:H;
    [|reflexivity].
  apply create_encoder_Some in H as (zs & un & _ & _ & _ & _ & Hd).
  apply declared_first_kernel in Hd as [v Hv]. congruence.
Qed.

Lemma reuse_requires_first_encoder_witness :
  create_encoder (demo_hp false 0) None None
    (encoded_policy demo_inputs) (selected_actions demo_policy)
    (done_policy demo_inputs) true beta_graph = None.
Proof.
  exact (reuse_requires_first_encoder (demo_hp false 0) None None _ _ _
           beta_graph eq_refl).
Defined.

(** X3. Without [reuse] the encoder is built once per graph: after a call
    that succeeded, a second call without [reuse] fails, whatever its
    hyperparameters and inputs. *)
Theorem encoder_not_rebuilt hp ozs oun s a d g e g1 hp' ozs' oun' s' a' d' :
  create_encoder hp ozs oun s a d false g = Some (e, g1) ->
  create_encoder hp' ozs' oun' s' a' d' false g1 = None.
Proof.
  intros H.
  apply create_encoder_Some in H as (zs & un & _ & _ & _ & _ & Hg1).
  cbv zeta in Hg1.
  assert (Hk : is_Some (g_variables g1 !! "GAIL_model/gail_d_hidden_1/kernel")).
  { eapply declared_first_kernel, declared_ext;
      [|apply (declared_after_declare hp _ _ (g_variables g) 0%nat)].
    cbn [g_variables]. symmetry. exact Hg1. }
  destruct (create_encoder hp' ozs' oun' s' a' d' false g1) as [[e' g2]|] eqn:H';
    [|reflexivity].
  apply create_encoder_Some in H' as (zs' & un' & _ & _ & _ & Hu & _).
  apply undeclared_first_kernel in Hu. destruct Hk as [v Hv]. congruence.
Qed.

Lemma encoder_not_rebuilt_witness :
  exists e g1,
    create_encoder (demo_hp false 0) None None
      (encoded_expert demo_inputs) (expert_action demo_inputs)
      (done_expert demo_inputs) false beta_graph = Some (e, g1)
    /\ create_encoder (demo_hp false 0) None None
         (encoded_policy demo_inputs) (selected_actions demo_policy)
         (done_policy demo_inputs) false g1 = None.
Proof.
  pose proof (create_encoder_fresh (demo_hp false 0) None None
                (constant 0) (constant 0)
                (encoded_expert demo_inputs) (expert_action demo_inputs)
                (done_expert demo_inputs) beta_graph
                ltac:(discriminate) (demo_undeclared _ _ _ _)) as H.
  eexists _, _. split; [exact H|].
  exact (encoder_not_rebuilt _ _ _ _ _ _ _ _ _ (demo_hp false 0) None None
           _ _ _ H).
Defined.

(** *** The beta controller, continued *)

(** X4. [update_beta] writes [gail_beta] and nothing else: every other
    variable of the store keeps its value.  It has no result exactly when
    the store holds no scalar value for [gail_beta]. *)
Theorem update_beta_frame g b g' r :
  make_beta g = Some (b, g') ->
  (forall vars', update_beta b r = Some vars' ->
     forall name, name <> "gail_beta" -> vars' !! name = r_vars r !! name)
  /\ (update_beta b r = None
      <-> ~ exists x, r_vars r !! "gail_beta" = Some (Scalar x)).
Proof.
  intros H. apply make_beta_Some in H as [-> _].
  unfold beta_nodes. cbn [update_beta].
  unfold assign, s_lift2, s_const, read_scalar. cbn [mbind option_bind].
  destruct (r_vars r !! "gail_beta") as [[x|v|m0]|] eqn:Hx; cbn.
  - split.
    + intros vars' Hv name Hne. injection Hv as <-.
      apply lookup_insert_ne. congruence.
    + split; [discriminate|]. intros Hno. exfalso. apply Hno. eauto.
  - split; [discriminate|]. split; [|reflexivity].
    intros _ [x Hx']. discriminate.
  - split; [discriminate|]. split; [|reflexivity].
    intros _ [x Hx']. discriminate.
  - split; [discriminate|]. split; [|reflexivity].
    intros _ [x Hx']. discriminate.
Qed.

Lemma update_beta_frame_witness :
  make_beta empty_graph = Some (beta_nodes, beta_graph)
  /\ update_beta beta_nodes uninitialised_run = None.
Proof.
  split; [reflexivity|].
  apply (update_beta_frame empty_graph beta_nodes beta_graph uninitialised_run
           eq_refl).
  intros [x Hx]. discriminate.
Defined.



(** *** Inputs of different widths *)

Lemma declare_first_kernel hp in_dim est_dim m :
  declare (encoder_variables hp in_dim est_dim) m
    !! "GAIL_model/gail_d_hidden_1/kernel"
  = Some (MkVariable [in_dim; h_size hp] true glorot_uniform_initializer).
Proof.
  unfold declare, encoder_variables, layer_variables.
  destruct (use_vail hp); norm_names; cbn [app foldl fst snd];
    rewrite ?lookup_insert_ne by discriminate; apply lookup_insert_eq.
Qed.

Lemma declared_first_kernel_shape g hp in_dim est_dim :
  declared g (encoder_variables hp in_dim est_dim) ->
  exists v, g_variables g !! "GAIL_model/gail_d_hidden_1/kernel" = Some v
            /\ v_shape v = [in_dim; h_size hp].
Proof.
  unfold declared, encoder_variables, layer_variables. cbn [app].
  intros H. apply Forall_cons in H as [Hv _]. cbn [fst snd v_shape] in Hv.
  norm_names. exact Hv.
Qed.

(** X6. The policy pass reuses the variables of the expert pass, so its
    input must have as many features: when the two encoder inputs differ in
    width, [create_network] fails. *)
Theorem network_needs_equal_widths hp i g :
  t_dim (encoder_input hp (encoded_policy i)
           (selected_actions (policy_model hp)) (done_policy i))
  <> t_dim (encoder_input hp (encoded_expert i) (expert_action i)
              (done_expert i)) ->
  create_network hp i g = None.
Proof.
  intros Hne.
  destruct (create_network hp i g) as [[n g']|] eqn:H; [|reflexivity].
  exfalso. apply Hne.
  apply create_network_Some in H as (g0 & g1 & _ & _ & He & Hp & _).
  apply create_encoder_Some in He as (zs & un & _ & _ & _ & _ & Hg1).
  apply create_encoder_Some in Hp as (zs' & un' & _ & _ & _ & _ & Hd).
  cbv zeta in Hg1, Hd.
  apply declared_first_kernel_shape in Hd as (v & Hv & Hs).
  rewrite Hg1, declare_first_kernel in Hv. injection Hv as <-.
  cbn [v_shape] in Hs. congruence.
Qed.

Lemma network_needs_equal_widths_witness :
  exists i g1,
    make_inputs (plain_hp stacked_policy) beta_graph = Some (i, g1)
    /\ create_network (plain_hp stacked_policy) i g1 = None.
Proof.
  eexists _, _. split; [reflexivity|].
  apply (network_needs_equal_widths (plain_hp stacked_policy)).
  cbn. discriminate.
Defined.

(** *** Ranges of the estimate, the reward and the adversarial loss *)
















(** *** Signs of the gradient penalty and of the KL term *)

Lemma sum_nonneg (v : list R) : Forall (fun x => 0 <= x) v -> 0 <= sum v.
Proof.
  induction 1 as [|x v Hx _ IH]; cbn [sum fold_right]; [lra|].
  fold (sum v). lra.
Qed.

Lemma sum_zero_all (v : list R) :
  Forall (fun x => 0 <= x) v -> sum v = 0 -> Forall (eq 0) v.
Proof.
  induction 1 as [|x v Hx Hv IH]; cbn [sum fold_right]; [constructor|].
  fold (sum v). intros Hs. pose proof (sum_nonneg v Hv).
  constructor; [lra|]. apply IH. lra.
Qed.

Lemma mean_nonneg (v : list R) :
  v <> [] -> Forall (fun x => 0 <= x) v ->
  exists m, mean v = Some m /\ 0 <= m /\ (m = 0 <-> Forall (eq 0) v).
Proof.
  intros Hne Hv. destruct v as [|x v]; [contradiction|].
  exists (sum (x :: v) / INR (length (x :: v))). split; [reflexivity|].
  pose proof (sum_nonneg _ Hv) as Hs.
  assert (Hn : 0 < INR (length (x :: v))).
  { apply lt_0_INR. cbn. lia. }
  split.
  { unfold Rdiv. apply Rmult_le_pos; [exact Hs|].
    left. apply Rinv_0_lt_compat. exact Hn. }
  split.
  - intros Hm. apply sum_zero_all; [exact Hv|].
    apply (Rmult_eq_compat_r (INR (length (x :: v)))) in Hm.
    unfold Rdiv in Hm. rewrite Rmult_assoc, Rinv_l in Hm by lra. lra.
  - intros Hz. rewrite (sum_zeros _ Hz). unfold Rdiv. ring.
Qed.

Lemma squares_nonneg (row : list R) : 0 <= sum (map (fun x => x ^ 2) row).
Proof.
  apply sum_nonneg, Forall_map, Forall_forall. intros x _. cbv beta.
  apply pow2_ge_0.
Qed.

Lemma safe_norm_unit t : 0 <= t -> ((sqrt (t + 1e-7) - 1) ^ 2 = 0 <-> t = 1 - 1e-7).
Proof.
  intros Ht. split.
  - intros H.
    assert (Hs : sqrt (t + 1e-7) = 1) by nra.
    pose proof (sqrt_sqrt (t + 1e-7) ltac:(lra)) as Hq.
    rewrite Hs in Hq. lra.
  - intros ->. replace (1 - 1e-7 + 1e-7) with 1 by lra.
    rewrite sqrt_1. ring.
Qed.

(** X10. The penalty on a gradient has no value on an empty batch;
    otherwise it is not negative, and it is zero exactly when the squares of
    every row of the gradient sum to [1 - EPSILON]. *)
Theorem gradient_penalty_nonneg (grad : tensor) r G :
  t_run grad r = Some G ->
  (G = [] -> gradient_penalty grad r = None)
  /\ (G <> [] ->
      exists v, gradient_penalty grad r = Some v /\ 0 <= v
                /\ (v = 0 <->
                    Forall (fun row => sum (map (fun x => x ^ 2) row) = 1 - 1e-7)
                           G)).
Proof.
  intros HG. rewrite (gradient_penalty_run grad r G HG). unfold penalty_value.
  split.
  - intros ->. reflexivity.
  - intros Hne.
    destruct (mean_nonneg
                (map (fun row => (sqrt (sum (map (fun x => x ^ 2) row) + 1e-7) - 1) ^ 2)
                     G))
      as (m & Hm & Hpos & Hzero).
    + destruct G; [contradiction|discriminate].
    + apply Forall_map, Forall_forall. intros row _. cbv beta.
      apply pow2_ge_0.
    + exists m. split; [exact Hm|]. split; [exact Hpos|].
      rewrite Hzero, Forall_map. apply Forall_iff. intros row. cbv beta.
      split.
      * intros H. apply safe_norm_unit; [apply squares_nonneg|]. auto.
      * intros H. symmetry. apply safe_norm_unit; [apply squares_nonneg|]. auto.
Qed.

Lemma gradient_penalty_nonneg_witness :
  exists v, gradient_penalty (constant 0) plain_run = Some v /\ 0 <= v.
Proof.
  destruct (gradient_penalty_nonneg (constant 0) plain_run [[0]] eq_refl)
    as [_ H].
  destruct (H ltac:(discriminate)) as (v & Hv & Hpos & _).
  exists v. auto.
Defined.

Lemma kl_sample_nonneg S e p : 0 <= kl_sample S e p.
Proof.
  unfold kl_sample.
  assert (H : sum (zip_with (fun s ep => 1 + s - 0.5 * ep.1 ^ 2 - 0.5 * ep.2 ^ 2
                                         - exp s) S (zip e p)) <= 0);
    [|lra].
  revert e p. induction S as [|s S IH]; intros e p; [cbn; lra|].
  destruct e as [|a e], p as [|b p]; cbn [zip zip_with sum fold_right];
    try lra.
  fold (sum (zip_with (fun s ep => 1 + s - 0.5 * ep.1 ^ 2 - 0.5 * ep.2 ^ 2
                                   - exp s) S (zip e p))).
  specialize (IH e p). cbn [fst snd].
  pose proof (exp_ineq1_le s). pose proof (pow2_ge_0 a). pose proof (pow2_ge_0 b).
  lra.
Qed.

Lemma kl_batch_nonneg S E P :
  length E = length P -> E <> [] ->
  exists v, kl_batch S E P = Some v /\ 0 <= v.
Proof.
  intros Hlen Hne. unfold kl_batch.
  destruct (mean_nonneg (zip_with (kl_sample S) E P)) as (m & Hm & Hpos & _).
  - destruct E, P; try discriminate; congruence.
  - apply Forall_forall. intros x Hin.
    apply elem_of_zip_with in Hin as (e & p & -> & _). apply kl_sample_nonneg.
  - eauto.
Qed.

Lemma log_sigma_sq_run r sig :
  r_vars r !! "gail_sigma_vail" = Some (Vector sig) ->
  length sig = z_size ->
  t_run (tlog (add (mul (vector_variable "gail_sigma_vail" z_size)
                        (vector_variable "gail_sigma_vail" z_size))
                   (constant EPSILON))) r
  = Some [map (fun s => ln (s * s + EPSILON)) sig].
Proof.
  intros Hs Hlen. unfold tlog, add, mul, binop, constant. cbn [t_run].
  rewrite (sigma_run r sig Hs Hlen). cbn [mbind option_bind].
  rewrite bcast_mat_same by (repeat constructor).
  cbn [mbind option_bind zip_with].
  rewrite bcast_mat_const_r. cbn [mbind option_bind map].
  rewrite zip_with_diag, map_map.
  assert (H : mapM log (map (fun x => x * x + EPSILON) sig)
              = Some (map (fun s => ln (s * s + EPSILON)) sig)).
  { rewrite <- (map_map (fun x => x * x + EPSILON) ln), <- mapM_total.
    apply mapM_ext_Forall, Forall_map, Forall_forall. intros s _. cbv beta.
    apply log_pos. pose proof EPSILON_pos. nra. }
  cbn [mapM]. unfold fmap, list_fmap in H |- *. rewrite H. reflexivity.
Qed.

(** X11. [z_log_sigma_sq] has a value for every value of sigma, zero and
    negative entries included, and [tf.exp] of it gives back
    [sigma * sigma + EPSILON]. *)
Theorem log_sigma_sq_defined hp i g n g' r sig :
  create_network hp i g = Some (n, g') ->
  use_vail hp = true ->
  r_vars r !! "gail_sigma_vail" = Some (Vector sig) ->
  length sig = z_size ->
  exists zls,
    z_log_sigma_sq n = Some zls
    /\ t_run zls r = Some [map (fun s => ln (s * s + 1e-7)) sig]
    /\ t_run (unop exp zls) r = Some [map (fun s => s * s + 1e-7) sig].
Proof.
  intros Hn Hvail Hs Hlen.
  apply create_network_Some in Hn as (g0 & g1 & Hv & _).
  rewrite Hvail in Hv. destruct Hv as (_ & _ & Hz & _).
  eexists. split; [exact Hz|].
  pose proof (log_sigma_sq_run r sig Hs Hlen) as Hrun. split; [exact Hrun|].
  unfold unop. cbn [t_run]. rewrite Hrun. cbn [mbind option_bind map].
  do 2 f_equal. rewrite map_map. apply map_ext. intros s.
  apply exp_ln. pose proof EPSILON_pos. nra.
Qed.

Lemma log_sigma_sq_defined_witness :
  exists g zls,
    create_network (demo_hp true 0) demo_inputs beta_graph
    = Some (network_nodes (demo_hp true 0) demo_inputs 0, g)
    /\ z_log_sigma_sq (network_nodes (demo_hp true 0) demo_inputs 0) = Some zls
    /\ t_run (unop exp zls) noisy_run
       = Some [map (fun s => s * s + 1e-7) (repeat 1 z_size)].
Proof.
  destruct (demo_create_network true 0) as (g & Hn & _).
  destruct (log_sigma_sq_defined (demo_hp true 0) demo_inputs beta_graph _ g
              noisy_run (repeat 1 z_size) Hn eq_refl eq_refl eq_refl)
    as (zls & Hz & _ & He).
  exists g, zls. auto.
Defined.

Lemma vail_latent_means hp i g n g' :
  create_network hp i g = Some (n, g') ->
  use_vail hp = true ->
  z_mean_expert n
  = Some (latent_mean hp (encoder_input hp (encoded_expert i) (expert_action i)
                                        (done_expert i)))
  /\ z_mean_policy n
     = Some (latent_mean hp (encoder_input hp (encoded_policy i)
                               (selected_actions (policy_model hp))
                               (done_policy i))).
Proof.
  intros Hn Hvail.
  destruct (create_network_vail _ _ _ _ _ Hn Hvail) as (id1 & id2 & He & Hp & _).
  unfold z_mean_expert, z_mean_policy. rewrite He, Hp.
  unfold encoder_nodes. rewrite Hvail. split; reflexivity.
Qed.

(** X12. On a batch that is not empty, [kl_loss] is never negative,
    whatever sigma and the two latent means are. *)
Theorem kl_loss_nonneg fw hp b i n g g1 g2 l g' r sig zme zmp E P :
  create_network hp i g = Some (n, g1) ->
  create_loss fw hp b i n g2 = Some (l, g') ->
  use_vail hp = true ->
  r_vars r !! "gail_sigma_vail" = Some (Vector sig) ->
  length sig = z_size ->
  z_mean_expert n = Some zme -> t_run zme r = Some E ->
  z_mean_policy n = Some zmp -> t_run zmp r = Some P ->
  length E = length P ->
  E <> [] ->
  exists kl v, kl_loss l = Some kl /\ kl r = Some v /\ 0 <= v.
Proof.
  intros Hn Hl Hvail Hs Hlen Hze HE Hzp HP HEP Hne.
  destruct (vail_latent_means _ _ _ _ _ Hn Hvail) as [Hme Hmp].
  rewrite Hze in Hme. rewrite Hzp in Hmp.
  injection Hme as ->. injection Hmp as ->.
  pose proof (dense_output_dim _ _ _ _ _ _ _ HE) as HdE.
  pose proof (dense_output_dim _ _ _ _ _ _ _ HP) as HdP.
  apply create_network_Some in Hn as (g0 & g3 & Hv & _).
  rewrite Hvail in Hv. destruct Hv as (_ & _ & Hz & _).
  apply create_loss_Some in Hl as (_ & _ & _ & with_kl & Hkl & _).
  rewrite Hvail in Hkl.
  destruct Hkl as (zls & zme & zmp & Hz' & Hze' & Hzp' & Hk & _).
  rewrite Hz in Hz'. rewrite Hze in Hze'. rewrite Hzp in Hzp'.
  injection Hz' as <-. injection Hze' as <-. injection Hzp' as <-.
  pose proof (log_sigma_sq_run r sig Hs Hlen) as HS.
  destruct (kl_batch_nonneg (map (fun s => ln (s * s + EPSILON)) sig) E P
              HEP Hne) as (v & Hv & Hpos).
  eexists _, v. split; [exact Hk|]. split; [|exact Hpos].
  rewrite <- Hv. apply kl_divergence_run; try assumption;
    rewrite length_map, Hlen; assumption.
Qed.

Lemma demo_latent_mean_run w (ci : tensor) x :
  t_dim ci = 1%nat ->
  t_run ci noisy_run = Some [[x]] ->
  t_run (latent_mean (demo_hp true w) ci) noisy_run = Some [repeat 0 z_size].
Proof.
  intros Hd Hx.
  destruct (unit_hidden_run (demo_hp true w) ci noisy_run x eq_refl Hd Hx
              eq_refl eq_refl eq_refl eq_refl) as [h Hh].
  unfold latent_mean.
  erewrite dense_output_run; [|exact Hh|reflexivity|reflexivity].
  apply demo_latent_apply.
Qed.

Lemma kl_loss_nonneg_witness :
  exists g l g' kl v,
    create_network (demo_hp true 0) demo_inputs beta_graph
    = Some (network_nodes (demo_hp true 0) demo_inputs 0, g)
    /\ create_loss demo_framework (demo_hp true 0) beta_nodes demo_inputs
         (network_nodes (demo_hp true 0) demo_inputs 0) g
       = Some (l, g')
    /\ kl_loss l = Some kl /\ kl noisy_run = Some v /\ 0 <= v.
Proof.
  destruct (demo_create_loss true 0) as (g & l & g' & Hn & Hl).
  destruct (vail_latent_means _ _ _ _ _ Hn eq_refl) as [Hme Hmp].
  pose proof (demo_latent_mean_run 0 (encoded_expert demo_inputs) 0
                eq_refl eq_refl) as HE.
  pose proof (demo_latent_mean_run 0 (encoded_policy demo_inputs) 0
                eq_refl eq_refl) as HP.
  destruct (kl_loss_nonneg demo_framework (demo_hp true 0) beta_nodes
              demo_inputs _ beta_graph g g l g' noisy_run (repeat 1 z_size)
              _ _ _ _ Hn Hl eq_refl eq_refl eq_refl Hme HE Hmp HP eq_refl
              ltac:(discriminate))
    as (kl & v & Hk & Hv & Hpos).
  exists g, l, g', kl, v. auto.
Defined.

(** *** Expert actions, continued *)

Lemma lookup_repeat {A} (x : A) (n k : nat) :
  repeat x n !! k = if (k <? n)%nat then Some x else None.
Proof.
  revert k. induction n as [|n IH]; intros [|k]; cbn; try reflexivity.
  rewrite IH. reflexivity.
Qed.

Lemma one_hot_row_insert depth index :
  one_hot_row depth index
  = if ((0 <=? index) && (index <? Z.of_nat depth))%Z
    then <[Z.to_nat index := 1]> (repeat 0 depth)
    else repeat 0 depth.
Proof.
  unfold one_hot_row. apply list_eq. intros k.
  rewrite list_lookup_fmap.
  destruct (decide (k < depth)%nat) as [Hk|Hk].
  - rewrite lookup_seq_lt by exact Hk. cbn [fmap option_fmap option_map Nat.add].
    destruct ((0 <=? index) && (index <? Z.of_nat depth))%Z eqn:Hr.
    + apply andb_true_iff in Hr as [H0 H1].
      apply Z.leb_le in H0. apply Z.ltb_lt in H1.
      destruct (decide (k = Z.to_nat index)) as [->|Hne].
      * rewrite list_lookup_insert_eq by (rewrite repeat_length; lia).
        rewrite Z2Nat.id by lia. rewrite Z.eqb_refl. reflexivity.
      * rewrite list_lookup_insert_ne by congruence.
        rewrite lookup_repeat. destruct (Nat.ltb_spec k depth); [|lia].
        destruct (Z.eqb_spec index (Z.of_nat k)) as [E0|_]; [|reflexivity].
        exfalso. apply Hne. rewrite E0, Nat2Z.id. reflexivity.
    + rewrite lookup_repeat. destruct (Nat.ltb_spec k depth); [|lia].
      destruct (Z.eqb_spec index (Z.of_nat k)) as [E0|_]; [|reflexivity].
      exfalso. apply andb_false_iff in Hr as [Hr|Hr].
      * apply Z.leb_gt in Hr. lia.
      * apply Z.ltb_ge in Hr. lia.
  - rewrite lookup_seq_ge by lia. cbn.
    destruct ((0 <=? index) && (index <? Z.of_nat depth))%Z.
    + symmetry. apply lookup_ge_None. rewrite length_insert, repeat_length. lia.
    + symmetry. apply lookup_ge_None. rewrite repeat_length. lia.
Qed.

Lemma imap_dims {A} (F : nat -> A -> tensor) (d : A -> nat) (l : list A) :
  (forall k a, t_dim (F k a) = d a) -> map t_dim (imap F l) = map d l.
Proof.
  revert F. induction l as [|a l IH]; intros F HF; [reflexivity|].
  cbn. rewrite HF, IH; [reflexivity|]. intros k b. apply HF.
Qed.

(** X13. For a discrete action space the expert action has as many
    features as the branch sizes sum to.  The block of a branch is zero but
    for a one at the fed index; an index outside the branch gives a block of
    zeros, not an error. *)
Theorem expert_action_blocks hp g i g' :
  make_inputs hp g = Some (i, g') ->
  vector_action_space_type (policy_model hp) <> "continuous" ->
  t_dim (expert_action i) = foldr Nat.add 0%nat (act_size (policy_model hp))
  /\ forall r rows,
       feed_action_in_expert (r_feed r) = IntActions rows ->
       Forall (fun row => length row = length (act_size (policy_model hp))) rows ->
       t_run (expert_action i) r
       = Some (map (fun row =>
                      List.concat
                        (zip_with
                           (fun index depth =>
                              if ((0 <=? index) && (index <? Z.of_nat depth))%Z
                              then <[Z.to_nat index := 1]> (repeat 0 depth)
                              else repeat 0 depth)
                           row (act_size (policy_model hp))))
                   rows).
Proof.
  intros H Hd.
  apply make_inputs_Some in H as (g1 & Ha & _).
  split.
  - revert Ha. unfold make_action_inputs.
    apply String.eqb_neq in Hd. rewrite Hd. intros Ha.
    bind_inv Ha as t g2 Hc Ha. ret_inv Ha.
    apply concat_Some in Hc as (_ & _ & ->).
    unfold concat_output. cbn [t_dim].
    rewrite (imap_dims _ (fun s => s)), map_id; reflexivity.
  - intros r rows Hfeed Hrows.
    rewrite (discrete_action_inputs _ _ _ _ _ Ha Hd r rows Hfeed Hrows).
    f_equal. apply map_ext. intros row. f_equal.
    apply zip_with_ext; [|reflexivity|reflexivity].
    intros index depth. apply one_hot_row_insert.
Qed.

Lemma expert_action_blocks_witness :
  make_inputs (demo_hp false 0) empty_graph = Some (demo_inputs, empty_graph)
  /\ t_run (expert_action demo_inputs) out_of_range_run
     = Some [[0; 0; 1; 0; 0]].
Proof.
  split; [reflexivity|].
  destruct (expert_action_blocks (demo_hp false 0) empty_graph demo_inputs
              empty_graph eq_refl ltac:(discriminate)) as [_ H].
  rewrite (H out_of_range_run [[2; 5]%Z] eq_refl); [reflexivity|].
  repeat constructor.
Defined.

(** *** Inputs that cannot be built *)

(** X14. A policy with neither vector nor visual observations leaves
    nothing to concatenate: [make_inputs] fails. *)
Theorem inputs_need_observations hp g :
  vec_obs_size (policy_model hp) = 0%nat ->
  vis_obs_size (policy_model hp) = 0%nat ->
  make_inputs hp g = None.
Proof.
  intros Hvec Hvis. unfold make_inputs, bind.
  destruct (make_action_inputs (policy_model hp) g) as [[a g1]|]; [|reflexivity].
  unfold make_observation_inputs, bind. rewrite Hvec, Hvis. reflexivity.
Qed.

Lemma inputs_need_observations_witness :
  make_inputs (plain_hp blind_policy) empty_graph = None.
Proof.
  exact (inputs_need_observations (plain_hp blind_policy) empty_graph
           eq_refl eq_refl).
Defined.

(** X15. A policy with no action size makes [make_inputs] fail, for a
    continuous action space as for a discrete one. *)
Theorem inputs_need_actions hp g :
  act_size (policy_model hp) = [] ->
  make_inputs hp g = None.
Proof.
  intros Hact. unfold make_inputs, bind, make_action_inputs. rewrite Hact.
  destruct (String.eqb _ _); reflexivity.
Qed.

Lemma inputs_need_actions_witness :
  make_inputs (plain_hp (actionless_policy "continuous")) empty_graph = None
  /\ make_inputs (plain_hp (actionless_policy "discrete")) empty_graph = None.
Proof.
  split.
  - exact (inputs_need_actions (plain_hp (actionless_policy "continuous"))
             empty_graph eq_refl).
  - exact (inputs_need_actions (plain_hp (actionless_policy "discrete"))
             empty_graph eq_refl).
Defined.

(** *** Observation streams *)

Lemma concat_single_run (t : tensor) r :
  t_run (concat_output [t]) r = t_run t r.
Proof.
  unfold concat_output. cbn [t_run mapM].
  destruct (t_run t r); reflexivity.
Qed.

Lemma make_inputs_vector_only hp g i g' :
  make_inputs hp g = Some (i, g') ->
  vis_obs_size (policy_model hp) = 0%nat ->
  let pm := policy_model hp in
  let obs := placeholder (vec_obs_size pm) (fun f => Some (feed_obs_in_expert f)) in
  let pre := fun t => if normalize pm then normalize_vector_obs pm t else t in
  g' = g
  /\ (0 < vec_obs_size pm)%nat
  /\ obs_in_expert i = Some obs
  /\ expert_visual_in i = []
  /\ encoded_expert i = concat_output [pre obs]
  /\ encoded_policy i = concat_output [pre (vector_in pm)].
Proof.
  intros H Hvis pm obs pre.
  apply make_inputs_Some in H as (g1 & Ha & Ho & _).
  assert (Hg1 : g1 = g).
  { revert Ha. unfold make_action_inputs.
    destruct (String.eqb _ _).
    - destruct (act_size (policy_model hp) !! 0%nat); [|discriminate].
      intros Ha. ret_inv Ha. reflexivity.
    - intros Ha. bind_inv Ha as t g2 Hc Ha. ret_inv Ha.
      apply concat_Some in Hc as (_ & -> & _). reflexivity. }
  subst g1. revert Ho. unfold make_observation_inputs.
  rewrite Hvis. change (0 <? 0)%nat with false. fold pm.
  destruct (0 <? vec_obs_size pm)%nat eqn:Hvec.
  - fold obs. intros Ho.
    assert (Hpre :
      (if normalize pm
       then (Some obs, [normalize_vector_obs pm obs],
             [normalize_vector_obs pm (vector_in pm)])
       else (Some obs, [obs], [vector_in pm]))
      = (Some obs, [pre obs], [pre (vector_in pm)])).
    { unfold pre. destruct (normalize pm); reflexivity. }
    rewrite Hpre in Ho. cbn [fst snd] in Ho.
    bind_inv Ho as vp g2 Hvp Ho. ret_inv Hvp. cbn [fst snd] in Ho.
    bind_inv Ho as ee g3 Hee Ho. bind_inv Ho as ep g4 Hep Ho. ret_inv Ho.
    apply concat_Some in Hee as (_ & -> & ->).
    apply concat_Some in Hep as (_ & -> & ->).
    apply Nat.ltb_lt in Hvec.
    split_and!; congruence.
  - intros Ho. cbn [fst snd] in Ho.
    bind_inv Ho as vp g2 Hvp Ho. ret_inv Hvp.
Qed.

(** X16. With vector observations only, the encoded expert observation
    is the fed expert observation and the encoded policy observation is the
    vector input of the policy, both through [normalize_vector_obs] when the
    policy normalizes and as they are otherwise. *)
Theorem vector_observation_inputs hp g i g' :
  make_inputs hp g = Some (i, g') ->
  vis_obs_size (policy_model hp) = 0%nat ->
  let pm := policy_model hp in
  let obs := placeholder (vec_obs_size pm) (fun f => Some (feed_obs_in_expert f)) in
  let pre := fun t => if normalize pm then normalize_vector_obs pm t else t in
  obs_in_expert i = Some obs
  /\ (forall r, t_run (encoded_expert i) r = t_run (pre obs) r)
  /\ (forall r, t_run (encoded_policy i) r = t_run (pre (vector_in pm)) r)
  /\ t_dim (encoded_expert i) = t_dim (pre obs)
  /\ t_dim (encoded_policy i) = t_dim (pre (vector_in pm))
  /\ (normalize pm = false ->
      forall r, has_dim (vec_obs_size pm) (feed_obs_in_expert (r_feed r)) = true ->
                t_run (encoded_expert i) r = Some (feed_obs_in_expert (r_feed r))).
Proof.
  intros H Hvis pm obs pre.
  destruct (make_inputs_vector_only hp g i g' H Hvis)
    as (_ & _ & Ho & _ & He & Hp).
  fold pm in Ho, He, Hp. fold obs in Ho, He. fold pre in He, Hp.
  rewrite He, Hp. split_and!.
  - exact Ho.
  - intros r. apply concat_single_run.
  - intros r. apply concat_single_run.
  - unfold concat_output, pre. cbn [t_dim map fold_right]. lia.
  - unfold concat_output, pre. cbn [t_dim map fold_right]. lia.
  - intros Hn r Hdim. rewrite concat_single_run. unfold pre. rewrite Hn.
    unfold obs, placeholder. cbn [t_run mbind option_bind]. rewrite Hdim.
    reflexivity.
Qed.

Lemma vector_observation_inputs_witness :
  make_inputs (demo_hp false 0) beta_graph = Some (demo_inputs, beta_graph)
  /\ t_run (encoded_expert demo_inputs) noisy_run = Some [[0]].
Proof.
  split; [reflexivity|].
  destruct (vector_observation_inputs (demo_hp false 0) beta_graph demo_inputs
              beta_graph eq_refl eq_refl)
    as (_ & He & _).
  rewrite He. reflexivity.
Defined.

(** *** Visual observations *)

Lemma visual_encoders_Some pm size l g v p e g' :
  visual_encoders pm size l g = Some ((v, p, e), g') ->
  length v = length l /\ length p = length l /\ length e = length l
  /\ Forall (fun k => is_Some (camera_resolutions pm !! k)
                      /\ is_Some (visual_in pm !! k)) l.
Proof.
  revert g v p e. induction l as [|k l IH]; intros g v p e H.
  - cbn in H. ret_inv H. repeat split; constructor.
  - cbn [visual_encoders] in H.
    destruct (camera_resolutions pm !! k) as [res|] eqn:Hres; [|discriminate].
    destruct (visual_in pm !! k) as [pv|] eqn:Hpv; [|discriminate].
    bind_inv H as vi g1 Hvi H.
    bind_inv H as ep g2 Hep H.
    bind_inv H as ee g3 Hee H.
    bind_inv H as more g4 Hmore H.
    destruct more as [[mv mp] me]. ret_inv H.
    apply IH in Hmore as (Hv & Hp & He & Hall).
    cbn [length fst snd]. rewrite Hv, Hp, He.
    repeat split; try reflexivity. constructor; [|exact Hall].
    rewrite Hres, Hpv. split; eauto.
Qed.

(** X17. [make_inputs] creates one expert visual input per visual
    observation, and succeeds only if the policy has a camera resolution and
    a visual input for each of them. *)
Theorem visual_inputs_per_camera hp g i g' :
  make_inputs hp g = Some (i, g') ->
  let pm := policy_model hp in
  length (expert_visual_in i) = vis_obs_size pm
  /\ (vis_obs_size pm <= length (camera_resolutions pm))%nat
  /\ (vis_obs_size pm <= length (visual_in pm))%nat.
Proof.
  intros H pm.
  apply make_inputs_Some in H as (g1 & _ & Ho & _).
  unfold make_observation_inputs in Ho. fold pm in Ho. cbv zeta in Ho.
  bind_inv Ho as vp g2 Hvp Ho.
  bind_inv Ho as ee g3 Hee Ho. bind_inv Ho as ep g4 Hep Ho. ret_inv Ho.
  destruct (0 <? vis_obs_size pm)%nat eqn:Hvis.
  - bind_inv Hvp as enc g5 Henc Hvp.
    bind_inv Hvp as hp0 g6 Hhp Hvp. bind_inv Hvp as he g7 Hhe Hvp.
    ret_inv Hvp. destruct enc as [[v p] e]. cbn [fst snd] in *.
    apply visual_encoders_Some in Henc as (Hv & _ & _ & Hall).
    rewrite length_seq in Hv. split; [congruence|].
    apply Nat.ltb_lt in Hvis. rewrite Forall_forall in Hall.
    destruct (Hall (vis_obs_size pm - 1)%nat) as [Hc Hi].
    { apply elem_of_seq. lia. }
    apply lookup_lt_is_Some_1 in Hc, Hi. lia.
  - ret_inv Hvp. cbn [fst snd] in *. apply Nat.ltb_ge in Hvis.
    assert (Hz : vis_obs_size pm = 0%nat) by lia. rewrite Hz.
    split; [|lia].
    match goal with Hx : _ = expert_visual_in i |- _ => rewrite <- Hx end.
    reflexivity.
Qed.

Lemma visual_inputs_per_camera_witness :
  exists i g',
    make_inputs (plain_hp (camera_policy 2 2)) empty_graph = Some (i, g')
    /\ length (expert_visual_in i) = 2%nat.
Proof.
  assert (H : exists i g',
             make_inputs (plain_hp (camera_policy 2 2)) empty_graph
             = Some (i, g')).
  { eexists _, _. reflexivity. }
  destruct H as (i & g' & H). exists i, g'. split; [exact H|].
  apply (visual_inputs_per_camera _ _ _ _ H).
Defined.

(** *** The variables of the model *)

(** X18. Construction only adds to the graph: a variable that the graph
    holds before [__init__] is there, unchanged, after it. *)
Theorem init_keeps_variables fw hp g m g' :
  policy_monotone (policy_model hp) ->
  init fw hp g = Some (m, g') ->
  forall name v, g_variables g !! name = Some v ->
                 g_variables g' !! name = Some v.
Proof.
  intros Hpm H name v Hv.
  apply init_Some in H as (g1 & g2 & g3 & Hb & Hi & Hn & Hl & _).
  eapply lookup_weaken; [exact Hv|].
  etrans; [eapply monotone_make_beta; eassumption|].
  etrans; [eapply monotone_make_inputs; eassumption|].
  etrans; [eapply monotone_create_network; eassumption|].
  eapply monotone_create_loss; eassumption.
Qed.


Lemma create_loss_registry fw hp b i n g l g' :
  create_loss fw hp b i n g = Some (l, g') ->
  g_variables g' = g_variables g.
Proof.
  intros H.
  apply create_loss_Some in H as (_ & _ & _ & with_kl & _ & Hgp & _).
  destruct (Rlt_dec 0 (gradient_penalty_weight hp)).
  - destruct Hgp as (gm & Hgm & _).
    apply create_gradient_magnitude_Some in Hgm as (zs & un & _ & _ & Hv & _).
    exact Hv.
  - destruct Hgp as [-> _]. reflexivity.
Qed.

Lemma create_network_registry hp i g n g' :
  create_network hp i g = Some (n, g') ->
  let in_dim :=
    t_dim (encoder_input hp (encoded_expert i) (expert_action i) (done_expert i)) in
  let est_dim :=
    estimate_input_dim hp (vector_variable "gail_sigma_vail" z_size)
                       (placeholder_1 feed_use_noise) in
  g_variables g'
  = declare (encoder_variables hp in_dim est_dim)
      (if use_vail hp
       then <["gail_sigma_vail" := MkVariable [z_size] true ones_initializer]>
              (g_variables g)
       else g_variables g).
Proof.
  intros H in_dim est_dim.
  apply create_network_Some in H as (g0 & g1 & Hv & _ & He & Hp & _).
  apply create_encoder_Some in He as (zs & un & Ho & _ & _ & _ & Hg1).
  apply create_encoder_Some in Hp as (zs' & un' & _ & _ & _ & Hg' & _).
  cbv zeta in Hg1. rewrite Hg', Hg1. unfold est_dim, estimate_input_dim.
  destruct (use_vail hp).
  - destruct Hv as (Hzs & Hun & _ & _ & Hg0).
    destruct (Ho eq_refl) as [Ezs Eun].
    rewrite Hzs in Ezs. rewrite Hun in Eun.
    injection Ezs as <-. injection Eun as <-.
    rewrite Hg0. reflexivity.
  - destruct Hv as (_ & _ & _ & ->). reflexivity.
Qed.






(** *** Construction succeeds, continued *)

Lemma interp_node_dim op (e p : tensor) :
  t_dim p = t_dim e -> (1 <= t_dim e)%nat ->
  t_dim (interp_node op e p) = t_dim e.
Proof.
  intros Hp He. unfold interp_node, add, mul, sub, binop, constant, random_like.
  cbn [t_dim]. lia.
Qed.

Lemma init_run fw hp g i g2 :
  let pm := policy_model hp in
  let in_dim :=
    t_dim (encoder_input hp (encoded_expert i) (expert_action i) (done_expert i)) in
  let est_dim := if use_vail hp then z_size else h_size hp in
  g_variables g !! "gail_beta" = None ->
  make_inputs hp
    (Graph (<["gail_beta" := MkVariable [] false ones_initializer]>
              (g_variables g))
           (g_random_ops g))
  = Some (i, g2) ->
  (use_vail hp = true -> g_variables g2 !! "gail_sigma_vail" = None) ->
  undeclared g2 (encoder_variables hp in_dim est_dim) ->
  t_dim (encoded_policy i) = t_dim (encoded_expert i) ->
  (1 <= t_dim (encoded_expert i))%nat ->
  (use_actions hp = true ->
   t_dim (selected_actions pm) = t_dim (expert_action i)
   /\ (1 <= t_dim (expert_action i))%nat) ->
  exists l g',
    init fw hp g
    = Some (Model hp beta_nodes i (network_nodes hp i (g_random_ops g2)) l, g').
Proof.
  intros pm in_dim est_dim Hbeta Hi Hsigma Hund Hobs Hpos Hact.
  set (zs := vector_variable "gail_sigma_vail" z_size).
  set (un := placeholder_1 feed_use_noise).
  assert (Hest : estimate_input_dim hp zs un = est_dim).
  { unfold est_dim, estimate_input_dim. destruct (use_vail hp); reflexivity. }
  pose proof (make_inputs_Some _ _ _ _ Hi) as (_ & _ & _ & Hde & Hdp).
  assert (Hdim : t_dim (encoder_input hp (encoded_policy i)
                          (selected_actions pm) (done_policy i)) = in_dim).
  { unfold in_dim, encoder_input. destruct (use_actions hp); [|exact Hobs].
    destruct (Hact eq_refl) as [Ha _]. unfold concat_output.
    cbn [t_dim map fold_right]. rewrite Hobs, Ha, Hde, Hdp. reflexivity. }
  assert (Hinterp :
    t_dim (encoder_input hp
             (interp_node (g_random_ops g2 + (if use_vail hp then 2 else 0))
                          (encoded_expert i) (encoded_policy i))
             (interp_node (g_random_ops g2 + (if use_vail hp then 2 else 0) + 1)
                          (expert_action i) (selected_actions pm))
             (interp_node (g_random_ops g2 + (if use_vail hp then 2 else 0) + 2)
                          (done_expert i) (done_policy i)))
    = in_dim).
  { unfold in_dim, encoder_input. destruct (use_actions hp).
    - destruct (Hact eq_refl) as [Ha Hpa]. unfold concat_output.
      cbn [t_dim map fold_right].
      rewrite !interp_node_dim; try assumption; try reflexivity.
      + rewrite Hde, Hdp. reflexivity.
      + rewrite Hde. cbn [t_dim placeholder]. lia.
    - apply interp_node_dim; assumption. }
  pose proof (create_network_run hp i g2) as Hn. cbv zeta in Hn.
  fold zs un in Hn. fold pm in Hn, Hinterp. rewrite Hest in Hn.
  specialize (Hn Hsigma Hund Hdim).
  destruct (create_loss_succeeds fw hp beta_nodes i
              (network_nodes hp i (g_random_ops g2)) zs un
              (Graph (declare (encoder_variables hp in_dim est_dim)
                        (if use_vail hp
                         then <["gail_sigma_vail"
                                := MkVariable [z_size] true ones_initializer]>
                                (g_variables g2)
                         else g_variables g2))
                     (g_random_ops g2 + (if use_vail hp then 2 else 0))))
    as (l & g' & Hl).
  - intros Hv. unfold network_nodes, z_mean_expert, z_mean_policy, encoder_nodes.
    rewrite Hv. cbn [z_sigma use_noise z_log_sigma_sq GAILModel.expert
                     GAILModel.policy z_mean].
    fold zs un. split_and!; eauto.
  - intros _. cbn [g_random_ops]. fold pm. rewrite Hinterp, Hest.
    apply declared_after_declare.
  - exists l, g'. unfold init.
    rewrite (bind_run _ _ _ _ _ (make_beta_run g Hbeta)).
    rewrite (bind_run _ _ _ _ _ Hi).
    rewrite (bind_run _ _ _ _ _ Hn).
    rewrite (bind_run _ _ _ _ _ Hl). reflexivity.
Qed.






Lemma demo_init_beside_policy :
  exists l g',
    init demo_framework (demo_hp false 0) policy_graph
    = Some (Model (demo_hp false 0) beta_nodes demo_inputs
                  (network_nodes (demo_hp false 0) demo_inputs 0) l, g').
Proof.
  apply (init_run demo_framework (demo_hp false 0) policy_graph demo_inputs
           (Graph (<["gail_beta" := MkVariable [] false ones_initializer]>
                     (g_variables policy_graph)) 0));
    try reflexivity; try discriminate.
  - unfold undeclared, encoder_variables, layer_variables.
    cbn [use_vail demo_hp app]. norm_names. repeat constructor.
Qed.

Lemma init_keeps_variables_witness :
  exists m g',
    init demo_framework (demo_hp false 0) policy_graph = Some (m, g')
    /\ g_variables g' !! "policy/value"
       = Some (MkVariable [1%nat] true zeros_initializer).
Proof.
  destruct demo_init_beside_policy as (l & g' & H).
  eexists _, g'. split; [exact H|].
  exact (init_keeps_variables demo_framework (demo_hp false 0) policy_graph
           _ g' demo_policy_monotone H "policy/value" _ eq_refl).
Defined.

(** *** The optimizer step, continued *)

Lemma network_weights_trainable hp i g n g' name :
  create_network hp i g = Some (n, g') ->
  In name (discriminator_weights hp) ->
  exists v, g_variables g' !! name = Some v /\ v_trainable v = true.
Proof.
  intros H Hin. apply create_network_registry in H. rewrite H. clear H.
  unfold discriminator_weights in Hin.
  unfold declare, encoder_variables, layer_variables. norm_names.
  destruct (use_vail hp); cbn [app In foldl fst snd] in *;
    repeat (destruct Hin as [<-|Hin];
            [eexists; split;
             [rewrite ?lookup_insert_ne by discriminate; apply lookup_insert_eq
             |reflexivity]|]);
    contradiction.
Qed.

(** X21. A step of [update_batch] gives every variable of the
    encoder's layers, and [gail_sigma_vail] when the bottleneck is on, the
    value that the optimizer computes for it. *)
Theorem optimizer_updates_weights fw hp g m g' r vars' name x :
  init fw hp g = Some (m, g') ->
  update_batch (losses m) r = Some vars' ->
  In name (discriminator_weights hp) ->
  r_vars r !! name = Some x ->
  vars' !! name
  = Some (adam_apply fw (learning_rate hp) (loss (losses m)) r name x).
Proof.
  intros H Hu Hin Hx.
  apply init_Some in H as (g1 & g2 & g3 & _ & _ & Hn & Hl & _).
  destruct (network_weights_trainable _ _ _ _ _ name Hn Hin) as (v & Hv & Ht).
  rewrite <- (create_loss_registry _ _ _ _ _ _ _ _ Hl) in Hv.
  apply create_loss_Some in Hl as (_ & _ & _ & _ & _ & _ & Hmin).
  apply minimize_Some in Hmin as [_ Hdef]. rewrite Hdef in Hu.
  destruct (loss (losses m) r); [|discriminate].
  cbn [mbind option_bind] in Hu. injection Hu as <-.
  rewrite map_lookup_imap, Hx. cbn [mbind option_bind].
  assert (Htr : trainable_variables g' !! name = Some v).
  { unfold trainable_variables. apply map_lookup_filter_Some. auto. }
  rewrite Htr. reflexivity.
Qed.

Lemma demo_update_step :
  exists m g' vars',
    init demo_framework (demo_hp false 0) empty_graph = Some (m, g')
    /\ update_batch (losses m) plain_run = Some vars'.
Proof.
  destruct demo_init as (g & l & g' & Hm & Hl).
  pose proof (create_loss_Some _ _ _ _ _ _ _ _ Hl)
    as (_ & _ & Hd & with_kl & Hkl & Hgp & Hmin).
  cbn [use_vail demo_hp gradient_penalty_weight] in Hkl, Hgp.
  destruct Hkl as [_ ->].
  destruct (Rlt_dec 0 0) as [Hlt|_]; [lra|]. destruct Hgp as [_ Hloss].
  destruct (plain_estimate_run (encoded_expert demo_inputs) 0 eq_refl eq_refl)
    as (e & He & Hre).
  destruct (plain_estimate_run (encoded_policy demo_inputs) 0 eq_refl eq_refl)
    as (q & Hq & Hrq).
  pose proof EPSILON_pos as Heps.
  assert (Hrun : loss l plain_run = base_loss [e] [q]).
  { rewrite Hloss, Hd. apply adversarial_loss_run.
    - exact He.
    - exact Hq.
    - reflexivity.
    - repeat constructor. lra.
    - repeat constructor. lra. }
  pose proof (minimize_Some _ _ _ _ _ _ Hmin) as [_ Hu].
  eexists _, g', _. split; [exact Hm|].
  cbn [losses]. rewrite Hu, Hrun. reflexivity.
Qed.

Lemma optimizer_updates_weights_witness :
  exists m g' vars',
    init demo_framework (demo_hp false 0) empty_graph = Some (m, g')
    /\ update_batch (losses m) plain_run = Some vars'
    /\ vars' !! "GAIL_model/gail_d_estimate/bias" = Some (Vector [0 - 3e-4]).
Proof.
  destruct demo_update_step as (m & g' & vars' & Hm & Hu).
  exists m, g', vars'. split; [exact Hm|]. split; [exact Hu|].
  rewrite (optimizer_updates_weights demo_framework (demo_hp false 0)
             empty_graph m g' plain_run vars'
             "GAIL_model/gail_d_estimate/bias" (Vector [0]) Hm Hu);
    [reflexivity| |reflexivity].
  cbn. auto 10.
Defined.

(** *** What the estimate reads *)

Lemma random_like_run_congr id (like : tensor) r1 r2 :
  r_normal r1 = r_normal r2 ->
  t_run like r1 = t_run like r2 ->
  t_run (random_like r_normal id like) r1
  = t_run (random_like r_normal id like) r2.
Proof.
  intros Hn Hl. unfold random_like. cbn [t_run]. rewrite Hl, Hn. reflexivity.
Qed.

Lemma binop_run_congr f (a b : tensor) r1 r2 :
  t_run a r1 = t_run a r2 -> t_run b r1 = t_run b r2 ->
  t_run (binop f a b) r1 = t_run (binop f a b) r2.
Proof. intros Ha Hb. unfold binop. cbn [t_run]. rewrite Ha, Hb. reflexivity. Qed.

(** X22. Without [use_actions] the estimates and the reward do not read
    the actions or the done flags: two runs that agree on the variables, the
    noise and the encoded observations give the same values. *)
Theorem estimate_ignores_actions hp i g n g' r1 r2 :
  create_network hp i g = Some (n, g') ->
  use_actions hp = false ->
  r_vars r1 = r_vars r2 ->
  r_normal r1 = r_normal r2 ->
  feed_use_noise (r_feed r1) = feed_use_noise (r_feed r2) ->
  t_run (encoded_expert i) r1 = t_run (encoded_expert i) r2 ->
  t_run (encoded_policy i) r1 = t_run (encoded_policy i) r2 ->
  t_run (expert_estimate n) r1 = t_run (expert_estimate n) r2
  /\ t_run (policy_estimate n) r1 = t_run (policy_estimate n) r2
  /\ intrinsic_reward n r1 = intrinsic_reward n r2.
Proof.
  intros Hn Hua Hv Hnorm Hgate Hee Hep.
  pose proof (intrinsic_reward_run _ _ _ _ _ r1 Hn) as Hr1.
  pose proof (intrinsic_reward_run _ _ _ _ _ r2 Hn) as Hr2.
  apply create_network_Some in Hn as (g0 & g1 & Hvail & _ & He & Hp & Hs & _).
  apply create_encoder_Some in He as (zs & un & Ho & He & _).
  apply create_encoder_Some in Hp as (zs' & un' & Ho' & Hp & _).
  assert (Hzs : use_vail hp = true ->
                zs = vector_variable "gail_sigma_vail" z_size
                /\ un = placeholder_1 feed_use_noise
                /\ zs' = zs /\ un' = un).
  { intros Hvl. rewrite Hvl in Hvail. destruct Hvail as (Hz & Hu & _).
    destruct (Ho Hvl) as [E1 E2]. destruct (Ho' Hvl) as [E3 E4].
    rewrite Hz in E1, E3. rewrite Hu in E2, E4.
    injection E1 as <-. injection E2 as <-. injection E3 as <-.
    injection E4 as <-. auto. }
  assert (Hest : t_run (expert_estimate n) r1 = t_run (expert_estimate n) r2
                 /\ t_run (policy_estimate n) r1 = t_run (policy_estimate n) r2).
  { unfold expert_estimate, policy_estimate. rewrite He, Hp.
    unfold encoder_nodes, encoder_input. rewrite Hua.
    destruct (latent_mean_run_eq hp _ r1 r2 Hv Hee) as [Hlme Hhe].
    destruct (latent_mean_run_eq hp _ r1 r2 Hv Hep) as [Hlmp Hhp].
    destruct (use_vail hp) eqn:Hvl; cbn [estimate]; unfold estimate_layer.
    - destruct (Hzs eq_refl) as (-> & -> & -> & ->).
      assert (Hun : t_run (placeholder_1 feed_use_noise) r1
                    = t_run (placeholder_1 feed_use_noise) r2).
      { unfold placeholder_1. cbn [t_run]. rewrite Hgate. reflexivity. }
      pose proof (sigma_run_eq r1 r2 Hv) as Hsig.
      split; apply dense_output_run_eq; try assumption; try reflexivity;
        unfold add, mul; repeat apply binop_run_congr; try assumption;
        apply random_like_run_congr; assumption.
    - split; apply dense_output_run_eq; try assumption; reflexivity. }
  destruct Hest as [He1 Hp1]. split; [exact He1|]. split; [exact Hp1|].
  rewrite Hr1, Hr2, Hs. unfold reshape_flat. rewrite Hp1. reflexivity.
Qed.

Lemma estimate_ignores_actions_witness :
  exists g,
    create_network (demo_hp false 0) demo_inputs beta_graph
    = Some (network_nodes (demo_hp false 0) demo_inputs 0, g)
    /\ feed_action_in_expert (r_feed plain_run)
       <> feed_action_in_expert (r_feed other_actions_run)
    /\ intrinsic_reward (network_nodes (demo_hp false 0) demo_inputs 0) plain_run
       = intrinsic_reward (network_nodes (demo_hp false 0) demo_inputs 0)
                          other_actions_run.
Proof.
  destruct (demo_create_network false 0) as (g & Hn & _).
  exists g. split; [exact Hn|]. split; [discriminate|].
  apply (estimate_ignores_actions (demo_hp false 0) demo_inputs beta_graph _ g
           plain_run other_actions_run Hn); reflexivity.
Defined.

(** *** The raw input of the encoder *)

(** X23. The raw input of the encoder is the state alone without
    [use_actions]; with it, each row is the state, then the action, then
    the done flag, and the three batches must have one size. *)
Theorem encoder_input_layout hp ozs oun s a d reuse g e g' :
  create_encoder hp ozs oun s a d reuse g = Some (e, g') ->
  (use_actions hp = false -> concat_input e = s)
  /\ (use_actions hp = true ->
      t_dim (concat_input e) = (t_dim s + (t_dim a + (t_dim d + 0)))%nat
      /\ forall r S A D,
           t_run s r = Some S -> t_run a r = Some A -> t_run d r = Some D ->
           t_run (concat_input e) r
           = if Nat.eqb (length A) (length D) && Nat.eqb (length S) (length A)
             then Some (zip_with app S (zip_with app A D))
             else None).
Proof.
  intros H. apply create_encoder_Some in H as (zs & un & _ & -> & _).
  assert (Hci : concat_input (encoder_nodes hp zs un s a d (g_random_ops g))
                = encoder_input hp s a d).
  { unfold encoder_nodes. destruct (use_vail hp); reflexivity. }
  rewrite Hci. unfold encoder_input. split; intros ->; [reflexivity|].
  split; [reflexivity|].
  intros r S A D HS HA HD. unfold concat_output. cbn [t_run mapM].
  rewrite HS, HA, HD. cbn [mbind option_bind fmap option_fmap option_map
                              mret option_ret concat_rows].
  unfold hcat.
  destruct (Nat.eqb_spec (length A) (length D)) as [HAD|HAD];
    cbn [mbind option_bind andb]; [|reflexivity].
  rewrite length_zip_with, <- HAD, Nat.min_id. reflexivity.
Qed.

Lemma encoder_input_layout_witness :
  exists e g',
    create_encoder action_hp None None
      (encoded_expert demo_inputs) (expert_action demo_inputs)
      (done_expert demo_inputs) false beta_graph = Some (e, g')
    /\ t_run (concat_input e) noisy_run = Some [[0; 0; 1; 0; 1; 0; 0]].
Proof.
  pose proof (create_encoder_fresh action_hp None None (constant 0) (constant 0)
                (encoded_expert demo_inputs) (expert_action demo_inputs)
                (done_expert demo_inputs) beta_graph
                ltac:(discriminate)) as H.
  assert (Hund : undeclared beta_graph
                   (encoder_variables action_hp
                      (t_dim (encoder_input action_hp
                                (encoded_expert demo_inputs)
                                (expert_action demo_inputs)
                                (done_expert demo_inputs)))
                      (estimate_input_dim action_hp (constant 0) (constant 0)))).
  { unfold undeclared, encoder_variables, layer_variables.
    cbn [use_vail action_hp app]. norm_names. repeat constructor. }
  specialize (H Hund).
  destruct (encoder_input_layout _ _ _ _ _ _ _ _ _ _ H) as [_ Hl].
  destruct (Hl eq_refl) as [_ Hrun].
  eexists _, _. split; [exact H|].
  rewrite (Hrun noisy_run [[0]] [[0; 1; 0; 1; 0]] [[0]] eq_refl eq_refl eq_refl).
  reflexivity.
Defined.

(** *** Interpolated inputs *)

Lemma Forall2_imap_l {A B} (P : B -> A -> Prop) (F : nat -> A -> B) (l : list A) :
  (forall k a, l !! k = Some a -> P (F k a) a) -> Forall2 P (imap F l) l.
Proof.
  intros H. apply Forall2_same_length_lookup_2; [apply length_imap|].
  intros k x y Hx Hy. rewrite list_lookup_imap, Hy in Hx. cbn in Hx.
  injection Hx as <-. apply H, Hy.
Qed.

Lemma convex_between u a b :
  0 <= u <= 1 -> Rmin a b <= u * a + (1 - u) * b <= Rmax a b.
Proof.
  intros Hu. unfold Rmin, Rmax. destruct (Rle_dec a b); nra.
Qed.

(** X24. With draws in [[0, 1]], every entry of an interpolated input
    lies between the entries of the expert input and of the policy input at
    its position. *)
Theorem interpolation_between pairs g nodes g' k e p r E P :
  interpolate pairs g = Some (nodes, g') ->
  pairs !! k = Some (e, p) ->
  t_run e r = Some E ->
  t_run p r = Some P ->
  same_shape E P ->
  (forall i j, 0 <= r_uniform r (g_random_ops g + k) i j <= 1) ->
  exists t X,
    nodes !! k = Some t
    /\ t_run t r = Some X
    /\ Forall2 (fun row ep =>
                  Forall2 (fun x xy => Rmin xy.1 xy.2 <= x <= Rmax xy.1 xy.2)
                          row (zip ep.1 ep.2))
               X (zip E P).
Proof.
  intros H Hk He Hp Hs Hu. rewrite interpolate_run in H. injection H as <- <-.
  eexists _, _. split.
  { rewrite list_lookup_imap, Hk. reflexivity. }
  cbn [fst snd]. split; [apply interp_node_run; eassumption|].
  unfold interpolation. apply Forall2_imap_l. intros i ep _.
  apply Forall2_imap_l. intros j xy _. apply convex_between, Hu.
Qed.

Lemma interpolation_between_witness :
  exists nodes g' t X,
    interpolate
      (zip [encoded_expert demo_inputs; expert_action demo_inputs;
            done_expert demo_inputs]
           [encoded_policy demo_inputs; selected_actions demo_policy;
            done_policy demo_inputs])
      empty_graph
    = Some (nodes, g')
    /\ nodes !! 1%nat = Some t
    /\ t_run t mixed_run = Some X
    /\ Forall2 (fun row ep =>
                  Forall2 (fun x xy => Rmin xy.1 xy.2 <= x <= Rmax xy.1 xy.2)
                          row (zip ep.1 ep.2))
               X (zip [[0; 1; 0; 1; 0]] [[1; 0; 0; 0; 1]]).
Proof.
  pose proof (interpolate_run
                (zip [encoded_expert demo_inputs; expert_action demo_inputs;
                      done_expert demo_inputs]
                     [encoded_policy demo_inputs; selected_actions demo_policy;
                      done_policy demo_inputs])
                empty_graph) as H.
  destruct (interpolation_between _ _ _ _ 1%nat (expert_action demo_inputs)
              (selected_actions demo_policy) mixed_run
              [[0; 1; 0; 1; 0]] [[1; 0; 0; 0; 1]] H eq_refl eq_refl eq_refl)
    as (t & X & Ht & HX & Hb).
  - repeat constructor.
  - intros i j. cbn. unfold mixed_draws. destruct (Nat.eqb j 0); lra.
  - eexists _, _, t, X. split; [exact H|]. auto.
Defined.

(** *** The sampled latent code *)

Lemma random_like_rows draws id (like : tensor) r M n :
  t_run like r = Some M ->
  has_dim n M = true ->
  t_run (random_like draws id like) r
  = Some (imap (fun i row => imap (fun j (_ : R) => draws r id i j) row) M)
  /\ Forall (fun row => length row = n)
            (imap (fun i row => imap (fun j (_ : R) => draws r id i j) row) M).
Proof.
  intros HM Hdim. unfold random_like. cbn [t_run]. rewrite HM. split; [reflexivity|].
  apply has_dim_Forall in Hdim. rewrite Forall_forall in *.
  intros row Hin. apply list_elem_of_lookup in Hin as [k Hk].
  rewrite list_lookup_imap in Hk.
  destruct (M !! k) as [m|] eqn:Hm; [|discriminate]. cbn in Hk.
  injection Hk as <-. rewrite length_imap. apply Hdim.
  eapply list_elem_of_lookup_2. exact Hm.
Qed.

(** X25. With the bottleneck on, the sampled code is, entry by entry,
    [z_mean + z_sigma * noise * use_noise], with sigma repeated over the
    batch and the noise level over every entry. *)
Theorem sampled_code_value hp ozs oun s a d reuse g e g' :
  create_encoder hp ozs oun s a d reuse g = Some (e, g') ->
  use_vail hp = true ->
  exists zs un zm nz zt,
    ozs = Some zs /\ oun = Some un
    /\ z_mean e = Some zm /\ noise e = Some nz /\ z e = Some zt
    /\ forall r sig u M,
         t_run zs r = Some [sig] ->
         length sig = z_size ->
         t_run un r = Some [[u]] ->
         t_run zm r = Some M ->
         let N := imap (fun i row =>
                          imap (fun j (_ : R) => r_normal r (g_random_ops g) i j)
                               row) M in
         t_run nz r = Some N
         /\ t_run zt r
            = Some (zip_with
                      (fun m n =>
                         zip_with Rplus m
                                  (map (fun x => x * u) (zip_with Rmult sig n)))
                      M N).
Proof.
  intros H Hvail.
  apply create_encoder_Some in H as (zs & un & Ho & -> & _).
  destruct (Ho Hvail) as [-> ->].
  unfold encoder_nodes. rewrite Hvail. cbn [z_mean noise z].
  eexists zs, un, _, _, _. do 5 (split; [reflexivity|]).
  intros r sig u M Hzs Hlen Hun HM.
  set (N := imap (fun i row =>
                    imap (fun j (_ : R) => r_normal r (g_random_ops g) i j) row)
                 M).
  pose proof (dense_output_dim _ _ _ _ _ _ _ HM) as Hdim.
  destruct (random_like_rows r_normal (g_random_ops g) _ r M z_size HM Hdim)
    as [HN HNrows].
  fold N in HN, HNrows. split; [exact HN|].
  unfold add, mul, binop. cbn [t_run].
  rewrite HM, Hzs, HN, Hun. cbn [mbind option_bind].
  rewrite bcast_mat_row_l.
  2:{ eapply Forall_impl; [exact HNrows|]. cbv beta. intros; lia. }
  cbn [mbind option_bind]. rewrite bcast_mat_const_r. cbn [mbind option_bind].
  rewrite bcast_mat_same.
  2:{ apply has_dim_Forall in Hdim.
      apply Forall2_same_length_lookup_2.
      { rewrite !length_map. unfold N. rewrite length_imap. reflexivity. }
      intros k m t Hm Ht.
      rewrite !list_lookup_fmap in Ht.
      destruct (N !! k) as [n|] eqn:Hn; [|discriminate]. cbn in Ht.
      injection Ht as <-.
      rewrite length_map, length_zip_with.
      rewrite Forall_forall in Hdim, HNrows.
      rewrite (Hdim m) by (eapply list_elem_of_lookup_2; exact Hm).
      rewrite (HNrows n) by (eapply list_elem_of_lookup_2; exact Hn). lia. }
  f_equal. rewrite !zip_with_map_r. reflexivity.
Qed.

Lemma sampled_code_value_witness :
  exists e g' nz zt N Z,
    create_encoder (demo_hp true 0)
      (Some (vector_variable "gail_sigma_vail" z_size))
      (Some (placeholder_1 feed_use_noise))
      (encoded_expert demo_inputs) (expert_action demo_inputs)
      (done_expert demo_inputs) false sigma_graph = Some (e, g')
    /\ noise e = Some nz /\ z e = Some zt
    /\ t_run nz noisy_run = Some N /\ t_run zt noisy_run = Some Z.
Proof.
  assert (Hund : undeclared sigma_graph
                   (encoder_variables (demo_hp true 0)
                      (t_dim (encoder_input (demo_hp true 0)
                                (encoded_expert demo_inputs)
                                (expert_action demo_inputs)
                                (done_expert demo_inputs)))
                      (estimate_input_dim (demo_hp true 0)
                         (vector_variable "gail_sigma_vail" z_size)
                         (placeholder_1 feed_use_noise)))).
  { unfold undeclared, encoder_variables, layer_variables.
    cbn [use_vail demo_hp app]. norm_names. repeat constructor. }
  pose proof (create_encoder_fresh (demo_hp true 0) _ _
                (vector_variable "gail_sigma_vail" z_size)
                (placeholder_1 feed_use_noise)
                (encoded_expert demo_inputs) (expert_action demo_inputs)
                (done_expert demo_inputs) sigma_graph
                (fun _ => conj eq_refl eq_refl) Hund) as H.
  destruct (sampled_code_value _ _ _ _ _ _ _ _ _ _ H eq_refl)
    as (zs & un & zm & nz & zt & Hzs & Hun & Hzm & Hnz & Hzt & Hrun).
  injection Hzs as <-. injection Hun as <-.
  assert (HM : t_run zm noisy_run = Some [repeat 0 z_size]).
  { unfold encoder_nodes in Hzm. cbn [use_vail demo_hp z_mean] in Hzm.
    injection Hzm as <-.
    apply (demo_latent_mean_run 0 (encoded_expert demo_inputs) 0);
      reflexivity. }
  destruct (Hrun noisy_run (repeat 1 z_size) 1 [repeat 0 z_size]
              eq_refl eq_refl eq_refl HM) as [HN HZ].
  eexists _, _, nz, zt, _, _. split; [exact H|].
  exact (conj Hnz (conj Hzt (conj HN HZ))).
Defined.

(** *** An empty batch *)

(** X26. On an empty batch the two mean estimates, the adversarial loss
    and the total loss have no value, and the reward is the empty list. *)
Theorem empty_batch_undefined fw hp b i n g g1 g2 l g' r :
  create_network hp i g = Some (n, g1) ->
  create_loss fw hp b i n g2 = Some (l, g') ->
  t_run (expert_estimate n) r = Some [] ->
  t_run (policy_estimate n) r = Some [] ->
  mean_expert_estimate l r = None
  /\ mean_policy_estimate l r = None
  /\ discriminator_loss l r = None
  /\ loss l r = None
  /\ intrinsic_reward n r = Some [].
Proof.
  intros Hn Hl He Hp.
  pose proof (intrinsic_reward_run _ _ _ _ _ r Hn) as Hr.
  apply create_network_Some in Hn as (_ & _ & _ & _ & _ & _ & Hs & _).
  apply create_loss_Some in Hl
    as (Hme & Hmp & Hd & with_kl & Hkl & Hgp & _).
  assert (Hdr : discriminator_loss l r = None).
  { rewrite Hd.
    rewrite (adversarial_loss_run _ _ r [] [] He Hp eq_refl);
      [reflexivity|constructor|constructor]. }
  assert (Hwr : with_kl r = None).
  { destruct (use_vail hp).
    - destruct Hkl as (zls & zme & zmp & _ & _ & _ & _ & ->).
      unfold s_lift2 at 1. rewrite Hdr.
      destruct (s_lift2 Rmult _ _ r); reflexivity.
    - destruct Hkl as [_ ->]. exact Hdr. }
  split_and!.
  - rewrite Hme. unfold reduce_mean. rewrite He. reflexivity.
  - rewrite Hmp. unfold reduce_mean. rewrite Hp. reflexivity.
  - exact Hdr.
  - destruct (Rlt_dec 0 (gradient_penalty_weight hp)).
    + destruct Hgp as (gm & _ & ->). unfold s_lift2 at 1. rewrite Hwr.
      reflexivity.
    + destruct Hgp as [_ ->]. exact Hwr.
  - rewrite Hr, Hs. unfold reshape_flat. rewrite Hp. reflexivity.
Qed.

Lemma empty_batch_undefined_witness :
  exists g l g',
    create_network (demo_hp false 0) demo_inputs beta_graph
    = Some (network_nodes (demo_hp false 0) demo_inputs 0, g)
    /\ create_loss demo_framework (demo_hp false 0) beta_nodes demo_inputs
         (network_nodes (demo_hp false 0) demo_inputs 0) g
       = Some (l, g')
    /\ t_run (policy_estimate (network_nodes (demo_hp false 0) demo_inputs 0))
             empty_batch_run = Some []
    /\ loss l empty_batch_run = None.
Proof.
  destruct (demo_create_loss false 0) as (g & l & g' & Hn & Hl).
  assert (He : t_run (expert_estimate
                        (network_nodes (demo_hp false 0) demo_inputs 0))
                     empty_batch_run = Some []) by reflexivity.
  assert (Hp : t_run (policy_estimate
                        (network_nodes (demo_hp false 0) demo_inputs 0))
                     empty_batch_run = Some []) by reflexivity.
  exists g, l, g'. split; [exact Hn|]. split; [exact Hl|]. split; [exact Hp|].
  apply (empty_batch_undefined _ _ _ _ _ _ _ _ _ _ _ Hn Hl He Hp).
Defined.

(** *** The noise level must be fed *)

Lemma gated_code_unfed (zm zs nz un : tensor) r :
  t_run un r = None -> t_run (add zm (mul (mul zs nz) un)) r = None.
Proof.
  intros Hun. unfold add, mul, binop. cbn [t_run]. rewrite Hun.
  destruct (t_run zm r); cbn [mbind option_bind]; [|reflexivity].
  destruct (t_run zs r); cbn [mbind option_bind]; [|reflexivity].
  destruct (t_run nz r); cbn [mbind option_bind]; [|reflexivity].
  destruct (bcast_mat Rmult _ _); reflexivity.
Qed.

Lemma estimate_unfed hp zs un s a d id r :
  use_vail hp = true ->
  t_run un r = None ->
  t_run (estimate (encoder_nodes hp zs un s a d id)) r = None.
Proof.
  intros Hvail Hun. unfold encoder_nodes. rewrite Hvail. cbn [estimate].
  unfold estimate_layer, dense_output. cbn [t_run].
  rewrite gated_code_unfed by exact Hun. reflexivity.
Qed.

(** X27. With the bottleneck on, the estimates and the reward have a
    value only in runs that feed exactly one noise level. *)
Theorem noise_level_required hp i g n g' r :
  create_network hp i g = Some (n, g') ->
  use_vail hp = true ->
  (forall u, feed_use_noise (r_feed r) <> [u]) ->
  t_run (expert_estimate n) r = None
  /\ t_run (policy_estimate n) r = None
  /\ intrinsic_reward n r = None.
Proof.
  intros Hn Hvail Hfeed.
  pose proof (intrinsic_reward_run _ _ _ _ _ r Hn) as Hr.
  destruct (create_network_vail _ _ _ _ _ Hn Hvail)
    as (id1 & id2 & He & Hp & _).
  apply create_network_Some in Hn as (_ & _ & _ & _ & _ & _ & Hs & _).
  assert (Hun : t_run (placeholder_1 feed_use_noise) r = None).
  { unfold placeholder_1. cbn [t_run].
    destruct (feed_use_noise (r_feed r)) as [|u [|u' rest]] eqn:Hf;
      try reflexivity.
    exfalso. apply (Hfeed u). reflexivity. }
  assert (Hpe : t_run (policy_estimate n) r = None).
  { unfold policy_estimate. rewrite Hp. apply estimate_unfed; assumption. }
  split_and!.
  - unfold expert_estimate. rewrite He. apply estimate_unfed; assumption.
  - exact Hpe.
  - rewrite Hr, Hs. unfold reshape_flat. rewrite Hpe. reflexivity.
Qed.

Lemma noise_level_required_witness :
  exists g,
    create_network (demo_hp true 0) demo_inputs beta_graph
    = Some (network_nodes (demo_hp true 0) demo_inputs 0, g)
    /\ intrinsic_reward (network_nodes (demo_hp true 0) demo_inputs 0)
                        ungated_run = None.
Proof.
  destruct (demo_create_network true 0) as (g & Hn & _).
  exists g. split; [exact Hn|].
  apply (noise_level_required _ _ _ _ _ ungated_run Hn eq_refl).
  intros u. discriminate.
Defined.

End Facts.
